(** * Competitive tracker: snapshots, change detection, storage, scan loop

    A shallow embedding of the tracker package:
    - [snapshot]        tracker/models/snapshot.py
    - [change]          tracker/models/change.py
    - [change_detector] tracker/change_detector.py
    - [storage]         tracker/storage.py
    - [agent]           tracker/agent.py

    Python [str] is [string] (a byte string holding the UTF-8 encoding;
    byte-wise lexicographic order coincides with Python's code point
    order).  A [dict] with string keys is a [gmap string _], [set(...)] is
    a [gset string], and iterating a set is iterating [elements] of it:
    one enumeration of its members without repetitions.  Python fixes
    the order of that enumeration by the hashes and the history of
    the set, not by its members alone, so two runs are compared up to
    the order within one set.  Values read from the clock
    ([datetime.now()]) are explicit arguments. *)

From stdpp Require Import base option list gmap strings sorting fin_maps fin_sets.

(** ** Exceptions and results *)

Inductive Exception : Type :=
  | ValueError (msg : string)
  | OSError (msg : string)
  | RequestException (msg : string).

Inductive result (A : Type) : Type :=
  | Return (a : A)
  | Raise (e : Exception).
Arguments Return {A} a.
Arguments Raise {A} e.

(** Python truthiness of a [str]. *)
Definition truthy (s : string) : bool := bool_decide (s ≠ "").

(** [str(x)] for a value that is a [str] or [None]. *)
Definition str (x : option string) : string :=
  match x with
  | Some s => s
  | None => "None"
  end.

(** [d.get(key, default)]. *)
Definition get_default (d : gmap string string) (key dflt : string) : string :=
  default dflt (d !! key).

(** [list(d.keys())]. *)
Definition keys {V} (d : gmap string V) : list string := (map_to_list d).*1.

(** ** tracker/models/snapshot.py *)

Module snapshot.

(** A constructed [CompanySnapshot].  The values of [pricing],
    [business_info] and [raw_pages] are strings, as every scraper
    produces them (element texts, matched price patterns, hexadecimal
    digests); [timestamp] is non-empty once [__post_init__] has run. *)
Record CompanySnapshot : Type := {
  company_id : string;
  timestamp : string;
  services : list string;
  pricing : gmap string string;
  locations : list string;
  promotions : list string;
  business_info : gmap string string;
  raw_pages : gmap string string;
  metadata : gmap string string;
}.

End snapshot.

(** ** tracker/models/change.py *)

Module change.

Inductive ChangeType : Type :=
  | SERVICE_ADDED
  | SERVICE_REMOVED
  | PRICE_CHANGED
  | LOCATION_ADDED
  | LOCATION_REMOVED
  | PROMOTION_NEW
  | PROMOTION_EXPIRED
  | BUSINESS_MODEL_CHANGE
  | WEBSITE_CONTENT_CHANGE.

Definition value (t : ChangeType) : string :=
  match t with
  | SERVICE_ADDED => "service_added"
  | SERVICE_REMOVED => "service_removed"
  | PRICE_CHANGED => "price_changed"
  | LOCATION_ADDED => "location_added"
  | LOCATION_REMOVED => "location_removed"
  | PROMOTION_NEW => "promotion_new"
  | PROMOTION_EXPIRED => "promotion_expired"
  | BUSINESS_MODEL_CHANGE => "business_model_change"
  | WEBSITE_CONTENT_CHANGE => "website_content_change"
  end.

Record Change : Type := {
  company_id : string;
  change_type : string;
  category : string;
  description : string;
  old_value : option string;
  new_value : option string;
  timestamp : string;
  severity : string;
}.

Global Instance Change_eq_dec : EqDecision Change.
Proof. solve_decision. Defined.

End change.

(** ** tracker/change_detector.py *)

Module change_detector.
Import snapshot.
Export change.

(** *** The [Change(...)] records the detector builds *)

Section records.
Variables (cid ts : string).

Definition service_added (service : string) : Change :=
  {| company_id := cid;
     change_type := value SERVICE_ADDED;
     category := "services";
     description := "Novo serviço detetado: " +:+ service;
     old_value := None;
     new_value := Some service;
     timestamp := ts;
     severity := "high" |}.

Definition service_removed (service : string) : Change :=
  {| company_id := cid;
     change_type := value SERVICE_REMOVED;
     category := "services";
     description := "Serviço removido: " +:+ service;
     old_value := Some service;
     new_value := None;
     timestamp := ts;
     severity := "high" |}.

Definition price_registered (key new_price : string) : Change :=
  {| company_id := cid;
     change_type := value PRICE_CHANGED;
     category := "pricing";
     description := "Novo preço registado para: " +:+ key;
     old_value := None;
     new_value := Some new_price;
     timestamp := ts;
     severity := "medium" |}.

Definition price_removed (key old_price : string) : Change :=
  {| company_id := cid;
     change_type := value PRICE_CHANGED;
     category := "pricing";
     description := "Preço removido para: " +:+ key;
     old_value := Some old_price;
     new_value := None;
     timestamp := ts;
     severity := "medium" |}.

Definition price_altered (key old_price new_price : string) : Change :=
  {| company_id := cid;
     change_type := value PRICE_CHANGED;
     category := "pricing";
     description :=
       "Preço alterado para " +:+ key +:+ ": " +:+ old_price
         +:+ " -> " +:+ new_price;
     old_value := Some old_price;
     new_value := Some new_price;
     timestamp := ts;
     severity := "high" |}.

Definition location_added (location : string) : Change :=
  {| company_id := cid;
     change_type := value LOCATION_ADDED;
     category := "locations";
     description := "Nova localização: " +:+ location;
     old_value := None;
     new_value := Some location;
     timestamp := ts;
     severity := "high" |}.

Definition location_removed (location : string) : Change :=
  {| company_id := cid;
     change_type := value LOCATION_REMOVED;
     category := "locations";
     description := "Localização removida: " +:+ location;
     old_value := Some location;
     new_value := None;
     timestamp := ts;
     severity := "medium" |}.

Definition promotion_new (promo : string) : Change :=
  {| company_id := cid;
     change_type := value PROMOTION_NEW;
     category := "promotions";
     description := "Nova promoção: " +:+ promo;
     old_value := None;
     new_value := Some promo;
     timestamp := ts;
     severity := "medium" |}.

Definition promotion_expired (promo : string) : Change :=
  {| company_id := cid;
     change_type := value PROMOTION_EXPIRED;
     category := "promotions";
     description := "Promoção expirada/removida: " +:+ promo;
     old_value := Some promo;
     new_value := None;
     timestamp := ts;
     severity := "info" |}.

Definition business_model_change (old_preview new_preview : string) : Change :=
  {| company_id := cid;
     change_type := value BUSINESS_MODEL_CHANGE;
     category := "business_model";
     description :=
       "Conteúdo da página 'Sobre' alterado - possível mudança no modelo de negócio";
     old_value := Some old_preview;
     new_value := Some new_preview;
     timestamp := ts;
     severity := "medium" |}.

(** [h[:16]] is the first sixteen characters of a digest; the digests
    are hexadecimal, hence ASCII, where characters and bytes coincide. *)
Definition website_content_change (page old_hash new_hash : string) : Change :=
  {| company_id := cid;
     change_type := value WEBSITE_CONTENT_CHANGE;
     category := "business_model";
     description := "Conteúdo da página '" +:+ page +:+ "' alterado";
     old_value := Some ("hash: " +:+ String.substring 0 16 old_hash +:+ "...");
     new_value := Some ("hash: " +:+ String.substring 0 16 new_hash +:+ "...");
     timestamp := ts;
     severity := "info" |}.

End records.

(** *** The six detectors *)

Definition _detect_service_changes
    (old new : CompanySnapshot) (timestamp : string) : list Change :=
  let old_services : gset string := list_to_set (services old) in
  let new_services : gset string := list_to_set (services new) in
  (service_added (snapshot.company_id new) timestamp
     <$> elements (new_services ∖ old_services))
  ++ (service_removed (snapshot.company_id new) timestamp
        <$> elements (old_services ∖ new_services)).

(** The body of the loop over [all_keys] in [_detect_pricing_changes]:
    what one key appends to [changes]. *)
Definition pricing_changes_for_key
    (old new : CompanySnapshot) (timestamp key : string) : list Change :=
  let old_price := pricing old !! key in
  let new_price := pricing new !! key in
  if bool_decide (old_price = None) && bool_decide (new_price ≠ None) then
    [ price_registered (snapshot.company_id new) timestamp key (str new_price) ]
  else if bool_decide (old_price ≠ None) && bool_decide (new_price = None) then
    [ price_removed (snapshot.company_id new) timestamp key (str old_price) ]
  else if bool_decide (old_price ≠ new_price) then
    [ price_altered (snapshot.company_id new) timestamp key
        (str old_price) (str new_price) ]
  else [].

Definition pricing_all_keys (old new : CompanySnapshot) : gset string :=
  list_to_set (keys (pricing old) ++ keys (pricing new)).

Definition _detect_pricing_changes
    (old new : CompanySnapshot) (timestamp : string) : list Change :=
  let all_keys := pricing_all_keys old new in
  elements all_keys ≫= pricing_changes_for_key old new timestamp.

Definition _detect_location_changes
    (old new : CompanySnapshot) (timestamp : string) : list Change :=
  let old_locations : gset string := list_to_set (locations old) in
  let new_locations : gset string := list_to_set (locations new) in
  (location_added (snapshot.company_id new) timestamp
     <$> elements (new_locations ∖ old_locations))
  ++ (location_removed (snapshot.company_id new) timestamp
        <$> elements (old_locations ∖ new_locations)).

Definition _detect_promotion_changes
    (old new : CompanySnapshot) (timestamp : string) : list Change :=
  let old_promos : gset string := list_to_set (promotions old) in
  let new_promos : gset string := list_to_set (promotions new) in
  (promotion_new (snapshot.company_id new) timestamp
     <$> elements (new_promos ∖ old_promos))
  ++ (promotion_expired (snapshot.company_id new) timestamp
        <$> elements (old_promos ∖ new_promos)).

Definition _detect_business_changes
    (old new : CompanySnapshot) (timestamp : string) : list Change :=
  let old_hash := get_default (business_info old) "about_text_hash" "" in
  let new_hash := get_default (business_info new) "about_text_hash" "" in
  if truthy old_hash && truthy new_hash && bool_decide (old_hash ≠ new_hash) then
    [ business_model_change (snapshot.company_id new) timestamp
        (get_default (business_info old) "about_text_preview" "")
        (get_default (business_info new) "about_text_preview" "") ]
  else [].

(** The body of the loop over [all_pages] in [_detect_page_changes]. *)
Definition page_changes_for_page
    (old new : CompanySnapshot) (timestamp page : string) : list Change :=
  let old_hash := get_default (raw_pages old) page "" in
  let new_hash := get_default (raw_pages new) page "" in
  if truthy old_hash && truthy new_hash && bool_decide (old_hash ≠ new_hash) then
    [ website_content_change (snapshot.company_id new) timestamp page
        old_hash new_hash ]
  else [].

Definition page_all_pages (old new : CompanySnapshot) : gset string :=
  list_to_set (keys (raw_pages old) ++ keys (raw_pages new)).

Definition _detect_page_changes
    (old new : CompanySnapshot) (timestamp : string) : list Change :=
  let all_pages := page_all_pages old new in
  elements all_pages ≫= page_changes_for_page old new timestamp.

(** [timestamp] is [datetime.now().isoformat()], read once per call. *)
Definition detect_changes
    (old new : CompanySnapshot) (timestamp : string) : result (list Change) :=
  if bool_decide (snapshot.company_id old ≠ snapshot.company_id new) then
    Raise (ValueError "Snapshots devem ser da mesma empresa")
  else
    Return (_detect_service_changes old new timestamp
            ++ _detect_pricing_changes old new timestamp
            ++ _detect_location_changes old new timestamp
            ++ _detect_promotion_changes old new timestamp
            ++ _detect_business_changes old new timestamp
            ++ _detect_page_changes old new timestamp).

(** *** The declarative reading of the detector

    [emitted old new ts c]: the change [c] is due between [old] and
    [new] at detection time [ts].  [detect_changes] returns exactly
    these (lemma [detect_changes_emitted] below). *)

Definition about_hash (s : CompanySnapshot) : string :=
  get_default (business_info s) "about_text_hash" "".
Definition about_preview (s : CompanySnapshot) : string :=
  get_default (business_info s) "about_text_preview" "".
Definition page_hash (s : CompanySnapshot) (page : string) : string :=
  get_default (raw_pages s) page "".

Inductive emitted (old new : CompanySnapshot) (ts : string) : Change → Prop :=
  | emitted_service_added x :
      x ∈ services new → x ∉ services old →
      emitted old new ts (service_added (snapshot.company_id new) ts x)
  | emitted_service_removed x :
      x ∈ services old → x ∉ services new →
      emitted old new ts (service_removed (snapshot.company_id new) ts x)
  | emitted_price_registered key v :
      pricing old !! key = None → pricing new !! key = Some v →
      emitted old new ts (price_registered (snapshot.company_id new) ts key v)
  | emitted_price_removed key v :
      pricing old !! key = Some v → pricing new !! key = None →
      emitted old new ts (price_removed (snapshot.company_id new) ts key v)
  | emitted_price_altered key a b :
      pricing old !! key = Some a → pricing new !! key = Some b → a ≠ b →
      emitted old new ts (price_altered (snapshot.company_id new) ts key a b)
  | emitted_location_added x :
      x ∈ locations new → x ∉ locations old →
      emitted old new ts (location_added (snapshot.company_id new) ts x)
  | emitted_location_removed x :
      x ∈ locations old → x ∉ locations new →
      emitted old new ts (location_removed (snapshot.company_id new) ts x)
  | emitted_promotion_new x :
      x ∈ promotions new → x ∉ promotions old →
      emitted old new ts (promotion_new (snapshot.company_id new) ts x)
  | emitted_promotion_expired x :
      x ∈ promotions old → x ∉ promotions new →
      emitted old new ts (promotion_expired (snapshot.company_id new) ts x)
  | emitted_business_model_change :
      about_hash old ≠ "" → about_hash new ≠ "" →
      about_hash old ≠ about_hash new →
      emitted old new ts
        (business_model_change (snapshot.company_id new) ts
           (about_preview old) (about_preview new))
  | emitted_website_content_change page :
      page_hash old page ≠ "" → page_hash new page ≠ "" →
      page_hash old page ≠ page_hash new page →
      emitted old new ts
        (website_content_change (snapshot.company_id new) ts page
           (page_hash old page) (page_hash new page)).

End change_detector.

(** ** datetime: the clock readings the storage layer formats *)

Module datetime.

Record datetime : Type := {
  year : nat;
  month : nat;
  day : nat;
  hour : nat;
  minute : nat;
  second : nat;
  microsecond : nat;
}.

(** A value [datetime.now()] can return.  From year 1000 on, [%Y]
    prints exactly four digits. *)
Definition valid (d : datetime) : Prop :=
  1000 ≤ year d < 10 * 1000 ∧ 1 ≤ month d ≤ 12 ∧ 1 ≤ day d ≤ 31 ∧
  hour d < 24 ∧ minute d < 60 ∧ second d < 60.

Definition digit (n : nat) : Ascii.ascii := Ascii.ascii_of_nat (48 + n `mod` 10).

(** [n] in decimal on exactly [width] digits, zero padded. *)
Fixpoint pad (width n : nat) : string :=
  match width with
  | 0 => ""
  | S w => pad w (n `div` 10) +:+ String (digit n) ""
  end.

(** [d.strftime("%Y%m%d_%H%M%S")]. *)
Definition strftime_Ymd_HMS (d : datetime) : string :=
  pad 4 (year d) +:+ pad 2 (month d) +:+ pad 2 (day d) +:+ "_" +:+
  pad 2 (hour d) +:+ pad 2 (minute d) +:+ pad 2 (second d).

(** Chronological comparison of two readings at one-second resolution. *)
Definition compare_seconds (a b : datetime) : comparison :=
  match year a ?= year b with
  | Eq =>
      match month a ?= month b with
      | Eq =>
          match day a ?= day b with
          | Eq =>
              match hour a ?= hour b with
              | Eq =>
                  match minute a ?= minute b with
                  | Eq => second a ?= second b
                  | c => c
                  end
              | c => c
              end
          | c => c
          end
      | c => c
      end
  | c => c
  end.

Definition before (a b : datetime) : Prop := compare_seconds a b = Lt.

End datetime.

(** ** tracker/storage.py *)

Module storage.
Import snapshot.
Export datetime.

(** The tree below [base_dir]: one directory per company id, each
    mapping a file name to the content of the file.  A snapshot file
    holds the JSON text written by [CompanySnapshot.save], from which
    [CompanySnapshot.load] rebuilds a snapshot with the same fields, so
    a file is represented by that snapshot.  Company ids are single
    path components without glob metacharacters, as the keys of the
    scraper registry are.  A missing key is a directory that does not
    exist. *)
Abbreviation files := (gmap string (gmap string CompanySnapshot)).

Definition directory (company_id : string) (fs : files)
    : gmap string CompanySnapshot :=
  default ∅ (fs !! company_id).

Fixpoint strip_prefix (p s : string) : option string :=
  match p, s with
  | EmptyString, _ => Some s
  | String a p', String b s' =>
      if decide (a = b) then strip_prefix p' s' else None
  | String _ _, EmptyString => None
  end.

Fixpoint ends_with (suffix s : string) : bool :=
  bool_decide (s = suffix)
  || match s with
     | EmptyString => false
     | String _ s' => ends_with suffix s'
     end.

(** Whether [name] matches the glob pattern [f"{company_id}_*.json"],
    for a [company_id] that the pattern reads literally. *)
Definition glob_match (company_id name : string) : bool :=
  match strip_prefix (company_id +:+ "_") name with
  | Some rest => ends_with ".json" rest
  | None => false
  end.

(** [Path.glob] reads [*], [?] and square brackets as wildcards wherever
    they stand in the pattern, so also inside [company_id], which is
    interpolated as it is; and [/] separates path components.  A company
    id is read literally when it holds none of these characters.  What a
    listing contains is stated below for such ids only. *)
Fixpoint glob_literal (company_id : string) : bool :=
  match company_id with
  | EmptyString => true
  | String c rest =>
      bool_decide (String c EmptyString ∉ ["*"; "?"; "["; "]"; "/"])
      && glob_literal rest
  end.

(** [sorted(paths, reverse=True)] on paths of one directory. *)
Definition sorted_reverse (names : list string) : list string :=
  merge_sort (flip String.le) names.

(** [sorted(company_dir.glob(f"{company_id}_*.json"), reverse=True)]. *)
Definition snapshot_files (company_id : string)
    (company_dir : gmap string CompanySnapshot) : list string :=
  sorted_reverse
    (filter (λ name, glob_match company_id name = true) (keys company_dir)).

(** [CompanySnapshot.load(str(f))] for a file [f] of [company_dir]. *)
Definition load (company_dir : gmap string CompanySnapshot) (f : string)
    : option CompanySnapshot :=
  company_dir !! f.

(** [snapshot.save(filepath)]: [open(filepath, "w")] creates the file
    or truncates the one already there. *)
Definition save (company_id filename : string) (snapshot : CompanySnapshot)
    (fs : files) : files :=
  <[company_id := <[filename := snapshot]> (directory company_id fs)]> fs.

(** [f.unlink()]. *)
Definition unlink (company_id filename : string) (fs : files) : files :=
  <[company_id := delete filename (directory company_id fs)]> fs.

(** [l[n:]] for a Python [int] [n]. *)
Definition slice_from {A} (n : Z) (l : list A) : list A :=
  if decide (0 ≤ n)%Z then drop (Z.to_nat n) l
  else drop (Z.to_nat (Z.of_nat (length l) + n)) l.

Section SnapshotStorage.
Variable max_per_company : Z.

(** [path.mkdir(parents=True, exist_ok=True)]; the path returned is
    the key [company_id] itself. *)
Definition _company_dir (company_id : string) (fs : files) : files :=
  match fs !! company_id with
  | Some _ => fs
  | None => <[company_id := ∅]> fs
  end.

Definition _cleanup_old_snapshots (company_id : string) (fs : files) : files :=
  let fs := _company_dir company_id fs in
  let files := snapshot_files company_id (directory company_id fs) in
  if decide (Z.of_nat (length files) > max_per_company)%Z then
    foldl (λ fs f, unlink company_id f fs) fs (slice_from max_per_company files)
  else fs.

Definition snapshot_filename (company_id : string) (now : datetime) : string :=
  company_id +:+ "_" +:+ strftime_Ymd_HMS now +:+ ".json".

(** [now] is the value of [datetime.now()]; the path returned is
    relative to [base_dir]. *)
Definition save_snapshot (snapshot : CompanySnapshot) (now : datetime)
    (fs : files) : string * files :=
  let fs := _company_dir (company_id snapshot) fs in
  let filename := snapshot_filename (company_id snapshot) now in
  let fs := save (company_id snapshot) filename snapshot fs in
  let fs := _cleanup_old_snapshots (company_id snapshot) fs in
  (company_id snapshot +:+ "/" +:+ filename, fs).

Definition get_latest_snapshot (company_id : string) (fs : files)
    : option CompanySnapshot * files :=
  let fs := _company_dir company_id fs in
  let company_dir := directory company_id fs in
  let files := snapshot_files company_id company_dir in
  match files with
  | [] => (None, fs)
  | f :: _ => (load company_dir f, fs)
  end.

Definition get_previous_snapshot (company_id : string) (fs : files)
    : option CompanySnapshot * files :=
  let fs := _company_dir company_id fs in
  let company_dir := directory company_id fs in
  let files := snapshot_files company_id company_dir in
  match files with
  | _ :: f :: _ => (load company_dir f, fs)
  | _ => (None, fs)
  end.

Definition get_all_snapshots (company_id : string) (fs : files)
    : list CompanySnapshot * files :=
  let fs := _company_dir company_id fs in
  let company_dir := directory company_id fs in
  let files := snapshot_files company_id company_dir in
  (omap (load company_dir) files, fs).

(** Successive calls of [save_snapshot], each with its own clock
    reading. *)
Definition save_all (saves : list (CompanySnapshot * datetime)) (fs : files)
    : files :=
  foldl (λ fs p, (save_snapshot p.1 p.2 fs).2) fs saves.

End SnapshotStorage.

End storage.

(** ** tracker/agent.py *)

Module agent.
Import snapshot.
Import change_detector.

Section CompetitiveAgent.
(** Everything outside the agent that a scan reads or changes: the
    monitored web sites, the directories of snapshots and reports,
    the clock. *)
Context {World : Type}.

(** A call that may change the world and either returns or raises. *)
Definition action (A : Type) : Type := World → result A * World.

Definition ret {A} (a : A) : action A := λ w, (Return a, w).

Definition bind {A B} (m : action A) (k : A → action B) : action B :=
  λ w, match m w with
       | (Return a, w') => k a w'
       | (Raise e, w') => (Raise e, w')
       end.

Definition lift {A} (r : result A) : action A := λ w, (r, w).

Notation "x <- m ;; k" := (bind m (λ x, k))
  (at level 100, m at next level, right associativity).

(** The collaborators of [CompetitiveAgent]. *)
Variable SCRAPERS : gmap string (action CompanySnapshot).
Variable storage_get_latest_snapshot : string → action (option CompanySnapshot).
Variable storage_save_snapshot : CompanySnapshot → action string.
Variable now_isoformat : World → string.
Variable companies_config : list string.
Variable reporter :
  string → gmap string (list Change) → gmap string CompanySnapshot → action unit.

Definition get_company_ids : list string := companies_config.

(** [self.detector.detect_changes(previous, new_snapshot)], which
    reads the clock once. *)
Definition detector_detect_changes (old new : CompanySnapshot)
    : action (list Change) :=
  λ w, lift (detect_changes old new (now_isoformat w)) w.

Definition _scan_company (company_id : string)
    : action (list Change * option CompanySnapshot) :=
  match SCRAPERS !! company_id with
  | None => ret ([], None)
  | Some scrape =>
      previous <- storage_get_latest_snapshot company_id ;;
      new_snapshot <- scrape ;;
      _ <- storage_save_snapshot new_snapshot ;;
      changes <- match previous with
                 | Some previous => detector_detect_changes previous new_snapshot
                 | None => ret []
                 end ;;
      ret (changes, Some new_snapshot)
  end.

(** The [try]/[except Exception] statement that is the body of the
    loop of [run_scan], on the pair [(all_changes, current_snapshots)]. *)
Definition scan_one
    (acc : gmap string (list Change) * gmap string CompanySnapshot)
    (company_id : string) (w : World)
    : (gmap string (list Change) * gmap string CompanySnapshot) * World :=
  match _scan_company company_id w with
  | (Return (changes, snapshot), w') =>
      ((<[company_id := changes]> acc.1,
        match snapshot with
        | Some s => <[company_id := s]> acc.2
        | None => acc.2
        end), w')
  | (Raise e, w') => ((<[company_id := []]> acc.1, acc.2), w')
  end.

Fixpoint scan_loop (company_ids : list string)
    (acc : gmap string (list Change) * gmap string CompanySnapshot)
    (w : World)
    : (gmap string (list Change) * gmap string CompanySnapshot) * World :=
  match company_ids with
  | [] => (acc, w)
  | company_id :: rest =>
      let '(acc', w') := scan_one acc company_id w in
      scan_loop rest acc' w'
  end.

Definition run_scan (company_ids : option (list string)) (report_format : string)
    : action (gmap string (list Change)) :=
  λ w,
    let company_ids := default get_company_ids company_ids in
    let '(acc, w1) := scan_loop company_ids (∅, ∅) w in
    match reporter report_format acc.1 acc.2 w1 with
    | (Return _, w2) => (Return acc.1, w2)
    | (Raise e, w2) => (Raise e, w2)
    end.

(** What [run_scan] records for a company scanned in world [w]. *)
Definition recorded_changes (company_id : string) (w : World) : list Change :=
  match (_scan_company company_id w).1 with
  | Return (changes, _) => changes
  | Raise _ => []
  end.

End CompetitiveAgent.

End agent.

(** ** Concrete snapshots and clock readings used in examples *)

Module examples.
Import snapshot.
Import datetime.

Definition fixo_monday : CompanySnapshot :=
  {| company_id := "fixo"; timestamp := "2025-03-10T07:05:01.000120";
     services := ["A"; "B"];
     pricing := {[ "basic" := "10€" ]};
     locations := ["Lisboa"];
     promotions := ["10% de desconto"];
     business_info := {[ "about_text_hash" := "aa11"; "about_text_preview" := "Somos a FIXO" ]};
     raw_pages := {[ "home" := "0123456789abcdef0123"; "about" := "ffff" ]};
     metadata := ∅ |}.

Definition fixo_tuesday : CompanySnapshot :=
  {| company_id := "fixo"; timestamp := "2025-03-11T07:05:01.000480";
     services := ["B"; "C"];
     pricing := {[ "basic" := "12€" ]};
     locations := ["Lisboa"; "Porto"];
     promotions := [];
     business_info := {[ "about_text_hash" := "bb22"; "about_text_preview" := "A FIXO mudou" ]};
     raw_pages := {[ "home" := "fedcba98765432100123"; "about" := "ffff" ]};
     metadata := ∅ |}.

Definition oscar_monday : CompanySnapshot :=
  {| company_id := "oscar"; timestamp := "2025-03-10T07:06:30.000000";
     services := ["Canalizador"];
     pricing := ∅; locations := []; promotions := [];
     business_info := ∅; raw_pages := ∅; metadata := ∅ |}.

(** A clock reading on 9 March 2025 between 07:05:00 and 07:05:59. *)
Definition reading (s us : nat) : datetime :=
  {| year := 2025; month := 3; day := 9; hour := 7; minute := 5;
     second := s; microsecond := us |}.

Definition detection_time : string := "2025-03-11T07:05:09.120000".
Definition later_detection_time : string := "2025-03-12T09:30:00.000000".

(** The changes from Monday to Tuesday, and from Tuesday back to Monday. *)
Definition monday_to_tuesday : list change.Change :=
  Eval vm_compute in
    match change_detector.detect_changes fixo_monday fixo_tuesday detection_time with
    | Return changes => changes
    | Raise _ => []
    end.

Definition tuesday_to_monday : list change.Change :=
  Eval vm_compute in
    match change_detector.detect_changes fixo_tuesday fixo_monday
            later_detection_time with
    | Return changes => changes
    | Raise _ => []
    end.

End examples.

(** ** A concrete world for the scan loop *)

Module scenario.
Import snapshot.
Import datetime.
Import storage.
Import agent.

(** The snapshot directories, the clock, and the companies whose
    directory is on a medium that rejects writes. *)
Record World : Type := {
  disk : gmap string (gmap string CompanySnapshot);
  clock : datetime;
  unwritable : gset string;
}.

Definition oscar_tuesday : CompanySnapshot :=
  {| company_id := "oscar"; timestamp := "2025-03-11T07:06:30.000000";
     services := ["Canalizador"; "Eletricista"];
     pricing := ∅; locations := []; promotions := [];
     business_info := ∅; raw_pages := ∅; metadata := ∅ |}.

(** Each scraper returns the snapshot of its site as of Tuesday. *)
Definition SCRAPERS : gmap string (@action World CompanySnapshot) :=
  {[ "fixo" := (λ w, (Return examples.fixo_tuesday, w));
     "oscar" := (λ w, (Return oscar_tuesday, w)) ]}.

Definition storage_get_latest_snapshot (company_id : string)
    : @action World (option CompanySnapshot) :=
  λ w, let '(found, fs) := get_latest_snapshot company_id (disk w) in
       (Return found, {| disk := fs; clock := clock w; unwritable := unwritable w |}).

(** [open(filepath, "w")] raises [OSError] on a medium that rejects
    writes. *)
Definition storage_save_snapshot (snapshot : CompanySnapshot)
    : @action World string :=
  λ w, if decide (company_id snapshot ∈ unwritable w)
       then (Raise (OSError "[Errno 30] Read-only file system"), w)
       else let '(path, fs) := save_snapshot 90 snapshot (clock w) (disk w) in
            (Return path,
             {| disk := fs; clock := clock w; unwritable := unwritable w |}).

Definition now_isoformat (w : World) : string := examples.detection_time.

(** Monday's snapshots are stored for both companies; on Tuesday the
    directory of "oscar" cannot be written. *)
Definition tuesday_morning : World :=
  {| disk := save_all 90 [(examples.fixo_monday, examples.reading 4 120);
                          (examples.oscar_monday, examples.reading 5 480)] ∅;
     clock := {| year := 2025; month := 3; day := 11; hour := 7; minute := 5;
                 second := 1; microsecond := 480 |};
     unwritable := {[ "oscar" ]} |}.

End scenario.

(** ** tracker/models/change.py: how a change is displayed *)

Module change_labels.
Import change.

Definition members : list ChangeType :=
  [SERVICE_ADDED; SERVICE_REMOVED; PRICE_CHANGED; LOCATION_ADDED; LOCATION_REMOVED;
   PROMOTION_NEW; PROMOTION_EXPIRED; BUSINESS_MODEL_CHANGE; WEBSITE_CONTENT_CHANGE].

(** [ChangeType(v)]: the member whose value is [v]; [None] stands for the
    [ValueError] raised when there is none. *)
Definition ChangeType_of (v : string) : option ChangeType :=
  snd <$> list_find (λ t, value t = v) members.

(** The dictionary [labels] of [label_pt]. *)
Definition labels : gmap string string :=
  {[ "service_added" := "Novo Serviço";
     "service_removed" := "Serviço Removido";
     "price_changed" := "Alteração de Preço";
     "location_added" := "Nova Localização";
     "location_removed" := "Localização Removida";
     "promotion_new" := "Nova Promoção";
     "promotion_expired" := "Promoção Expirada";
     "business_model_change" := "Mudança no Modelo de Negócio";
     "website_content_change" := "Alteração de Conteúdo no Website" ]}.

Definition label_pt (t : ChangeType) : string :=
  default (value t) (labels !! value t).

Definition type_label (c : Change) : string :=
  match ChangeType_of (change_type c) with
  | Some t => label_pt t
  | None => change_type c
  end.

Definition severity_emoji (c : Change) : string :=
  default "ℹ️"
    (({[ "info" := "ℹ️"; "medium" := "⚠️"; "high" := "🔴" ]} : gmap string string)
       !! severity c).

End change_labels.

(** ** What the detector reads of a snapshot *)

Module detector_views.
Import snapshot.

(** Two snapshots that agree on everything the detector reads: the
    company id, the elements of the three lists, and the three
    dictionaries the detectors look into. *)
Definition same_facts (s s' : CompanySnapshot) : Prop :=
  company_id s = company_id s'
  ∧ (∀ x, x ∈ services s ↔ x ∈ services s')
  ∧ (∀ x, x ∈ locations s ↔ x ∈ locations s')
  ∧ (∀ x, x ∈ promotions s ↔ x ∈ promotions s')
  ∧ pricing s = pricing s'
  ∧ get_default (business_info s) "about_text_hash" ""
    = get_default (business_info s') "about_text_hash" ""
  ∧ get_default (business_info s) "about_text_preview" ""
    = get_default (business_info s') "about_text_preview" ""
  ∧ raw_pages s = raw_pages s'.

(** Monday's snapshot of "fixo" taken again: other capture time, the
    services listed in another order and one of them twice, diagnostics
    added. *)
Definition fixo_monday_again : CompanySnapshot :=
  {| company_id := "fixo"; timestamp := "2025-03-10T19:30:00.000000";
     services := ["B"; "A"; "B"];
     pricing := {[ "basic" := "10€" ]};
     locations := ["Lisboa"];
     promotions := ["10% de desconto"];
     business_info := {[ "about_text_hash" := "aa11";
                         "about_text_preview" := "Somos a FIXO" ]};
     raw_pages := {[ "home" := "0123456789abcdef0123"; "about" := "ffff" ]};
     metadata := {[ "pages_fetched" := "2" ]} |}.

End detector_views.

(** ** A snapshot directory that also holds other files *)

Module mixed_directory.
Import snapshot.

(** The directory of "fixo" with one snapshot file and a file of another
    name next to it. *)
Definition disk : gmap string (gmap string CompanySnapshot) :=
  {[ "fixo" := {[ "fixo_20250309_070504.json" := examples.fixo_monday;
                  "backup.json" := examples.fixo_tuesday ]} ]}.

End mixed_directory.

(** ** tracker/reports/generator.py: what the reports compute from the changes *)

Module report_generator.
Import change.

Definition CATEGORY_LABELS : gmap string string :=
  {[ "services" := "Serviços";
     "pricing" := "Preços";
     "locations" := "Localizações";
     "promotions" := "Promoções";
     "business_model" := "Modelo de Negócio" ]}.

(** [by_category.setdefault(change.category, []).append(change)], the
    dictionary being kept as the list of its items in insertion order
    (the order [by_category.items()] yields them in). *)
Definition setdefault_append (by_category : list (string * list Change))
    (change : Change) : list (string * list Change) :=
  if decide (category change ∈ by_category.*1)
  then (λ item, if decide (item.1 = category change)
                then (item.1, item.2 ++ [change]) else item) <$> by_category
  else by_category ++ [(category change, [change])].

(** The loop [for change in changes: by_category.setdefault(...).append(change)]
    of the terminal and of the Markdown report. *)
Definition by_category (changes : list Change) : list (string * list Change) :=
  foldl setdefault_append [] changes.

(** [CATEGORY_LABELS.get(category, category)] *)
Definition category_label (category : string) : string :=
  default category (CATEGORY_LABELS !! category).

(** [sum(1 for c in changes if c.severity == level)] *)
Definition severity_count (level : string) (changes : list Change) : nat :=
  sum_list ((λ _, 1) <$> filter (λ c, severity c = level) changes).

End report_generator.

(** ** tracker/scrapers/base.py: fetching a page *)

Module base_scraper.

Section BaseScraper.

Context {World : Type}.

(** [self.session.get(url, timeout=self.timeout)] followed by
    [response.raise_for_status()]: the text of the response, or the
    exception one of the two raised. *)
Variable session_get : string → World → result string * World.
(** What [time.sleep(seconds)] does to the world when [seconds] is not
    negative. *)
Variable time_sleep : Z → World → World.
(** [self.delay] and [self.max_retries], read from the settings. *)
Variable delay : Z.
Variable max_retries : Z.

(** [time.sleep(seconds)]: a negative argument raises [ValueError]. *)
Definition sleep (seconds : Z) (w : World) : result unit * World :=
  if bool_decide (seconds < 0)%Z
  then (Raise (ValueError "sleep length must be non-negative"), w)
  else (Return (), time_sleep seconds w).

(** The body of [for attempt in ...] of [fetch_page], over the attempts
    still to be made.  Only a [RequestException] raised inside [try] is
    caught; an exception of [time.sleep] propagates. *)
Fixpoint fetch_attempts (url : string) (attempts : list Z) (w : World)
    : result (option string) * World :=
  match attempts with
  | [] => (Return None, w)
  | attempt :: attempts =>
      match session_get url w with
      | (Return text, w) =>
          match sleep delay w with
          | (Return _, w) => (Return (Some text), w)
          | (Raise e, w) => (Raise e, w)
          end
      | (Raise (RequestException _), w) =>
          if bool_decide (attempt < max_retries)%Z
          then match sleep (2 ^ attempt)%Z w with
               | (Return _, w) => fetch_attempts url attempts w
               | (Raise e, w) => (Raise e, w)
               end
          else fetch_attempts url attempts w
      | (Raise e, w) => (Raise e, w)
      end
  end.

(** [range(1, self.max_retries + 1)] *)
Definition fetch_page (url : string) : World → result (option string) * World :=
  fetch_attempts url (seqZ 1 max_retries).

End BaseScraper.

End base_scraper.

(** ** A network that answers from a script, and records what is asked of it *)

Module network.

Inductive event : Type :=
  | Requested (url : string)
  | Slept (seconds : Z).

(** The world is the record of what happened so far, oldest first. *)
Abbreviation World := (list event).

Definition requests (log : World) : nat :=
  foldr (λ e n, if e is Requested _ then S n else n) 0 log.

Definition slept (log : World) : Z :=
  foldr (λ e total, if e is Slept seconds then (seconds + total)%Z else total) 0%Z log.

Section script.

(** What the [n]-th request made (counting from 0) answers, for a url. *)
Variable responses : nat → string → result string.

Definition session_get (url : string) (log : World) : result string * World :=
  (responses (requests log) url, log ++ [Requested url]).

Definition time_sleep (seconds : Z) (log : World) : World :=
  log ++ [Slept seconds].

End script.

(** What a run of failed attempts leaves in the record: each request,
    followed by the back-off of [2 ** attempt] seconds. *)
Definition failures (url : string) (attempts : list Z) : list event :=
  attempts ≫= λ attempt, [Requested url; Slept (2 ^ attempt)%Z].

(** A site that fails twice, then answers. *)
Definition flaky (n : nat) (url : string) : result string :=
  if bool_decide (n < 2)%nat then Raise (RequestException "503") else Return "<html></html>".

(** A site that is down. *)
Definition down (n : nat) (url : string) : result string :=
  Raise (RequestException "timeout").

End network.

(** ** tracker/scrapers/fixo.py: assembling a snapshot from the pages *)

Module fixo_scraper.
Import snapshot.

(** [list(dict.fromkeys(l))]: the keys of [l] in the order of their
    first insertion. *)
Definition dict_fromkeys (l : list string) : list string :=
  foldl (λ keys k, if decide (k ∈ keys) then keys else keys ++ [k]) [] l.

Definition COMPANY_ID : string := "fixo".

(** [URLS.items()], in the order the dictionary is written. *)
Definition URLS : list (string * string) :=
  [ ("home", "https://fixo.pt");
    ("services", "https://fixo.pt/servicos");
    ("pricing", "https://fixo.pt/precos");
    ("about", "https://fixo.pt/sobre");
    ("blog", "https://fixo.pt/blog");
    ("locations", "https://fixo.pt/localizacoes") ].

Section FixoScraper.

Context {World Soup : Type}.

(** [BaseScraper.fetch_page], the clock read by [__post_init__], and the
    functions of the page content the scraper calls: the digest, the
    parser and the extractors. *)
Variable fetch_page : string → World → result (option string) * World.
Variable now_isoformat : World → string.
Variable content_hash : string → string.
Variable parse_html : string → Soup.
Variable extract_services : Soup → list string.
Variable extract_pricing : Soup → gmap string string.
Variable extract_locations : Soup → list string.
Variable extract_promotions : Soup → list string.
Variable _extract_business_info : Soup → gmap string string.

(** One turn of the loop [for page_name, url in self.URLS.items()], once
    [fetch_page] has returned [html]: [if html:] holds for a text that
    is not empty. *)
Definition record_page (page_name : string) (html : option string)
    (pages : gmap string string * gmap string Soup)
    : gmap string string * gmap string Soup :=
  match html with
  | Some text =>
      if truthy text
      then (<[page_name := content_hash text]> pages.1,
            <[page_name := parse_html text]> pages.2)
      else pages
  | None => pages
  end.

(** The loop, on the pair [(raw_pages, parsed_pages)]. *)
Fixpoint fetch_pages (urls : list (string * string))
    (pages : gmap string string * gmap string Soup) (w : World)
    : result (gmap string string * gmap string Soup) * World :=
  match urls with
  | [] => (Return pages, w)
  | (page_name, url) :: urls =>
      match fetch_page url w with
      | (Raise e, w) => (Raise e, w)
      | (Return html, w) => fetch_pages urls (record_page page_name html pages) w
      end
  end.

Definition scrape (w : World) : result CompanySnapshot * World :=
  match fetch_pages URLS (∅, ∅) w with
  | (Raise e, w) => (Raise e, w)
  | (Return (raw_pages, parsed_pages), w) =>
      let services :=
        match parsed_pages !! "services" with
        | Some soup => extract_services soup
        | None => []
        end in
      (* the block [if "home" in parsed_pages:] *)
      let promotions :=
        match parsed_pages !! "home" with
        | Some soup => extract_promotions soup
        | None => []
        end in
      let services :=
        match parsed_pages !! "home" with
        | Some soup => dict_fromkeys (services ++ extract_services soup)
        | None => services
        end in
      let pricing :=
        match parsed_pages !! "pricing" with
        | Some soup => extract_pricing soup
        | None => ∅
        end in
      let locations :=
        match parsed_pages !! "locations" with
        | Some soup => extract_locations soup
        | None => []
        end in
      let business_info :=
        match parsed_pages !! "about" with
        | Some soup => _extract_business_info soup
        | None => ∅
        end in
      (Return {| company_id := COMPANY_ID;
                 timestamp := now_isoformat w;
                 services := services;
                 pricing := pricing;
                 locations := locations;
                 promotions := promotions;
                 business_info := business_info;
                 raw_pages := raw_pages;
                 metadata := ∅ |}, w)
  end.

End FixoScraper.

End fixo_scraper.

(** ** Two sites to scrape: one that is down, one that serves its home page only *)

Module sites.

(** [fetch_page] with the default settings (a delay of 2 seconds, 3
    attempts) on a network that is down. *)
Definition fetch_page_down : string → network.World → result (option string) * network.World :=
  base_scraper.fetch_page (network.session_get network.down) network.time_sleep 2 3.

Definition home_only (url : string) : option string :=
  if decide (url = "https://fixo.pt") then Some "<li class=service>Canalizador</li>"
  else None.

Definition fetch_page_home_only (url : string) (w : unit)
    : result (option string) * unit :=
  (Return (home_only url), w).

(** Extractors that find one service on every page, and nothing else. *)
Definition one_service (soup : string) : list string := ["Canalizador"].
Definition no_items (soup : string) : list string := [].
Definition no_entries (soup : string) : gmap string string := ∅.

End sites.

(** ** tracker/agent.py: the status of the monitored companies *)

Module agent_status.
Import snapshot.
Import agent.

(** The dictionary [get_company_status] returns. *)
Record CompanyStatus : Type := {
  status_company_id : string;
  last_scan : string;
  services_count : nat;
  status_services : list string;
  locations_count : nat;
  status_locations : list string;
  status_pricing : gmap string string;
  status_promotions : list string;
  status_business_info : gmap string string;
}.

Definition status_of (company_id : string) (snapshot : CompanySnapshot)
    : CompanyStatus :=
  {| status_company_id := company_id;
     last_scan := timestamp snapshot;
     services_count := length (services snapshot);
     status_services := services snapshot;
     locations_count := length (locations snapshot);
     status_locations := locations snapshot;
     status_pricing := pricing snapshot;
     status_promotions := promotions snapshot;
     status_business_info := business_info snapshot |}.

Section CompetitiveAgent.

Context {World : Type}.
Variable storage_get_latest_snapshot : string → @action World (option CompanySnapshot).
Variable companies_config : list string.

Definition get_company_status (company_id : string)
    : @action World (option CompanyStatus) :=
  bind (storage_get_latest_snapshot company_id) (λ snapshot,
    match snapshot with
    | None => ret None
    | Some snapshot => ret (Some (status_of company_id snapshot))
    end).

(** The loop of [get_all_status] on the dictionary [status]. *)
Fixpoint status_loop (company_ids : list string)
    (status : gmap string (option CompanyStatus))
    : @action World (gmap string (option CompanyStatus)) :=
  match company_ids with
  | [] => ret status
  | company_id :: company_ids =>
      bind (get_company_status company_id) (λ company_status,
        status_loop company_ids (<[company_id := company_status]> status))
  end.

Definition get_all_status : @action World (gmap string (option CompanyStatus)) :=
  status_loop (get_company_ids companies_config) ∅.

End CompetitiveAgent.

(** [self.storage.get_latest_snapshot] on the snapshot directories. *)
Definition storage_get_latest_snapshot (company_id : string)
    : @action storage.files (option CompanySnapshot) :=
  λ fs, let '(found, fs) := storage.get_latest_snapshot company_id fs in
        (Return found, fs).

End agent_status.

(** * Verification *)

Import snapshot.
Import change_detector.
Import storage.
Import agent.

(** ** Strings and lists *)

Lemma bind_nil_all {A B} (f : A → list B) (l : list A) :
  (∀ x, f x = []) → l ≫= f = [].
Proof.
  intros Hf. induction l as [|x l IH]; [done|].
  rewrite bind_cons, Hf, IH. done.
Qed.

(** ** Change detector *)

(** C1: for every pair of snapshots whose company ids differ,
    [detect_changes] fails, raising the [ValueError] that is the code's
    mismatched-entity error, and returns no list of changes; this holds
    for every detection time. *)
Theorem detect_changes_mismatched_entity (old new : CompanySnapshot) (timestamp : string) :
  snapshot.company_id old ≠ snapshot.company_id new →
  detect_changes old new timestamp
    = Raise (ValueError "Snapshots devem ser da mesma empresa")
  ∧ ∀ changes, detect_changes old new timestamp ≠ Return changes.
Proof.
  intros Hne. unfold detect_changes.
  rewrite bool_decide_eq_true_2 by done. split; [done|]. intros changes. discriminate.
Qed.

Lemma detect_changes_mismatched_entity_witness :
  snapshot.company_id examples.fixo_monday ≠ snapshot.company_id examples.oscar_monday
  ∧ detect_changes examples.fixo_monday examples.oscar_monday examples.detection_time
      = Raise (ValueError "Snapshots devem ser da mesma empresa").
Proof.
  assert (H : snapshot.company_id examples.fixo_monday
              ≠ snapshot.company_id examples.oscar_monday) by (simpl; discriminate).
  split; [exact H|].
  exact (proj1 (detect_changes_mismatched_entity _ _ examples.detection_time H)).
Defined.

(** C3: diffing a snapshot against itself returns the empty list of
    changes: none of the six detectors emits anything. *)
Theorem detect_changes_same_snapshot (s : CompanySnapshot) (timestamp : string) :
  detect_changes s s timestamp = Return [].
Proof.
  unfold detect_changes. rewrite bool_decide_eq_false_2 by (intros H; by apply H).
  f_equal.
  unfold _detect_service_changes, _detect_location_changes, _detect_promotion_changes.
  rewrite !difference_diag_L, !elements_empty. simpl.
  unfold _detect_pricing_changes, _detect_page_changes.
  rewrite (bind_nil_all (pricing_changes_for_key s s timestamp)),
          (bind_nil_all (page_changes_for_page s s timestamp)).
  - unfold _detect_business_changes.
    rewrite (bool_decide_eq_false_2 (_ ≠ _)) by (intros H; by apply H).
    by rewrite andb_false_r.
  - intros page. unfold page_changes_for_page.
    rewrite (bool_decide_eq_false_2 (_ ≠ _)) by (intros H; by apply H).
    by rewrite andb_false_r.
  - intros key. unfold pricing_changes_for_key.
    destruct (pricing s !! key) as [p|] eqn:Hp; simpl.
    + rewrite (bool_decide_eq_false_2 (Some p ≠ Some p)) by (intros H; by apply H). done.
    + done.
Qed.

Lemma elem_of_keys {V} (d : gmap string V) (k : string) :
  k ∈ keys d ↔ is_Some (d !! k).
Proof.
  unfold keys. rewrite list_elem_of_fmap. split.
  - intros [[k' v] [-> Hin]]. apply elem_of_map_to_list in Hin. by exists v.
  - intros [v Hv]. exists (k, v). split; [done|]. by apply elem_of_map_to_list.
Qed.

Lemma elem_of_pricing_all_keys (old new : CompanySnapshot) (key : string) :
  key ∈ pricing_all_keys old new
  ↔ is_Some (pricing old !! key) ∨ is_Some (pricing new !! key).
Proof.
  unfold pricing_all_keys.
  by rewrite elem_of_list_to_set, elem_of_app, !elem_of_keys.
Qed.

Lemma elem_of_page_all_pages (old new : CompanySnapshot) (page : string) :
  page ∈ page_all_pages old new
  ↔ is_Some (raw_pages old !! page) ∨ is_Some (raw_pages new !! page).
Proof.
  unfold page_all_pages.
  by rewrite elem_of_list_to_set, elem_of_app, !elem_of_keys.
Qed.

(** The four cases of the loop body of [_detect_pricing_changes]. *)
Lemma pricing_changes_for_key_cases (old new : CompanySnapshot) (timestamp key : string) :
  pricing_changes_for_key old new timestamp key =
    match pricing old !! key, pricing new !! key with
    | None, Some v => [price_registered (snapshot.company_id new) timestamp key v]
    | Some v, None => [price_removed (snapshot.company_id new) timestamp key v]
    | Some a, Some b =>
        if decide (a = b) then []
        else [price_altered (snapshot.company_id new) timestamp key a b]
    | None, None => []
    end.
Proof.
  unfold pricing_changes_for_key.
  destruct (pricing old !! key) as [a|], (pricing new !! key) as [b|]; simpl; try done.
  destruct (decide (a = b)) as [->|Hab].
  - by rewrite bool_decide_eq_false_2 by (intros H; by apply H).
  - by rewrite bool_decide_eq_true_2 by congruence.
Qed.

Lemma length_bind_filter {A B} (P : A → Prop) `{!∀ x, Decision (P x)}
    (f : A → list B) (l : list A) :
  (∀ x, length (f x) = if decide (P x) then 1 else 0) →
  length (l ≫= f) = length (filter P l).
Proof.
  intros Hf. induction l as [|x l IH]; [done|].
  rewrite bind_cons, length_app, IH, Hf, filter_cons.
  by destruct (decide (P x)).
Qed.

(** C8: the pricing diff visits the union of the keys of the two pricing
    mappings, each key once, and per key emits: one [price_changed] of
    severity medium carrying only the new value when the key is only in
    [new]; one of severity medium carrying only the old value when it is
    only in [old]; one of severity high carrying both values when both
    have it with different values; nothing when the values are equal.  So
    there is one change per key on which the mappings differ, and prices
    10€ then 12€ under "basic" give exactly one change, high, from 10€ to
    12€. *)
Theorem pricing_diff_rule (old new : CompanySnapshot) (timestamp : string) :
  let cid := snapshot.company_id new in
  (∀ key, key ∈ elements (pricing_all_keys old new)
          ↔ is_Some (pricing old !! key) ∨ is_Some (pricing new !! key))
  ∧ NoDup (elements (pricing_all_keys old new))
  ∧ _detect_pricing_changes old new timestamp
      = elements (pricing_all_keys old new) ≫= pricing_changes_for_key old new timestamp
  ∧ (∀ key v, pricing old !! key = None → pricing new !! key = Some v →
       pricing_changes_for_key old new timestamp key
         = [price_registered cid timestamp key v])
  ∧ (∀ key v, pricing old !! key = Some v → pricing new !! key = None →
       pricing_changes_for_key old new timestamp key
         = [price_removed cid timestamp key v])
  ∧ (∀ key a b, pricing old !! key = Some a → pricing new !! key = Some b → a ≠ b →
       pricing_changes_for_key old new timestamp key
         = [price_altered cid timestamp key a b])
  ∧ (∀ key a, pricing old !! key = Some a → pricing new !! key = Some a →
       pricing_changes_for_key old new timestamp key = [])
  ∧ (∀ key v,
       let c := price_registered cid timestamp key v in
       change_type c = "price_changed" ∧ severity c = "medium"
       ∧ old_value c = None ∧ new_value c = Some v)
  ∧ (∀ key v,
       let c := price_removed cid timestamp key v in
       change_type c = "price_changed" ∧ severity c = "medium"
       ∧ old_value c = Some v ∧ new_value c = None)
  ∧ (∀ key a b,
       let c := price_altered cid timestamp key a b in
       change_type c = "price_changed" ∧ severity c = "high"
       ∧ old_value c = Some a ∧ new_value c = Some b)
  ∧ length (_detect_pricing_changes old new timestamp)
      = length (filter (λ key, pricing old !! key ≠ pricing new !! key)
                  (elements (pricing_all_keys old new)))
  ∧ _detect_pricing_changes examples.fixo_monday examples.fixo_tuesday timestamp
      = [price_altered "fixo" timestamp "basic" "10€" "12€"].
Proof.
  intros cid. split_and!.
  - intros key. rewrite elem_of_elements. apply elem_of_pricing_all_keys.
  - apply NoDup_elements.
  - done.
  - intros key v Ho Hn. rewrite pricing_changes_for_key_cases, Ho, Hn. done.
  - intros key v Ho Hn. rewrite pricing_changes_for_key_cases, Ho, Hn. done.
  - intros key a b Ho Hn Hab. rewrite pricing_changes_for_key_cases, Ho, Hn.
    by destruct (decide (a = b)).
  - intros key a Ho Hn. rewrite pricing_changes_for_key_cases, Ho, Hn.
    by destruct (decide (a = a)).
  - done.
  - done.
  - done.
  - unfold _detect_pricing_changes. apply length_bind_filter.
    intros key. rewrite pricing_changes_for_key_cases.
    destruct (pricing old !! key) as [a|], (pricing new !! key) as [b|];
      repeat case_decide; simplify_eq; done.
  - vm_compute. reflexivity.
Qed.

(** Scenario B, read off the rule: one key, present on both sides with
    different prices. *)
Lemma pricing_diff_rule_witness :
  pricing examples.fixo_monday !! "basic" = Some "10€"
  ∧ pricing examples.fixo_tuesday !! "basic" = Some "12€"
  ∧ pricing_changes_for_key examples.fixo_monday examples.fixo_tuesday
      examples.detection_time "basic"
    = [price_altered "fixo" examples.detection_time "basic" "10€" "12€"].
Proof.
  assert (Ho : pricing examples.fixo_monday !! "basic" = Some "10€") by reflexivity.
  assert (Hn : pricing examples.fixo_tuesday !! "basic" = Some "12€") by reflexivity.
  assert (Hne : "10€" ≠ "12€") by discriminate.
  split; [exact Ho|]. split; [exact Hn|].
  exact (proj1 (proj2 (proj2 (proj2 (proj2 (proj2
    (pricing_diff_rule examples.fixo_monday examples.fixo_tuesday
       examples.detection_time))))))
    "basic" "10€" "12€" Ho Hn Hne).
Defined.

(** *** What the detectors return, as membership *)

Lemma elem_of_difference_changes (f : string → Change) (l1 l2 : list string) (c : Change) :
  c ∈ (f <$> elements ((list_to_set l1 : gset string) ∖ list_to_set l2))
  ↔ ∃ x, x ∈ l1 ∧ (x ∉ l2) ∧ c = f x.
Proof.
  rewrite list_elem_of_fmap. split.
  - intros (x & -> & Hx). rewrite elem_of_elements, elem_of_difference in Hx.
    rewrite !elem_of_list_to_set in Hx. destruct Hx as [H1 H2]. eauto.
  - intros (x & H1 & H2 & ->). exists x. split; [done|].
    apply elem_of_elements, elem_of_difference. by rewrite !elem_of_list_to_set.
Qed.

Lemma truthy_iff (s : string) : truthy s = true ↔ s ≠ "".
Proof. unfold truthy. by rewrite bool_decide_eq_true. Qed.

Lemma get_default_nonempty (d : gmap string string) (k : string) :
  get_default d k "" ≠ "" → is_Some (d !! k).
Proof. unfold get_default. destruct (d !! k); [eauto|done]. Qed.

Lemma hash_guard (a b : string) :
  truthy a && truthy b && bool_decide (a ≠ b) = true ↔ a ≠ "" ∧ b ≠ "" ∧ a ≠ b.
Proof. rewrite !andb_true_iff, !truthy_iff, bool_decide_eq_true. tauto. Qed.

Lemma elem_of_pricing_changes old new ts (c : Change) :
  c ∈ _detect_pricing_changes old new ts
  ↔ ∃ key, c ∈ pricing_changes_for_key old new ts key.
Proof.
  unfold _detect_pricing_changes. rewrite list_elem_of_bind. split.
  - intros (key & Hc & _). eauto.
  - intros (key & Hc). exists key. split; [done|].
    apply elem_of_elements, elem_of_pricing_all_keys.
    rewrite pricing_changes_for_key_cases in Hc.
    destruct (pricing old !! key), (pricing new !! key); eauto.
    by apply elem_of_nil in Hc.
Qed.

Lemma page_changes_for_page_cases old new ts page :
  page_changes_for_page old new ts page =
    if decide (page_hash old page ≠ "" ∧ page_hash new page ≠ ""
               ∧ page_hash old page ≠ page_hash new page)
    then [website_content_change (snapshot.company_id new) ts page
            (page_hash old page) (page_hash new page)]
    else [].
Proof.
  unfold page_changes_for_page. fold (page_hash old page) (page_hash new page).
  case_decide as H.
  - apply hash_guard in H. by rewrite H.
  - destruct (_ && _ && _) eqn:E; [|done]. by apply hash_guard in E.
Qed.

Lemma business_changes_cases old new ts :
  _detect_business_changes old new ts =
    if decide (about_hash old ≠ "" ∧ about_hash new ≠ ""
               ∧ about_hash old ≠ about_hash new)
    then [business_model_change (snapshot.company_id new) ts
            (about_preview old) (about_preview new)]
    else [].
Proof.
  unfold _detect_business_changes. fold (about_hash old) (about_hash new).
  case_decide as H.
  - apply hash_guard in H. by rewrite H.
  - destruct (_ && _ && _) eqn:E; [|done]. by apply hash_guard in E.
Qed.

Lemma elem_of_page_changes old new ts (c : Change) :
  c ∈ _detect_page_changes old new ts
  ↔ ∃ page, c ∈ page_changes_for_page old new ts page.
Proof.
  unfold _detect_page_changes. rewrite list_elem_of_bind. split.
  - intros (page & Hc & _). eauto.
  - intros (page & Hc). exists page. split; [done|].
    apply elem_of_elements, elem_of_page_all_pages.
    rewrite page_changes_for_page_cases in Hc. case_decide as H.
    + left. apply get_default_nonempty, H.
    + by apply elem_of_nil in Hc.
Qed.

(** [detect_changes] returns exactly the changes that are due. *)
Lemma detect_changes_emitted old new ts changes :
  detect_changes old new ts = Return changes →
  ∀ c, c ∈ changes ↔ emitted old new ts c.
Proof.
  unfold detect_changes. case_bool_decide as Hid; [done|]. intros [= <-] c.
  unfold _detect_service_changes, _detect_location_changes, _detect_promotion_changes.
  rewrite !elem_of_app, !elem_of_difference_changes,
    elem_of_pricing_changes, elem_of_page_changes, business_changes_cases.
  split.
  - intros [[H|H]|[H|[[H|H]|[[H|H]|[H|H]]]]].
    + destruct H as (x & ? & ? & ->). by constructor.
    + destruct H as (x & ? & ? & ->). by constructor.
    + destruct H as (key & H). rewrite pricing_changes_for_key_cases in H.
      destruct (pricing old !! key) as [a|] eqn:Ho, (pricing new !! key) as [b|] eqn:Hn;
        try case_decide; try (by apply elem_of_nil in H);
        apply list_elem_of_singleton in H as ->; by constructor.
    + destruct H as (x & ? & ? & ->). by constructor.
    + destruct H as (x & ? & ? & ->). by constructor.
    + destruct H as (x & ? & ? & ->). by constructor.
    + destruct H as (x & ? & ? & ->). by constructor.
    + case_decide as Hc; [|by apply elem_of_nil in H].
      apply list_elem_of_singleton in H as ->. by constructor; apply Hc.
    + destruct H as (page & H). rewrite page_changes_for_page_cases in H.
      case_decide as Hc; [|by apply elem_of_nil in H].
      apply list_elem_of_singleton in H as ->. by constructor; apply Hc.
  - intros Hem.
    destruct Hem as [x H1 H2|x H1 H2|key v H1 H2|key v H1 H2|key a b H1 H2 H3
                    |x H1 H2|x H1 H2|x H1 H2|x H1 H2|H1 H2 H3|page H1 H2 H3].
    + left; left; eauto.
    + left; right; eauto.
    + right; left. exists key. rewrite pricing_changes_for_key_cases.
      rewrite H1, H2. apply list_elem_of_singleton; done.
    + right; left. exists key. rewrite pricing_changes_for_key_cases.
      rewrite H1, H2. apply list_elem_of_singleton; done.
    + right; left. exists key. rewrite pricing_changes_for_key_cases.
      rewrite H1, H2. case_decide; [done|]. apply list_elem_of_singleton; done.
    + right; right; left; left; eauto.
    + right; right; left; right; eauto.
    + right; right; right; left; left; eauto.
    + right; right; right; left; right; eauto.
    + right; right; right; right; left. rewrite decide_True by done.
      apply list_elem_of_singleton; done.
    + right; right; right; right; right. exists page.
      rewrite page_changes_for_page_cases, decide_True by done.
      apply list_elem_of_singleton; done.
Qed.

(** *** Cancellation for string concatenation *)

Lemma string_app_cons (a : Ascii.ascii) (s t : string) :
  String a s +:+ t = String a (s +:+ t).
Proof. reflexivity. Qed.

Lemma string_app_nil_l (t : string) : "" +:+ t = t.
Proof. reflexivity. Qed.

Lemma string_length_app (s t : string) :
  String.length (s +:+ t) = String.length s + String.length t.
Proof.
  induction s as [|a s IH]; [done|].
  rewrite string_app_cons. simpl. by rewrite IH.
Qed.

Lemma string_app_inv_r (s1 s2 t : string) : s1 +:+ t = s2 +:+ t → s1 = s2.
Proof.
  revert s2. induction s1 as [|a s1 IH]; intros [|b s2] H.
  - done.
  - apply (f_equal String.length) in H.
    rewrite string_app_nil_l, string_length_app in H. simpl in H. lia.
  - apply (f_equal String.length) in H.
    rewrite string_app_nil_l, string_length_app in H. simpl in H. lia.
  - rewrite !string_app_cons in H. injection H as -> H. f_equal. by apply IH.
Qed.

Lemma string_app_inv_l (s t1 t2 : string) : s +:+ t1 = s +:+ t2 → t1 = t2.
Proof. apply (inj (String.app s)). Qed.

(** *** Inversion of [emitted], one lemma per kind of change *)

Ltac unfold_changes :=
  unfold service_added, service_removed, price_registered, price_removed,
    price_altered, location_added, location_removed, promotion_new,
    promotion_expired, business_model_change, website_content_change in *.

Ltac emitted_inv H :=
  inversion H; clear H; unfold_changes; simplify_eq.

Lemma emitted_service_added_iff old new ts cid ts' x :
  emitted old new ts (service_added cid ts' x)
  ↔ cid = snapshot.company_id new ∧ ts' = ts ∧ x ∈ services new ∧ x ∉ services old.
Proof.
  split.
  - intros H. emitted_inv H. done.
  - intros (-> & -> & ? & ?). by constructor.
Qed.

Lemma emitted_service_removed_iff old new ts cid ts' x :
  emitted old new ts (service_removed cid ts' x)
  ↔ cid = snapshot.company_id new ∧ ts' = ts ∧ x ∈ services old ∧ x ∉ services new.
Proof.
  split.
  - intros H. emitted_inv H. done.
  - intros (-> & -> & ? & ?). by constructor.
Qed.

Lemma emitted_location_added_iff old new ts cid ts' x :
  emitted old new ts (location_added cid ts' x)
  ↔ cid = snapshot.company_id new ∧ ts' = ts ∧ x ∈ locations new ∧ x ∉ locations old.
Proof.
  split.
  - intros H. emitted_inv H. done.
  - intros (-> & -> & ? & ?). by constructor.
Qed.

Lemma emitted_location_removed_iff old new ts cid ts' x :
  emitted old new ts (location_removed cid ts' x)
  ↔ cid = snapshot.company_id new ∧ ts' = ts ∧ x ∈ locations old ∧ x ∉ locations new.
Proof.
  split.
  - intros H. emitted_inv H. done.
  - intros (-> & -> & ? & ?). by constructor.
Qed.

Lemma emitted_promotion_new_iff old new ts cid ts' x :
  emitted old new ts (promotion_new cid ts' x)
  ↔ cid = snapshot.company_id new ∧ ts' = ts ∧ x ∈ promotions new ∧ x ∉ promotions old.
Proof.
  split.
  - intros H. emitted_inv H. done.
  - intros (-> & -> & ? & ?). by constructor.
Qed.

Lemma emitted_promotion_expired_iff old new ts cid ts' x :
  emitted old new ts (promotion_expired cid ts' x)
  ↔ cid = snapshot.company_id new ∧ ts' = ts ∧ x ∈ promotions old ∧ x ∉ promotions new.
Proof.
  split.
  - intros H. emitted_inv H. done.
  - intros (-> & -> & ? & ?). by constructor.
Qed.

Lemma emitted_price_registered_iff old new ts cid ts' key v :
  emitted old new ts (price_registered cid ts' key v)
  ↔ cid = snapshot.company_id new ∧ ts' = ts
    ∧ pricing old !! key = None ∧ pricing new !! key = Some v.
Proof.
  split.
  - intros H. emitted_inv H. done.
  - intros (-> & -> & ? & ?). by constructor.
Qed.

Lemma emitted_price_removed_iff old new ts cid ts' key v :
  emitted old new ts (price_removed cid ts' key v)
  ↔ cid = snapshot.company_id new ∧ ts' = ts
    ∧ pricing old !! key = Some v ∧ pricing new !! key = None.
Proof.
  split.
  - intros H. emitted_inv H. done.
  - intros (-> & -> & ? & ?). by constructor.
Qed.

Lemma emitted_price_altered_iff old new ts cid ts' key a b :
  emitted old new ts (price_altered cid ts' key a b)
  ↔ cid = snapshot.company_id new ∧ ts' = ts
    ∧ pricing old !! key = Some a ∧ pricing new !! key = Some b ∧ a ≠ b.
Proof.
  split.
  - intros H. emitted_inv H.
    match goal with E : _ +:+ _ = _ +:+ _ |- _ => apply string_app_inv_r in E end.
    by simplify_eq.
  - intros (-> & -> & ? & ? & ?). by constructor.
Qed.

Lemma emitted_business_model_change_iff old new ts cid ts' a b :
  emitted old new ts (business_model_change cid ts' a b)
  ↔ cid = snapshot.company_id new ∧ ts' = ts
    ∧ a = about_preview old ∧ b = about_preview new
    ∧ about_hash old ≠ "" ∧ about_hash new ≠ "" ∧ about_hash old ≠ about_hash new.
Proof.
  split.
  - intros H. emitted_inv H. done.
  - intros (-> & -> & -> & -> & ? & ? & ?). by constructor.
Qed.

(** A page change shows only the first sixteen characters of each hash. *)
Lemma emitted_website_content_change_iff old new ts cid ts' page a b :
  emitted old new ts (website_content_change cid ts' page a b)
  ↔ cid = snapshot.company_id new ∧ ts' = ts
    ∧ String.substring 0 16 a = String.substring 0 16 (page_hash old page)
    ∧ String.substring 0 16 b = String.substring 0 16 (page_hash new page)
    ∧ page_hash old page ≠ "" ∧ page_hash new page ≠ ""
    ∧ page_hash old page ≠ page_hash new page.
Proof.
  split.
  - intros H. emitted_inv H.
    repeat match goal with
           | E : _ +:+ _ = _ +:+ _ |- _ => apply string_app_inv_r in E
           end.
    by simplify_eq.
  - intros (-> & -> & Ha & Hb & ? & ? & ?).
    assert (website_content_change (snapshot.company_id new) ts page a b
            = website_content_change (snapshot.company_id new) ts page
                (page_hash old page) (page_hash new page)) as ->
      by (unfold website_content_change; by rewrite Ha, Hb).
    by constructor.
Qed.

(** Every change that is due has one of the eleven shapes. *)
Lemma emitted_change_type old new ts c :
  emitted old new ts c →
  change.company_id c = snapshot.company_id new ∧ change.timestamp c = ts.
Proof. by intros []. Qed.

(** *** The change types each detector produces *)

Lemma filter_none {A} (P : A → Prop) `{!∀ x, Decision (P x)} (l : list A) :
  (∀ x, x ∈ l → ¬ P x) → filter P l = [].
Proof.
  induction l as [|x l IH]; intros Hl; [done|].
  rewrite filter_cons, decide_False by (apply Hl; left).
  apply IH. intros y Hy. apply Hl. by right.
Qed.

Lemma filter_all {A} (P : A → Prop) `{!∀ x, Decision (P x)} (l : list A) :
  (∀ x, x ∈ l → P x) → filter P l = l.
Proof.
  induction l as [|x l IH]; intros Hl; [done|].
  rewrite filter_cons, decide_True by (apply Hl; left).
  f_equal. apply IH. intros y Hy. apply Hl. by right.
Qed.

Lemma service_changes_type old new ts c :
  c ∈ _detect_service_changes old new ts →
  change_type c = "service_added" ∨ change_type c = "service_removed".
Proof.
  unfold _detect_service_changes.
  rewrite elem_of_app, !elem_of_difference_changes.
  intros [(x & _ & _ & ->)|(x & _ & _ & ->)]; auto.
Qed.

Lemma location_changes_type old new ts c :
  c ∈ _detect_location_changes old new ts →
  change_type c = "location_added" ∨ change_type c = "location_removed".
Proof.
  unfold _detect_location_changes.
  rewrite elem_of_app, !elem_of_difference_changes.
  intros [(x & _ & _ & ->)|(x & _ & _ & ->)]; auto.
Qed.

Lemma promotion_changes_type old new ts c :
  c ∈ _detect_promotion_changes old new ts →
  change_type c = "promotion_new" ∨ change_type c = "promotion_expired".
Proof.
  unfold _detect_promotion_changes.
  rewrite elem_of_app, !elem_of_difference_changes.
  intros [(x & _ & _ & ->)|(x & _ & _ & ->)]; auto.
Qed.

Lemma pricing_changes_type old new ts c :
  c ∈ _detect_pricing_changes old new ts → change_type c = "price_changed".
Proof.
  rewrite elem_of_pricing_changes. intros (key & H).
  rewrite pricing_changes_for_key_cases in H.
  destruct (pricing old !! key), (pricing new !! key); try case_decide as Hc;
    try (by apply elem_of_nil in H); by apply list_elem_of_singleton in H as ->.
Qed.

Lemma business_changes_type old new ts c :
  c ∈ _detect_business_changes old new ts → change_type c = "business_model_change".
Proof.
  rewrite business_changes_cases. intros H. case_decide as Hc;
    [by apply list_elem_of_singleton in H as -> | by apply elem_of_nil in H].
Qed.

Lemma page_changes_type old new ts c :
  c ∈ _detect_page_changes old new ts → change_type c = "website_content_change".
Proof.
  rewrite elem_of_page_changes. intros (page & H).
  rewrite page_changes_for_page_cases in H. case_decide as Hc;
    [by apply list_elem_of_singleton in H as -> | by apply elem_of_nil in H].
Qed.

Ltac other_type lem :=
  intros ? Hin Hty; apply lem in Hin; destruct_or?; congruence.

(** C9: absence is never reported for the hash-based categories.  Among
    the changes [detect_changes] returns, those of type
    [business_model_change] are one record when both [about_text_hash]
    values are non-empty and differ and none otherwise (so none when
    either hash is empty or missing); those of type
    [website_content_change] are, page by page, one record when the page
    has a non-empty hash on both sides and the two differ, and none
    otherwise. *)
Theorem hash_changes_only_on_transition old new timestamp changes :
  detect_changes old new timestamp = Return changes →
  let cid := snapshot.company_id new in
  filter (λ c, change_type c = "business_model_change") changes
    = (if decide (about_hash old ≠ "" ∧ about_hash new ≠ ""
                  ∧ about_hash old ≠ about_hash new)
       then [business_model_change cid timestamp (about_preview old) (about_preview new)]
       else [])
  ∧ filter (λ c, change_type c = "website_content_change") changes
    = elements (page_all_pages old new) ≫= page_changes_for_page old new timestamp
  ∧ (∀ page,
       page_changes_for_page old new timestamp page
       = if decide (page_hash old page ≠ "" ∧ page_hash new page ≠ ""
                    ∧ page_hash old page ≠ page_hash new page)
         then [website_content_change cid timestamp page
                 (page_hash old page) (page_hash new page)]
         else [])
  ∧ (∀ page,
       website_content_change cid timestamp page
         (page_hash old page) (page_hash new page) ∈ changes
       ↔ page_hash old page ≠ "" ∧ page_hash new page ≠ ""
         ∧ page_hash old page ≠ page_hash new page).
Proof.
  intros Hdc cid. split_and!.
  - revert Hdc. unfold detect_changes. case_bool_decide as Hid; [done|].
    intros [= <-]. rewrite !filter_app.
    rewrite (filter_none _ (_detect_service_changes _ _ _))
      by other_type service_changes_type.
    rewrite (filter_none _ (_detect_pricing_changes _ _ _))
      by other_type pricing_changes_type.
    rewrite (filter_none _ (_detect_location_changes _ _ _))
      by other_type location_changes_type.
    rewrite (filter_none _ (_detect_promotion_changes _ _ _))
      by other_type promotion_changes_type.
    rewrite (filter_none _ (_detect_page_changes _ _ _))
      by other_type page_changes_type.
    rewrite (filter_all _ (_detect_business_changes _ _ _))
      by (intros ? Hin; by apply business_changes_type in Hin).
    simpl. rewrite app_nil_r. apply business_changes_cases.
  - revert Hdc. unfold detect_changes. case_bool_decide as Hid; [done|].
    intros [= <-]. rewrite !filter_app.
    rewrite (filter_none _ (_detect_service_changes _ _ _))
      by other_type service_changes_type.
    rewrite (filter_none _ (_detect_pricing_changes _ _ _))
      by other_type pricing_changes_type.
    rewrite (filter_none _ (_detect_location_changes _ _ _))
      by other_type location_changes_type.
    rewrite (filter_none _ (_detect_promotion_changes _ _ _))
      by other_type promotion_changes_type.
    rewrite (filter_none _ (_detect_business_changes _ _ _))
      by other_type business_changes_type.
    rewrite (filter_all _ (_detect_page_changes _ _ _))
      by (intros ? Hin; by apply page_changes_type in Hin).
    done.
  - intros page. apply page_changes_for_page_cases.
  - intros page. rewrite (detect_changes_emitted _ _ _ _ Hdc).
    rewrite emitted_website_content_change_iff.
    split; [intros (_ & _ & _ & _ & Hp); exact Hp | intros (? & ? & ?); by split_and!].
Qed.

Lemma hash_changes_only_on_transition_witness :
  detect_changes examples.fixo_monday examples.fixo_tuesday examples.detection_time
    = Return examples.monday_to_tuesday
  ∧ ∀ page,
      website_content_change "fixo" examples.detection_time page
        (page_hash examples.fixo_monday page) (page_hash examples.fixo_tuesday page)
        ∈ examples.monday_to_tuesday
      ↔ page_hash examples.fixo_monday page ≠ ""
        ∧ page_hash examples.fixo_tuesday page ≠ ""
        ∧ page_hash examples.fixo_monday page ≠ page_hash examples.fixo_tuesday page.
Proof.
  assert (H : detect_changes examples.fixo_monday examples.fixo_tuesday
                examples.detection_time = Return examples.monday_to_tuesday)
    by (vm_compute; reflexivity).
  split; [exact H|].
  exact (proj2 (proj2 (proj2 (hash_changes_only_on_transition _ _ _ _ H)))).
Defined.

(** *** Exchanging the two snapshots *)

Lemma detect_changes_same_company old new ts changes :
  detect_changes old new ts = Return changes →
  snapshot.company_id old = snapshot.company_id new.
Proof. unfold detect_changes. by case_bool_decide as Hid. Qed.

Lemma length_difference_changes (f g f' g' : string → Change) (l1 l2 : list string) :
  length ((f <$> elements ((list_to_set l1 : gset string) ∖ list_to_set l2))
          ++ (g <$> elements ((list_to_set l2 : gset string) ∖ list_to_set l1)))
  = length ((f' <$> elements ((list_to_set l2 : gset string) ∖ list_to_set l1))
            ++ (g' <$> elements ((list_to_set l1 : gset string) ∖ list_to_set l2))).
Proof. rewrite !length_app, !length_fmap. lia. Qed.

Lemma pricing_all_keys_comm old new : pricing_all_keys old new = pricing_all_keys new old.
Proof. apply set_eq. intros key. rewrite !elem_of_pricing_all_keys. tauto. Qed.

Lemma page_all_pages_comm old new : page_all_pages old new = page_all_pages new old.
Proof. apply set_eq. intros page. rewrite !elem_of_page_all_pages. tauto. Qed.

Lemma length_pricing_changes old new ts :
  length (_detect_pricing_changes old new ts)
  = length (filter (λ key, pricing old !! key ≠ pricing new !! key)
              (elements (pricing_all_keys old new))).
Proof.
  unfold _detect_pricing_changes. apply length_bind_filter.
  intros key. rewrite pricing_changes_for_key_cases.
  destruct (pricing old !! key) as [a|], (pricing new !! key) as [b|];
    repeat case_decide; simplify_eq; done.
Qed.

Lemma length_page_changes old new ts :
  length (_detect_page_changes old new ts)
  = length (filter (λ page, page_hash old page ≠ "" ∧ page_hash new page ≠ ""
                            ∧ page_hash old page ≠ page_hash new page)
              (elements (page_all_pages old new))).
Proof.
  unfold _detect_page_changes. apply length_bind_filter.
  intros page. rewrite page_changes_for_page_cases. by case_decide.
Qed.

Lemma length_detect_changes_swap old new ts ts' forward backward :
  detect_changes old new ts = Return forward →
  detect_changes new old ts' = Return backward →
  length forward = length backward.
Proof.
  unfold detect_changes. case_bool_decide as Hid; [done|].
  rewrite bool_decide_eq_false_2 by (intros Hne; by apply Hne).
  intros [= <-] [= <-]. rewrite !length_app.
  unfold _detect_service_changes, _detect_location_changes, _detect_promotion_changes.
  rewrite !length_app, !length_fmap.
  rewrite !length_pricing_changes, !length_page_changes.
  rewrite (pricing_all_keys_comm new old), (page_all_pages_comm new old).
  rewrite (list_filter_iff (λ key, pricing new !! key ≠ pricing old !! key)
             (λ key, pricing old !! key ≠ pricing new !! key))
    by (intros key; split; intros H E; by apply H).
  rewrite (list_filter_iff
             (λ page, page_hash new page ≠ "" ∧ page_hash old page ≠ ""
                      ∧ page_hash new page ≠ page_hash old page)
             (λ page, page_hash old page ≠ "" ∧ page_hash new page ≠ ""
                      ∧ page_hash old page ≠ page_hash new page))
    by (intros page; split; intros (? & ? & H); split_and!; try done;
        intros E; by apply H).
  assert (length (_detect_business_changes old new ts)
          = length (_detect_business_changes new old ts')) as ->.
  { rewrite !business_changes_cases.
    repeat case_decide; try done; exfalso;
      match goal with
      | H : ¬ _, G : _ ∧ _ ∧ _ |- _ =>
          apply H; destruct G as (? & ? & Hd); split_and!; try done;
          intros E; by apply Hd
      end. }
  lia.
Qed.

(** C7: exchanging [old] and [new] exchanges directions and keeps the
    affected items.  For two snapshots of one company, with [forward] the
    changes from [old] to [new] and [backward] those from [new] to [old]:
    both lists have the same length; an item is reported added (service,
    location, promotion, price key) in one direction exactly when it is
    reported removed in the other; a changed price and a changed business
    narrative are reported in both directions with old and new value
    exchanged, and so is a changed page; and every change returned has one
    of these shapes. *)
Theorem diff_direction_swap old new ts ts' forward backward :
  detect_changes old new ts = Return forward →
  detect_changes new old ts' = Return backward →
  let cid := snapshot.company_id new in
  length forward = length backward
  ∧ (∀ x, service_added cid ts x ∈ forward ↔ service_removed cid ts' x ∈ backward)
  ∧ (∀ x, service_removed cid ts x ∈ forward ↔ service_added cid ts' x ∈ backward)
  ∧ (∀ x, location_added cid ts x ∈ forward ↔ location_removed cid ts' x ∈ backward)
  ∧ (∀ x, location_removed cid ts x ∈ forward ↔ location_added cid ts' x ∈ backward)
  ∧ (∀ x, promotion_new cid ts x ∈ forward ↔ promotion_expired cid ts' x ∈ backward)
  ∧ (∀ x, promotion_expired cid ts x ∈ forward ↔ promotion_new cid ts' x ∈ backward)
  ∧ (∀ key v, price_registered cid ts key v ∈ forward
              ↔ price_removed cid ts' key v ∈ backward)
  ∧ (∀ key v, price_removed cid ts key v ∈ forward
              ↔ price_registered cid ts' key v ∈ backward)
  ∧ (∀ key a b, price_altered cid ts key a b ∈ forward
                ↔ price_altered cid ts' key b a ∈ backward)
  ∧ (∀ a b, business_model_change cid ts a b ∈ forward
            ↔ business_model_change cid ts' b a ∈ backward)
  ∧ (∀ page a b, website_content_change cid ts page a b ∈ forward
                 ↔ website_content_change cid ts' page b a ∈ backward)
  ∧ (∀ c, c ∈ forward ↔ emitted old new ts c)
  ∧ (∀ c, c ∈ backward ↔ emitted new old ts' c).
Proof.
  intros Hf Hb cid.
  pose proof (detect_changes_same_company _ _ _ _ Hf) as Hid.
  pose proof (detect_changes_emitted _ _ _ _ Hf) as Ef.
  pose proof (detect_changes_emitted _ _ _ _ Hb) as Eb.
  subst cid. split_and!; try done.
  - by eapply length_detect_changes_swap.
  - intros x. rewrite Ef, Eb, emitted_service_added_iff, emitted_service_removed_iff.
    rewrite Hid. tauto.
  - intros x. rewrite Ef, Eb, emitted_service_added_iff, emitted_service_removed_iff.
    rewrite Hid. tauto.
  - intros x. rewrite Ef, Eb, emitted_location_added_iff, emitted_location_removed_iff.
    rewrite Hid. tauto.
  - intros x. rewrite Ef, Eb, emitted_location_added_iff, emitted_location_removed_iff.
    rewrite Hid. tauto.
  - intros x. rewrite Ef, Eb, emitted_promotion_new_iff, emitted_promotion_expired_iff.
    rewrite Hid. tauto.
  - intros x. rewrite Ef, Eb, emitted_promotion_new_iff, emitted_promotion_expired_iff.
    rewrite Hid. tauto.
  - intros key v.
    rewrite Ef, Eb, emitted_price_registered_iff, emitted_price_removed_iff.
    rewrite Hid. tauto.
  - intros key v.
    rewrite Ef, Eb, emitted_price_registered_iff, emitted_price_removed_iff.
    rewrite Hid. tauto.
  - intros key a b. rewrite Ef, Eb, !emitted_price_altered_iff. rewrite Hid.
    split; intros (? & ? & ? & ? & Hne); split_and!; try done; intros E; by apply Hne.
  - intros a b. rewrite Ef, Eb, !emitted_business_model_change_iff. rewrite Hid.
    split; intros (? & ? & ? & ? & ? & ? & Hne); split_and!; try done;
      intros E; by apply Hne.
  - intros page a b. rewrite Ef, Eb, !emitted_website_content_change_iff. rewrite Hid.
    split; intros (? & ? & ? & ? & ? & ? & Hne); split_and!; try done;
      intros E; by apply Hne.
Qed.

Lemma diff_direction_swap_witness :
  detect_changes examples.fixo_monday examples.fixo_tuesday examples.detection_time
    = Return examples.monday_to_tuesday
  ∧ detect_changes examples.fixo_tuesday examples.fixo_monday
      examples.later_detection_time
    = Return examples.tuesday_to_monday
  ∧ length examples.monday_to_tuesday = length examples.tuesday_to_monday
  ∧ (∀ x, service_added "fixo" examples.detection_time x ∈ examples.monday_to_tuesday
          ↔ service_removed "fixo" examples.later_detection_time x
              ∈ examples.tuesday_to_monday).
Proof.
  assert (Hf : detect_changes examples.fixo_monday examples.fixo_tuesday
                 examples.detection_time = Return examples.monday_to_tuesday)
    by (vm_compute; reflexivity).
  assert (Hb : detect_changes examples.fixo_tuesday examples.fixo_monday
                 examples.later_detection_time = Return examples.tuesday_to_monday)
    by (vm_compute; reflexivity).
  split; [exact Hf|]. split; [exact Hb|].
  pose proof (diff_direction_swap _ _ _ _ _ _ Hf Hb) as H.
  split; [exact (proj1 H) | exact (proj1 (proj2 H))].
Defined.

(** ** File names and the order of clock readings *)

Lemma string_app_assoc (s t u : string) : (s +:+ t) +:+ u = s +:+ (t +:+ u).
Proof.
  induction s as [|a s IH]; [done|]. by rewrite !string_app_cons, IH.
Qed.

Lemma string_app_nil_r (s : string) : s +:+ "" = s.
Proof. induction s as [|a s IH]; [done|]. by rewrite string_app_cons, IH. Qed.

Lemma ascii_compare_refl (a : Ascii.ascii) : Ascii.compare a a = Eq.
Proof. unfold Ascii.compare. apply N.compare_refl. Qed.

Lemma string_compare_refl (s : string) : String.compare s s = Eq.
Proof. induction s as [|a s IH]; [done|]. simpl. by rewrite ascii_compare_refl. Qed.

Lemma string_compare_app_l (p a b : string) :
  String.compare (p +:+ a) (p +:+ b) = String.compare a b.
Proof.
  induction p as [|c p IH]; [done|].
  rewrite !string_app_cons. simpl. by rewrite ascii_compare_refl.
Qed.

Lemma string_compare_cons (c d : Ascii.ascii) (s t : string) :
  String.compare (String c s) (String d t)
  = match Ascii.compare c d with Eq => String.compare s t | r => r end.
Proof. reflexivity. Qed.

Lemma digit_compare (d1 d2 : nat) :
  d1 < 10 → d2 < 10 → Ascii.compare (digit d1) (digit d2) = (d1 ?= d2).
Proof.
  intros H1 H2.
  do 10 (destruct d1 as [|d1];
         [do 10 (destruct d2 as [|d2]; [vm_compute; reflexivity|]); lia|]).
  lia.
Qed.

Lemma digit_mod (n : nat) : digit n = digit (n `mod` 10).
Proof. unfold digit. by rewrite Nat.Div0.mod_mod. Qed.

Lemma compare_by_digits (a b : nat) (c : comparison) :
  match a `div` 10 ?= b `div` 10 with
  | Eq => match a `mod` 10 ?= b `mod` 10 with Eq => c | r => r end
  | r => r
  end
  = match a ?= b with Eq => c | r => r end.
Proof.
  pose proof (Nat.div_mod_eq a 10) as Ea. pose proof (Nat.div_mod_eq b 10) as Eb.
  assert (a `mod` 10 < 10) as Ra by (apply Nat.mod_upper_bound; lia).
  assert (b `mod` 10 < 10) as Rb by (apply Nat.mod_upper_bound; lia).
  generalize dependent (a `div` 10). generalize dependent (b `div` 10).
  generalize dependent (a `mod` 10). generalize dependent (b `mod` 10).
  intros rb Rb ra Ra qb Eb qa Ea.
  destruct (Nat.compare_spec qa qb) as [Hq|Hq|Hq];
    destruct (Nat.compare_spec ra rb) as [Hr|Hr|Hr];
    destruct (Nat.compare_spec a b) as [Hab|Hab|Hab]; try done; exfalso; lia.
Qed.

Lemma pad_compare (w a b : nat) (s t : string) :
  a < 10 ^ w → b < 10 ^ w →
  String.compare (pad w a +:+ s) (pad w b +:+ t)
  = match a ?= b with Eq => String.compare s t | r => r end.
Proof.
  revert a b s t. induction w as [|w IH]; intros a b s t Ha Hb.
  - simpl in Ha, Hb. assert (a = 0) as -> by lia. assert (b = 0) as -> by lia. done.
  - change (pad (S w) a) with (pad w (a `div` 10) +:+ String (digit a) "").
    change (pad (S w) b) with (pad w (b `div` 10) +:+ String (digit b) "").
    rewrite !string_app_assoc, !string_app_cons, !string_app_nil_l.
    rewrite Nat.pow_succ_r' in Ha, Hb.
    rewrite IH by (apply Nat.Div0.div_lt_upper_bound; lia).
    rewrite string_compare_cons.
    rewrite (digit_mod a), (digit_mod b), digit_compare
      by (apply Nat.mod_upper_bound; lia).
    apply compare_by_digits.
Qed.

Lemma strftime_compare (a b : datetime) (s t : string) :
  valid a → valid b →
  String.compare (strftime_Ymd_HMS a +:+ s) (strftime_Ymd_HMS b +:+ t)
  = match compare_seconds a b with Eq => String.compare s t | r => r end.
Proof.
  intros (Hy & Hmo & Hd & Hh & Hmi & Hs) (Hy' & Hmo' & Hd' & Hh' & Hmi' & Hs').
  assert (E4 : 10 ^ 4 = 10 * 1000) by reflexivity.
  assert (E2 : 10 ^ 2 = 100) by reflexivity.
  unfold strftime_Ymd_HMS, compare_seconds. rewrite !string_app_assoc.
  rewrite (pad_compare 4) by (rewrite E4; lia).
  rewrite (pad_compare 2) by (rewrite E2; lia).
  rewrite (pad_compare 2) by (rewrite E2; lia).
  rewrite !string_app_cons, !string_app_nil_l.
  rewrite string_compare_cons, ascii_compare_refl.
  rewrite (pad_compare 2) by (rewrite E2; lia).
  rewrite (pad_compare 2) by (rewrite E2; lia).
  rewrite (pad_compare 2) by (rewrite E2; lia).
  destruct (year a ?= year b); [|reflexivity..].
  destruct (month a ?= month b); [|reflexivity..].
  destruct (day a ?= day b); [|reflexivity..].
  destruct (hour a ?= hour b); [|reflexivity..].
  destruct (minute a ?= minute b); [|reflexivity..].
  reflexivity.
Qed.

(** File names of one company are ordered as their save times are, to
    the second. *)
Lemma snapshot_filename_compare (cid : string) (a b : datetime) :
  valid a → valid b →
  String.compare (snapshot_filename cid a) (snapshot_filename cid b)
  = compare_seconds a b.
Proof.
  intros Ha Hb. unfold snapshot_filename.
  rewrite string_compare_app_l, !string_app_cons, !string_app_nil_l.
  rewrite string_compare_cons, ascii_compare_refl, strftime_compare by done.
  rewrite string_compare_refl. by destruct (compare_seconds a b).
Qed.

Lemma snapshot_filename_same_second (cid : string) (a b : datetime) :
  valid a → valid b → compare_seconds a b = Eq →
  snapshot_filename cid a = snapshot_filename cid b.
Proof.
  intros Ha Hb E. apply String.compare_eq_iff.
  by rewrite snapshot_filename_compare.
Qed.

(** ** Storage: the listing of one company's snapshot files *)

Lemma string_lt_le (a b : string) : String.compare a b = Lt → String.le a b.
Proof. unfold String.le, String.leb. by intros ->. Qed.

Lemma string_lt_ne (a b : string) : String.compare a b = Lt → a ≠ b.
Proof. intros H ->. by rewrite string_compare_refl in H. Qed.

Lemma string_le_ne_lt (a b : string) : String.le a b → a ≠ b → String.compare a b = Lt.
Proof.
  unfold String.le, String.leb. intros Hle Hne.
  destruct (String.compare a b) eqn:E; [|done|done].
  by apply String.compare_eq_iff in E.
Qed.

Local Instance string_ge_transitive : Transitive (flip String.le).
Proof. intros a b c Hab Hbc. unfold flip in *. by etrans. Qed.

Local Instance string_ge_total : Total (flip String.le).
Proof. intros a b. unfold flip. destruct (total String.le a b); auto. Qed.

Local Instance string_ge_antisymm : AntiSymm (=) (flip String.le).
Proof. intros a b Hab Hba. unfold flip in *. by apply (anti_symm String.le). Qed.

Lemma elem_of_snapshot_files (cid : string) (dir : gmap string CompanySnapshot) (f : string) :
  f ∈ snapshot_files cid dir ↔ is_Some (dir !! f) ∧ glob_match cid f = true.
Proof.
  unfold snapshot_files, sorted_reverse.
  rewrite merge_sort_Permutation, list_elem_of_filter, elem_of_keys. tauto.
Qed.

Lemma snapshot_files_sorted (cid : string) (dir : gmap string CompanySnapshot) :
  StronglySorted (flip String.le) (snapshot_files cid dir).
Proof. apply (StronglySorted_merge_sort _). Qed.

Lemma snapshot_files_NoDup (cid : string) (dir : gmap string CompanySnapshot) :
  NoDup (snapshot_files cid dir).
Proof.
  unfold snapshot_files, sorted_reverse. rewrite merge_sort_Permutation.
  apply NoDup_filter, NoDup_fst_map_to_list.
Qed.

(** The listing is determined by the set of matching file names. *)
Lemma snapshot_files_unique (cid : string) (dir : gmap string CompanySnapshot)
    (l : list string) :
  StronglySorted (flip String.le) l → NoDup l →
  (∀ f, f ∈ l ↔ is_Some (dir !! f) ∧ glob_match cid f = true) →
  snapshot_files cid dir = l.
Proof.
  intros Hs Hn Hl. apply (StronglySorted_unique (flip String.le)).
  - apply snapshot_files_sorted.
  - done.
  - apply NoDup_Permutation; [apply snapshot_files_NoDup|done|].
    intros f. by rewrite elem_of_snapshot_files, Hl.
Qed.

(** Newest first, strictly: no two listed files share a name. *)
Lemma snapshot_files_strict (cid : string) (dir : gmap string CompanySnapshot) :
  StronglySorted (λ a b, String.compare b a = Lt) (snapshot_files cid dir).
Proof.
  pose proof (snapshot_files_sorted cid dir) as Hs.
  pose proof (snapshot_files_NoDup cid dir) as Hn.
  induction Hs as [|a l Hs IH Ha]; [constructor|].
  apply NoDup_cons in Hn as [Hna Hn]. constructor; [by apply IH|].
  rewrite Forall_forall in Ha |- *. intros b Hb.
  apply string_le_ne_lt; [by apply Ha|]. intros ->. done.
Qed.

(** ** Storage: what each operation does to the directories *)

Lemma directory_company_dir (c cid : string) (fs : files) :
  directory c (_company_dir cid fs) = directory c fs.
Proof.
  unfold _company_dir, directory.
  destruct (fs !! cid) eqn:E; [done|].
  destruct (decide (c = cid)) as [->|Hne].
  - by rewrite lookup_insert_eq, E.
  - by rewrite lookup_insert_ne.
Qed.

Lemma directory_save (c cid name : string) (s : CompanySnapshot) (fs : files) :
  directory c (save cid name s fs)
  = if decide (c = cid) then <[name := s]> (directory cid fs) else directory c fs.
Proof.
  unfold save. unfold directory at 1. case_decide as E.
  - subst. by rewrite lookup_insert_eq.
  - by rewrite lookup_insert_ne.
Qed.

Lemma directory_unlink (c cid name : string) (fs : files) :
  directory c (unlink cid name fs)
  = if decide (c = cid) then delete name (directory cid fs) else directory c fs.
Proof.
  unfold unlink. unfold directory at 1. case_decide as E.
  - subst. by rewrite lookup_insert_eq.
  - by rewrite lookup_insert_ne.
Qed.

Lemma directory_unlink_all (c cid : string) (names : list string) (fs : files) :
  directory c (foldl (λ fs f, unlink cid f fs) fs names)
  = if decide (c = cid)
    then foldl (λ d f, delete f d) (directory cid fs) names
    else directory c fs.
Proof.
  revert fs. induction names as [|f names IH]; intros fs; cbn [foldl].
  - by case_decide; subst.
  - rewrite IH, !directory_unlink. case_decide; [|done].
    by rewrite decide_True.
Qed.

Lemma lookup_delete_all {V} (d : gmap string V) (names : list string) (f : string) :
  foldl (λ d f, delete f d) d names !! f
  = if decide (f ∈ names) then None else d !! f.
Proof.
  revert d. induction names as [|g names IH]; intros d; cbn [foldl].
  - case_decide as H; [by apply elem_of_nil in H|done].
  - rewrite IH. destruct (decide (f = g)) as [->|Hne].
    + rewrite lookup_delete_eq.
      case_decide as H1; case_decide as H2; try done; exfalso; apply H2; left.
    + rewrite lookup_delete_ne by done.
      case_decide as H1; case_decide as H2; try done.
      * exfalso. apply H2. by right.
      * exfalso. apply elem_of_cons in H2 as [?|?]; done.
Qed.

Lemma slice_from_nat {A} (n : nat) (l : list A) : slice_from (Z.of_nat n) l = drop n l.
Proof. unfold slice_from. rewrite decide_True by lia. by rewrite Nat2Z.id. Qed.

(** Pruning with a limit [n ≥ 0]: the files after the first [n] of the
    listing are deleted, nothing else changes. *)
Lemma directory_cleanup (n : nat) (c cid : string) (fs : files) (f : string) :
  directory c (_cleanup_old_snapshots (Z.of_nat n) cid fs) !! f
  = if decide (c = cid ∧ f ∈ drop n (snapshot_files cid (directory cid fs)))
    then None
    else directory c fs !! f.
Proof.
  unfold _cleanup_old_snapshots. rewrite directory_company_dir.
  set (listing := snapshot_files cid (directory cid fs)).
  case_decide as Hlen.
  - rewrite directory_unlink_all, slice_from_nat, directory_company_dir.
    destruct (decide (c = cid)) as [->|Hne].
    + rewrite lookup_delete_all. repeat case_decide; try done; tauto.
    + rewrite directory_company_dir. rewrite decide_False by tauto. done.
  - rewrite directory_company_dir.
    rewrite drop_ge by lia. rewrite decide_False; [done|].
    intros [_ H]. by apply elem_of_nil in H.
Qed.

Lemma elem_of_take_drop_NoDup {A} (l : list A) (n : nat) (x : A) :
  NoDup l → x ∈ take n l ↔ x ∈ l ∧ x ∉ drop n l.
Proof.
  intros Hn. rewrite <- (take_drop n l) in Hn.
  apply NoDup_app in Hn as (_ & Hdisj & _). split.
  - intros Hx. split; [|by apply Hdisj].
    rewrite <- (take_drop n l). apply elem_of_app. by left.
  - intros [Hx Hnd]. rewrite <- (take_drop n l) in Hx.
    apply elem_of_app in Hx as [?|?]; done.
Qed.

Lemma StronglySorted_take {A} (R : relation A) (l : list A) (n : nat) :
  StronglySorted R l → StronglySorted R (take n l).
Proof.
  intros Hs. revert n. induction Hs as [|x l Hs IH Hx]; intros [|n]; simpl;
    try constructor; [by apply IH|].
  rewrite Forall_forall in Hx |- *. intros y Hy. apply Hx.
  by eapply elem_of_take in Hy as (i & Hi%list_elem_of_lookup_2 & _).
Qed.

Lemma snapshot_files_cleanup (n : nat) (cid : string) (fs : files) :
  snapshot_files cid (directory cid (_cleanup_old_snapshots (Z.of_nat n) cid fs))
  = take n (snapshot_files cid (directory cid fs)).
Proof.
  apply snapshot_files_unique.
  - apply StronglySorted_take, snapshot_files_sorted.
  - pose proof (snapshot_files_NoDup cid (directory cid fs)) as Hn.
    rewrite <- (take_drop n) in Hn. by apply NoDup_app in Hn as (? & _ & _).
  - intros f.
    rewrite elem_of_take_drop_NoDup by apply snapshot_files_NoDup.
    rewrite directory_cleanup, elem_of_snapshot_files.
    case_decide as H.
    + split; [tauto|]. by intros [[? ?] _].
    + split; [tauto|]. intros [Hs Hg]. split; [done|]. intros Hd. apply H. done.
Qed.

Lemma directory_save_snapshot_other (max : Z) (s : CompanySnapshot) (now : datetime)
    (fs : files) (c : string) :
  c ≠ snapshot.company_id s →
  directory c (save_snapshot max s now fs).2 = directory c fs.
Proof.
  intros Hne. unfold save_snapshot. simpl.
  unfold _cleanup_old_snapshots. rewrite !directory_company_dir.
  case_decide.
  - rewrite directory_unlink_all, decide_False by done.
    by rewrite !directory_company_dir, directory_save, decide_False,
      directory_company_dir.
  - by rewrite !directory_company_dir, directory_save, decide_False,
      directory_company_dir.
Qed.

(** One call of [save_snapshot] under a limit [n ≥ 0], seen from the
    company's directory: the file is written, then the listing is cut to
    its first [n] names. *)
Lemma directory_save_snapshot (n : nat) (s : CompanySnapshot) (now : datetime)
    (fs : files) (f : string) :
  let cid := snapshot.company_id s in
  let written := <[snapshot_filename cid now := s]> (directory cid fs) in
  directory cid (save_snapshot (Z.of_nat n) s now fs).2 !! f
  = if decide (f ∈ drop n (snapshot_files cid written)) then None else written !! f.
Proof.
  intros cid written. unfold save_snapshot. simpl. fold cid.
  rewrite directory_cleanup, !directory_save, !directory_company_dir.
  rewrite (decide_True (P := cid = cid)) by done. fold written.
  repeat case_decide; try done; tauto.
Qed.

Lemma snapshot_files_save_snapshot (n : nat) (s : CompanySnapshot) (now : datetime)
    (fs : files) :
  let cid := snapshot.company_id s in
  let written := <[snapshot_filename cid now := s]> (directory cid fs) in
  snapshot_files cid (directory cid (save_snapshot (Z.of_nat n) s now fs).2)
  = take n (snapshot_files cid written).
Proof.
  intros cid written. unfold save_snapshot. simpl. fold cid.
  rewrite snapshot_files_cleanup, directory_save, directory_company_dir.
  by rewrite decide_True.
Qed.

(** ** Storage: file names written by [save_snapshot] *)

Lemma strip_prefix_app (p s : string) : strip_prefix p (p +:+ s) = Some s.
Proof.
  induction p as [|a p IH]; [by destruct s|].
  rewrite string_app_cons. simpl. by rewrite decide_True.
Qed.

Lemma ends_with_app (mid suffix : string) : ends_with suffix (mid +:+ suffix) = true.
Proof.
  induction mid as [|a mid IH].
  - rewrite string_app_nil_l.
    destruct suffix; cbn [ends_with]; by rewrite bool_decide_eq_true_2.
  - rewrite string_app_cons. cbn [ends_with]. rewrite IH. apply orb_true_r.
Qed.

Lemma glob_match_snapshot_filename (cid : string) (now : datetime) :
  glob_match cid (snapshot_filename cid now) = true.
Proof.
  unfold glob_match, snapshot_filename.
  rewrite <- (string_app_assoc cid "_"), strip_prefix_app. apply ends_with_app.
Qed.

Lemma snapshot_files_insert_greatest (cid : string) (dir : gmap string CompanySnapshot)
    (name : string) (s : CompanySnapshot) :
  glob_match cid name = true →
  (∀ f, f ∈ snapshot_files cid dir → String.compare f name = Lt) →
  snapshot_files cid (<[name := s]> dir) = name :: snapshot_files cid dir.
Proof.
  intros Hg Hlt. apply snapshot_files_unique.
  - constructor; [apply snapshot_files_sorted|].
    apply Forall_forall. intros f Hf. by apply string_lt_le, Hlt.
  - apply NoDup_cons. split; [|apply snapshot_files_NoDup].
    intros Hin. apply Hlt in Hin. by rewrite string_compare_refl in Hin.
  - intros f. rewrite elem_of_cons, elem_of_snapshot_files.
    destruct (decide (f = name)) as [->|Hne].
    + rewrite lookup_insert_eq. split; [eauto|]. by left.
    + rewrite lookup_insert_ne by done. split; [|tauto]. by intros [?|?].
Qed.

Lemma snapshot_files_insert_present (cid : string) (dir : gmap string CompanySnapshot)
    (name : string) (s : CompanySnapshot) :
  is_Some (dir !! name) →
  snapshot_files cid (<[name := s]> dir) = snapshot_files cid dir.
Proof.
  intros Hin. apply snapshot_files_unique.
  - apply snapshot_files_sorted.
  - apply snapshot_files_NoDup.
  - intros f. rewrite elem_of_snapshot_files.
    destruct (decide (f = name)) as [->|Hne].
    + rewrite lookup_insert_eq. split; intros [_ ?]; eauto.
    + by rewrite lookup_insert_ne.
Qed.

Lemma snapshot_files_insert_absent (cid : string) (dir : gmap string CompanySnapshot)
    (name : string) (s : CompanySnapshot) :
  glob_match cid name = true → dir !! name = None →
  snapshot_files cid (<[name := s]> dir) ≡ₚ name :: snapshot_files cid dir.
Proof.
  intros Hg Hnone. apply NoDup_Permutation.
  - apply snapshot_files_NoDup.
  - apply NoDup_cons. split; [|apply snapshot_files_NoDup].
    rewrite elem_of_snapshot_files, Hnone. by intros [[? ?] _].
  - intros f. rewrite elem_of_cons, !elem_of_snapshot_files.
    destruct (decide (f = name)) as [->|Hne].
    + rewrite lookup_insert_eq. split; [by left|eauto].
    + rewrite lookup_insert_ne by done. split; [tauto|]. by intros [?|?].
Qed.

(** ** Storage: reading *)

Lemma get_latest_snapshot_state (cid : string) (fs : files) :
  (get_latest_snapshot cid fs).2 = _company_dir cid fs.
Proof. unfold get_latest_snapshot. by destruct (snapshot_files _ _). Qed.

Lemma get_latest_snapshot_value (cid : string) (fs : files) :
  (get_latest_snapshot cid fs).1
  = match snapshot_files cid (directory cid fs) with
    | [] => None
    | f :: _ => directory cid fs !! f
    end.
Proof.
  unfold get_latest_snapshot. rewrite directory_company_dir.
  by destruct (snapshot_files _ _).
Qed.

Lemma get_all_snapshots_value (cid : string) (fs : files) :
  (get_all_snapshots cid fs).1
  = omap (λ f, directory cid fs !! f) (snapshot_files cid (directory cid fs)).
Proof. unfold get_all_snapshots. simpl. by rewrite directory_company_dir. Qed.




(** Saved on Monday's clock after Tuesday's snapshot, Monday's snapshot
    is what [get_latest_snapshot] returns, although the stored
    Tuesday snapshot has the greater capture timestamp. *)
Lemma get_latest_snapshot_not_greatest_capture :
  let fs := save_all 90 [(examples.fixo_tuesday, examples.reading 4 120);
                         (examples.fixo_monday, examples.reading 9 870)] ∅ in
  (get_latest_snapshot "fixo" fs).1 = Some examples.fixo_monday
  ∧ (get_all_snapshots "fixo" fs).1 = [examples.fixo_monday; examples.fixo_tuesday]
  ∧ String.compare (snapshot.timestamp examples.fixo_monday)
      (snapshot.timestamp examples.fixo_tuesday) = Lt.
Proof. vm_compute. done. Qed.

Lemma head_snapshot_files_greatest (cid : string) (dir : gmap string CompanySnapshot)
    (g : string) (rest : list string) :
  snapshot_files cid dir = g :: rest →
  is_Some (dir !! g) ∧ glob_match cid g = true
  ∧ ∀ f, is_Some (dir !! f) → glob_match cid f = true → String.le f g.
Proof.
  intros E.
  assert (Hg : g ∈ snapshot_files cid dir) by (rewrite E; left).
  apply elem_of_snapshot_files in Hg as [Hs Hm]. split_and!; [done..|].
  intros f Hf Hfm.
  assert (Hin : f ∈ snapshot_files cid dir) by (by apply elem_of_snapshot_files).
  pose proof (snapshot_files_sorted cid dir) as Hsorted.
  rewrite E in Hin, Hsorted. apply elem_of_cons in Hin as [->|Hin]; [done|].
  apply StronglySorted_inv in Hsorted as [_ Hall].
  rewrite Forall_forall in Hall. by apply Hall.
Qed.

(** C5, as amended: for a company with at least one stored snapshot file,
    [get_latest_snapshot] returns the snapshot held by the file with the
    greatest name, that is, the one saved at the latest clock second,
    whatever the capture timestamps inside the snapshots; in particular
    it returns the snapshot just saved when that save falls after all
    stored ones.  For a company with no stored snapshot file, or no
    directory at all, it returns [None].  The company id is one that the
    glob pattern reads literally. *)
Theorem get_latest_snapshot_greatest_file (cid : string) (fs : files) :
  glob_literal cid = true →
  let dir := directory cid fs in
  (fs !! cid = None → (get_latest_snapshot cid fs).1 = None)
  ∧ ((∀ f, is_Some (dir !! f) → glob_match cid f = false) →
     (get_latest_snapshot cid fs).1 = None)
  ∧ (∀ f, is_Some (dir !! f) → glob_match cid f = true →
       ∃ g s, (get_latest_snapshot cid fs).1 = Some s
              ∧ dir !! g = Some s ∧ glob_match cid g = true
              ∧ ∀ f', is_Some (dir !! f') → glob_match cid f' = true → String.le f' g)
  ∧ (∀ (n : nat) s now,
       snapshot.company_id s = cid → 0 < n →
       (∀ f, is_Some (dir !! f) → glob_match cid f = true →
             String.compare f (snapshot_filename cid now) = Lt) →
       (get_latest_snapshot cid (save_snapshot (Z.of_nat n) s now fs).2).1 = Some s).
Proof.
  intros _ dir. split_and!.
  - intros Hnone. rewrite get_latest_snapshot_value.
    destruct (snapshot_files cid (directory cid fs)) as [|g rest] eqn:E; [done|].
    apply head_snapshot_files_greatest in E as ([d Hd] & _).
    unfold directory in Hd. by rewrite Hnone in Hd.
  - intros Hno. rewrite get_latest_snapshot_value.
    destruct (snapshot_files cid (directory cid fs)) as [|g rest] eqn:E; [done|].
    apply head_snapshot_files_greatest in E as (Hs & Hm & _).
    apply Hno in Hs. congruence.
  - intros f Hf Hm. rewrite get_latest_snapshot_value.
    destruct (snapshot_files cid (directory cid fs)) as [|g rest] eqn:E.
    + assert (Hin : f ∈ snapshot_files cid (directory cid fs))
        by (by apply elem_of_snapshot_files).
      rewrite E in Hin. by apply elem_of_nil in Hin.
    + apply head_snapshot_files_greatest in E as ([s Hs] & Hgm & Hmax).
      exists g, s. by split_and!.
  - intros n s now <- Hn Hlt. rewrite get_latest_snapshot_value.
    rewrite snapshot_files_save_snapshot.
    rewrite snapshot_files_insert_greatest.
    + destruct n as [|n]; [lia|]. cbn [take].
      rewrite directory_save_snapshot.
      rewrite snapshot_files_insert_greatest.
      * rewrite decide_False; [by rewrite lookup_insert_eq|].
        cbn [drop]. intros Hin.
        assert (Hin' : snapshot_filename (snapshot.company_id s) now
                       ∈ snapshot_files (snapshot.company_id s)
                           (directory (snapshot.company_id s) fs)).
        { rewrite <- (take_drop n (snapshot_files _ _)). apply elem_of_app. by right. }
        apply elem_of_snapshot_files in Hin' as [? ?].
        specialize (Hlt _ ltac:(done) ltac:(done)).
        by rewrite string_compare_refl in Hlt.
      * apply glob_match_snapshot_filename.
      * intros f [? ?]%elem_of_snapshot_files. by apply Hlt.
    + apply glob_match_snapshot_filename.
    + intros f [? ?]%elem_of_snapshot_files. by apply Hlt.
Qed.

(** Tuesday's snapshot saved five seconds after Monday's. *)
Lemma get_latest_snapshot_greatest_file_witness :
  let fs := (save_snapshot (Z.of_nat 90) examples.fixo_monday
               (examples.reading 4 120) ∅).2 in
  glob_literal "fixo" = true
  ∧ snapshot.company_id examples.fixo_tuesday = "fixo"
  ∧ 0 < 90
  ∧ snapshot_files "fixo" (directory "fixo" fs) = ["fixo_20250309_070504.json"]
  ∧ (∀ f, is_Some (directory "fixo" fs !! f) → glob_match "fixo" f = true →
          String.compare f (snapshot_filename "fixo" (examples.reading 9 870)) = Lt)
  ∧ (get_latest_snapshot "fixo"
       (save_snapshot (Z.of_nat 90) examples.fixo_tuesday (examples.reading 9 870) fs).2).1
    = Some examples.fixo_tuesday.
Proof.
  cbv zeta.
  set (fs := (save_snapshot (Z.of_nat 90) examples.fixo_monday
                (examples.reading 4 120) ∅).2).
  assert (Hlit : glob_literal "fixo" = true) by (vm_compute; reflexivity).
  assert (Hid : snapshot.company_id examples.fixo_tuesday = "fixo") by reflexivity.
  assert (Hn : 0 < 90) by lia.
  assert (Hfiles : snapshot_files "fixo" (directory "fixo" fs)
                   = ["fixo_20250309_070504.json"]) by (vm_compute; reflexivity).
  assert (Hlt : ∀ f, is_Some (directory "fixo" fs !! f) →
                     glob_match "fixo" f = true →
                     String.compare f
                       (snapshot_filename "fixo" (examples.reading 9 870)) = Lt).
  { intros f Hf Hm.
    pose proof (proj2 (elem_of_snapshot_files "fixo" (directory "fixo" fs) f)
                  (conj Hf Hm)) as Hin.
    rewrite Hfiles in Hin. apply list_elem_of_singleton in Hin as ->.
    vm_compute. reflexivity. }
  split; [exact Hlit|]. split; [exact Hid|]. split; [exact Hn|].
  split; [exact Hfiles|]. split; [exact Hlt|].
  exact (proj2 (proj2 (proj2 (get_latest_snapshot_greatest_file "fixo" fs Hlit)))
           90 examples.fixo_tuesday (examples.reading 9 870) Hid Hn Hlt).
Defined.

(** ** Storage: writing *)

(** Two saves for one company within the same clock second: the second
    write lands on the file of the first, and only the later snapshot
    remains stored. *)
Lemma save_snapshot_same_second_overwrites :
  let first := (examples.fixo_monday, examples.reading 4 120) in
  let second := (examples.fixo_tuesday, examples.reading 4 870) in
  let fs := save_all 90 [first; second] ∅ in
  valid first.2 ∧ valid second.2
  ∧ first.2 ≠ second.2
  ∧ compare_seconds first.2 second.2 = Eq
  ∧ snapshot.company_id first.1 = snapshot.company_id second.1
  ∧ first.1 ≠ second.1
  ∧ snapshot_files "fixo" (directory "fixo" fs) = ["fixo_20250309_070504.json"]
  ∧ (get_all_snapshots "fixo" fs).1 = [examples.fixo_tuesday].
Proof.
  cbv zeta. split_and!; try (vm_compute; reflexivity); try discriminate.
  - unfold valid. simpl. lia.
  - unfold valid. simpl. lia.
Qed.

Lemma directory_save_snapshot_no_pruning (n : nat) (s : CompanySnapshot) (now : datetime)
    (fs : files) :
  let cid := snapshot.company_id s in
  let written := <[snapshot_filename cid now := s]> (directory cid fs) in
  length (snapshot_files cid written) ≤ n →
  directory cid (save_snapshot (Z.of_nat n) s now fs).2 = written.
Proof.
  intros cid written Hlen. apply map_eq. intros f.
  subst cid written. rewrite directory_save_snapshot.
  rewrite drop_ge by done. case_decide as H; [by apply elem_of_nil in H|done].
Qed.

(** C2, as amended: every [save_snapshot] writes the snapshot under the
    file name made of the company id and the clock reading to the second.
    The listing of the company's files stays strictly ordered by name;
    files under other names are never modified (each keeps its content or
    is deleted by pruning), the file of that name holds the snapshot just
    saved unless pruning deleted it, and other companies' directories are
    untouched.  Under a name not yet in use, and below the retention
    limit, the save adds exactly one file.  Under a name already in use
    (a save within the same clock second as an earlier one) the save
    replaces the content of that file: the earlier snapshot is no longer
    stored and the number of files does not grow.  The company id is one
    that the glob pattern reads literally. *)
Theorem save_snapshot_entry (n : nat) (s : CompanySnapshot) (now : datetime) (fs : files) :
  glob_literal (snapshot.company_id s) = true →
  let cid := snapshot.company_id s in
  let name := snapshot_filename cid now in
  let stored := directory cid fs in
  let stored' := directory cid (save_snapshot (Z.of_nat n) s now fs).2 in
  StronglySorted (λ a b, String.compare b a = Lt) (snapshot_files cid stored')
  ∧ (∀ f, f ≠ name → stored' !! f = stored !! f ∨ stored' !! f = None)
  ∧ (stored' !! name = Some s ∨ stored' !! name = None)
  ∧ (∀ c, c ≠ cid → directory c (save_snapshot (Z.of_nat n) s now fs).2 = directory c fs)
  ∧ (stored !! name = None → length (snapshot_files cid stored) < n →
       stored' = <[name := s]> stored
       ∧ snapshot_files cid stored' ≡ₚ name :: snapshot_files cid stored)
  ∧ (∀ earlier, stored !! name = Some earlier → length (snapshot_files cid stored) ≤ n →
       stored' = <[name := s]> stored
       ∧ snapshot_files cid stored' = snapshot_files cid stored)
  ∧ (∀ other, valid now → valid other →
       compare_seconds other now = Eq → snapshot_filename cid other = name).
Proof.
  intros _ cid name stored stored'. subst cid name stored stored'. split_and!.
  - apply snapshot_files_strict.
  - intros f Hne. rewrite directory_save_snapshot.
    case_decide; [by right|left]. by rewrite lookup_insert_ne.
  - rewrite directory_save_snapshot.
    case_decide; [by right|left]. by rewrite lookup_insert_eq.
  - intros c Hne. by apply directory_save_snapshot_other.
  - intros Hnone Hlen.
    pose proof (snapshot_files_insert_absent _ _ _ s
                  (glob_match_snapshot_filename (snapshot.company_id s) now) Hnone)
      as Hperm.
    rewrite directory_save_snapshot_no_pruning; [done|].
    rewrite Hperm. simpl. lia.
  - intros earlier Hsome Hlen.
    pose proof (snapshot_files_insert_present (snapshot.company_id s) _ _ s
                  (mk_is_Some _ _ Hsome)) as Hsame.
    rewrite directory_save_snapshot_no_pruning; [done|].
    by rewrite Hsame.
  - intros other Hnow Hother E. by apply snapshot_filename_same_second.
Qed.

(** The second of two saves within one clock second, read off the rule. *)
Lemma save_snapshot_entry_witness :
  let fs := (save_snapshot (Z.of_nat 90) examples.fixo_monday
               (examples.reading 4 120) ∅).2 in
  glob_literal (snapshot.company_id examples.fixo_tuesday) = true
  ∧ directory "fixo" fs !! "fixo_20250309_070504.json" = Some examples.fixo_monday
  ∧ length (snapshot_files "fixo" (directory "fixo" fs)) ≤ 90
  ∧ directory "fixo"
      (save_snapshot (Z.of_nat 90) examples.fixo_tuesday (examples.reading 4 870) fs).2
    = <[ "fixo_20250309_070504.json" := examples.fixo_tuesday ]> (directory "fixo" fs).
Proof.
  cbv zeta.
  set (fs := (save_snapshot (Z.of_nat 90) examples.fixo_monday
                (examples.reading 4 120) ∅).2).
  assert (H1 : directory (snapshot.company_id examples.fixo_tuesday) fs
               !! snapshot_filename (snapshot.company_id examples.fixo_tuesday)
                    (examples.reading 4 870)
               = Some examples.fixo_monday) by (vm_compute; reflexivity).
  assert (H2 : length (snapshot_files (snapshot.company_id examples.fixo_tuesday)
                         (directory (snapshot.company_id examples.fixo_tuesday) fs))
               ≤ 90) by (vm_compute; lia).
  assert (H0 : glob_literal (snapshot.company_id examples.fixo_tuesday) = true)
    by (vm_compute; reflexivity).
  split; [exact H0|]. split; [exact H1|]. split; [exact H2|].
  exact (proj1 (proj1 (proj2 (proj2 (proj2 (proj2 (proj2
    (save_snapshot_entry 90 examples.fixo_tuesday (examples.reading 4 870) fs H0))))))
    examples.fixo_monday H1 H2)).
Defined.

(** ** Storage: retention *)

(** Three saves within one clock second under a limit of two: one
    snapshot is stored afterwards, not two. *)
Lemma retention_same_second_keeps_one :
  let saves := [(examples.fixo_monday, examples.reading 4 120);
                (examples.fixo_tuesday, examples.reading 4 480);
                (examples.fixo_monday, examples.reading 4 870)] in
  length saves = 2 + 1
  ∧ (get_all_snapshots "fixo" (save_all 2 saves ∅)).1 = [examples.fixo_monday]
  ∧ length (get_all_snapshots "fixo" (save_all 2 saves ∅)).1 ≠ 2.
Proof. cbv zeta. split_and!; [done|by vm_compute|by vm_compute]. Qed.

Lemma take_app_take {A} (n : nat) (l1 l2 : list A) :
  take n (l1 ++ take n l2) = take n (l1 ++ l2).
Proof. rewrite !take_app, take_take. do 2 f_equal. lia. Qed.

Lemma omap_lookup_names {V} (d : gmap string V) (name : V * datetime → string)
    (l : list (V * datetime)) :
  Forall (λ p, d !! name p = Some p.1) l →
  omap (λ f, d !! f) (name <$> l) = l.*1.
Proof.
  induction 1 as [|p l Hp _ IH]; [done|].
  cbn [fmap list_fmap omap list_omap]. by rewrite Hp, IH.
Qed.

Lemma save_all_cons (max : Z) (p : CompanySnapshot * datetime)
    (saves : list (CompanySnapshot * datetime)) (fs : files) :
  save_all max (p :: saves) fs = save_all max saves (save_snapshot max p.1 p.2 fs).2.
Proof. reflexivity. Qed.

(** The invariant of a run of saves at strictly increasing clock seconds:
    [live] lists the stored snapshots with their save times, newest
    first; each save puts its snapshot in front and the listing is cut to
    the limit. *)
Lemma save_all_listing (n : nat) (cid : string)
    (saves live : list (CompanySnapshot * datetime)) (fs : files) :
  Forall (λ p, snapshot.company_id p.1 = cid ∧ valid p.2) saves →
  StronglySorted (λ p q, before p.2 q.2) saves →
  Forall (λ p, valid p.2 ∧ Forall (λ q, before p.2 q.2) saves) live →
  length live ≤ n →
  snapshot_files cid (directory cid fs) = (λ p, snapshot_filename cid p.2) <$> live →
  Forall (λ p, directory cid fs !! snapshot_filename cid p.2 = Some p.1) live →
  snapshot_files cid (directory cid (save_all (Z.of_nat n) saves fs))
    = (λ p, snapshot_filename cid p.2) <$> take n (reverse saves ++ live)
  ∧ Forall (λ p, directory cid (save_all (Z.of_nat n) saves fs)
                   !! snapshot_filename cid p.2 = Some p.1)
      (take n (reverse saves ++ live)).
Proof.
  revert live fs.
  induction saves as [|[s t] rest IH]; intros live fs Hsaves Hsorted Hlive Hlen Hfiles Hcontent.
  - rewrite take_ge by (by rewrite app_nil_l). done.
  - apply Forall_cons in Hsaves as [[Hcid Ht] Hsaves]. simpl in Hcid, Ht.
    apply StronglySorted_inv in Hsorted as [Hsorted Hafter].
    rewrite save_all_cons. cbn [fst snd].
    set (fs1 := (save_snapshot (Z.of_nat n) s t fs).2).
    set (name := λ p : CompanySnapshot * datetime, snapshot_filename cid p.2).
    assert (Hbelow : ∀ f, f ∈ snapshot_files cid (directory cid fs) →
                          String.compare f (snapshot_filename cid t) = Lt).
    { intros f Hf. rewrite Hfiles in Hf.
      apply list_elem_of_fmap in Hf as (p & -> & Hp).
      rewrite Forall_forall in Hlive. destruct (Hlive p Hp) as [Hv Hb].
      apply Forall_cons in Hb as [Hb _].
      by rewrite snapshot_filename_compare. }
    assert (Hwritten : snapshot_files cid (<[snapshot_filename cid t := s]> (directory cid fs))
                       = name <$> ((s, t) :: live)).
    { rewrite snapshot_files_insert_greatest;
        [|apply glob_match_snapshot_filename|done].
      by rewrite Hfiles. }
    assert (Hfiles1 : snapshot_files cid (directory cid fs1)
                      = name <$> take n ((s, t) :: live)).
    { subst fs1. rewrite <- Hcid at 1 2. rewrite snapshot_files_save_snapshot.
      rewrite Hcid, Hwritten. by rewrite fmap_take. }
    assert (Hcontent1 : Forall (λ p, directory cid fs1 !! name p = Some p.1)
                          (take n ((s, t) :: live))).
    { apply Forall_forall. intros p Hp. subst fs1.
      rewrite <- Hcid at 1. rewrite directory_save_snapshot. rewrite Hcid, Hwritten.
      assert (Hin : name p ∈ take n (name <$> (s, t) :: live)).
      { rewrite <- fmap_take. apply list_elem_of_fmap. eauto. }
      apply elem_of_take_drop_NoDup in Hin as [_ Hnd];
        [|rewrite <- Hwritten; apply snapshot_files_NoDup].
      rewrite decide_False by done.
      assert (Hp' : p ∈ (s, t) :: live).
      { rewrite <- (take_drop n ((s, t) :: live)). apply elem_of_app. by left. }
      apply elem_of_cons in Hp' as [->|Hp'].
      - by rewrite lookup_insert_eq.
      - rewrite lookup_insert_ne.
        + rewrite Forall_forall in Hcontent. by apply Hcontent.
        + intros E. apply (string_lt_ne (name p) (snapshot_filename cid t)); [|done].
          apply Hbelow. rewrite Hfiles. apply list_elem_of_fmap. eauto. }
    assert (Hlive1 : Forall (λ p, valid p.2 ∧ Forall (λ q, before p.2 q.2) rest)
                       (take n ((s, t) :: live))).
    { apply Forall_take. apply Forall_cons. split; [done|].
      eapply Forall_impl; [exact Hlive|]. intros p [Hv Hb]. split; [done|].
      by apply Forall_cons in Hb as [_ Hb]. }
    assert (Hlen1 : length (take n ((s, t) :: live)) ≤ n)
      by (rewrite length_take; lia).
    destruct (IH _ fs1 Hsaves Hsorted Hlive1 Hlen1 Hfiles1 Hcontent1) as [IH1 IH2].
    rewrite take_app_take in IH1, IH2.
    rewrite reverse_cons, <- app_assoc. done.
Qed.

(** C6, as amended: for one company with retention limit [n] and no
    snapshot file stored beforehand, after any run of saves made at
    strictly increasing clock seconds [get_all_snapshots] returns the
    last [n] snapshots saved, newest first (pruning after each save
    deletes the files with the smallest names, the oldest saves); after
    [n + 1] such saves it returns exactly [n] snapshots, all but the
    first one saved.  The company id is one that the glob pattern reads
    literally. *)
Theorem retention_after_saves (n : nat) (cid : string)
    (saves : list (CompanySnapshot * datetime)) (fs : files) :
  glob_literal cid = true →
  Forall (λ p, snapshot.company_id p.1 = cid ∧ valid p.2) saves →
  StronglySorted (λ p q, before p.2 q.2) saves →
  snapshot_files cid (directory cid fs) = [] →
  let all := (get_all_snapshots cid (save_all (Z.of_nat n) saves fs)).1 in
  all = take n (reverse saves.*1)
  ∧ length all = length saves `min` n
  ∧ (length saves = S n → length all = n ∧ all = reverse (drop 1 saves.*1)).
Proof.
  intros _ Hsaves Hsorted Hempty all.
  destruct (save_all_listing n cid saves [] fs) as [Hfiles Hcontent];
    [done|done|done|simpl; lia|by rewrite Hempty|done|].
  rewrite app_nil_r in Hfiles, Hcontent.
  assert (Hall : all = take n (reverse saves.*1)).
  { subst all. rewrite get_all_snapshots_value, Hfiles.
    rewrite (omap_lookup_names _ (λ p, snapshot_filename cid p.2)) by done.
    by rewrite fmap_take, fmap_reverse. }
  split_and!; [done| |].
  - rewrite Hall, length_take, length_reverse, length_fmap. lia.
  - intros Hlen. rewrite Hall. destruct saves as [|p rest]; [done|].
    simpl in Hlen. injection Hlen as Hlen.
    cbn [fmap list_fmap drop]. rewrite reverse_cons.
    rewrite take_app_length' by (by rewrite length_reverse, length_fmap).
    split; [|done]. by rewrite length_reverse, length_fmap.
Qed.

Lemma retention_after_saves_witness :
  let saves := [(examples.fixo_monday, examples.reading 4 120);
                (examples.fixo_tuesday, examples.reading 5 480);
                (examples.fixo_monday, examples.reading 9 870)] in
  glob_literal "fixo" = true
  ∧ Forall (λ p, snapshot.company_id p.1 = "fixo" ∧ valid p.2) saves
  ∧ StronglySorted (λ p q, before p.2 q.2) saves
  ∧ snapshot_files "fixo" (directory "fixo" (∅ : files)) = []
  ∧ length saves = S 2
  ∧ (get_all_snapshots "fixo" (save_all (Z.of_nat 2) saves ∅)).1
    = [examples.fixo_monday; examples.fixo_tuesday].
Proof.
  cbv zeta.
  set (saves := [(examples.fixo_monday, examples.reading 4 120);
                 (examples.fixo_tuesday, examples.reading 5 480);
                 (examples.fixo_monday, examples.reading 9 870)]).
  assert (H1 : Forall (λ p, snapshot.company_id p.1 = "fixo" ∧ valid p.2) saves).
  { repeat (apply Forall_cons; split; [split; [reflexivity|unfold valid; simpl; lia]|]).
    apply Forall_nil_2. }
  assert (H2 : StronglySorted (λ p q, before p.2 q.2) saves).
  { repeat (apply SSorted_cons;
            [|repeat (apply Forall_cons; split; [reflexivity|]); apply Forall_nil_2]).
    apply SSorted_nil. }
  assert (H3 : snapshot_files "fixo" (directory "fixo" (∅ : files)) = [])
    by reflexivity.
  assert (H4 : length saves = S 2) by reflexivity.
  assert (H0 : glob_literal "fixo" = true) by (vm_compute; reflexivity).
  split; [exact H0|].
  split; [exact H1|]. split; [exact H2|]. split; [exact H3|]. split; [exact H4|].
  exact (proj2 (proj2 (proj2 (retention_after_saves 2 "fixo" saves ∅ H0 H1 H2 H3)) H4)).
Defined.

(** ** The scan loop *)

Section scan.
Context {World : Type}.
Variable SCRAPERS : gmap string (@action World CompanySnapshot).
Variable storage_get_latest_snapshot : string → @action World (option CompanySnapshot).
Variable storage_save_snapshot : CompanySnapshot → @action World string.
Variable now_isoformat : World → string.
Variable companies_config : list string.
Variable reporter :
  string → gmap string (list Change) → gmap string CompanySnapshot → @action World unit.

Abbreviation scan_company :=
  (_scan_company SCRAPERS storage_get_latest_snapshot storage_save_snapshot now_isoformat).
Abbreviation one :=
  (scan_one SCRAPERS storage_get_latest_snapshot storage_save_snapshot now_isoformat).
Abbreviation loop :=
  (scan_loop SCRAPERS storage_get_latest_snapshot storage_save_snapshot now_isoformat).
Abbreviation recorded :=
  (recorded_changes SCRAPERS storage_get_latest_snapshot storage_save_snapshot
     now_isoformat).

Lemma scan_one_changes acc (X : string) (w : World) :
  (one acc X w).1.1 = <[X := recorded X w]> acc.1.
Proof.
  unfold scan_one, recorded_changes.
  by destruct (scan_company X w) as [[[changes snapshot]|e] w'].
Qed.

Lemma scan_loop_cons (X : string) (rest : list string) acc (w : World) :
  loop (X :: rest) acc w = loop rest (one acc X w).1 (one acc X w).2.
Proof. cbn [scan_loop]. by destruct (one acc X w). Qed.

Lemma scan_loop_app (l1 l2 : list string) acc (w : World) :
  loop (l1 ++ l2) acc w = loop l2 (loop l1 acc w).1 (loop l1 acc w).2.
Proof.
  revert acc w. induction l1 as [|X l1 IH]; intros acc w; [done|].
  by rewrite <- app_comm_cons, !scan_loop_cons, IH.
Qed.

Lemma scan_loop_dom (l : list string) acc (w : World) :
  dom (loop l acc w).1.1 = dom acc.1 ∪ list_to_set l.
Proof.
  revert acc w. induction l as [|X l IH]; intros acc w.
  - cbn [scan_loop list_to_set fst]. by rewrite (right_id_L ∅ (∪)).
  - rewrite scan_loop_cons, IH, scan_one_changes, dom_insert_L.
    cbn [list_to_set]. by rewrite (comm_L (∪) {[X]}), (assoc_L (∪)).
Qed.

Lemma scan_loop_lookup_later (l : list string) acc (w : World) (X : string) :
  X ∉ l → (loop l acc w).1.1 !! X = acc.1 !! X.
Proof.
  revert acc w. induction l as [|Y l IH]; intros acc w Hnot; [done|].
  apply not_elem_of_cons in Hnot as [Hne Hnot].
  rewrite scan_loop_cons, IH, scan_one_changes by done.
  by rewrite lookup_insert_ne.
Qed.

(** C10: in the loop of [run_scan] over a batch, the company [X]
    scanned after the companies [pre] and before the companies [post]
    is recorded with exactly what its own scan yields in the world the
    earlier scans left: its changes if [_scan_company] returns, and the
    empty list if it raises (a storage write failure included), whatever
    happened to the companies before it.  The loop itself never raises:
    the companies after [X] are scanned from the world the scan of [X]
    left, every company of the batch is a key of the resulting mapping,
    and this mapping is what [run_scan] returns once the report is
    written. *)
Theorem run_scan_isolation (pre post : list string) (X : string) (w : World)
    (report_format : string) :
  X ∉ post →
  let batch := pre ++ X :: post in
  let before_X := loop pre (∅, ∅) w in
  let after_X := one before_X.1 X before_X.2 in
  let result := loop batch (∅, ∅) w in
  result = loop post after_X.1 after_X.2
  ∧ dom result.1.1 = list_to_set batch
  ∧ result.1.1 !! X = Some (recorded X before_X.2)
  ∧ (∀ e w', scan_company X before_X.2 = (Raise e, w') →
       result.1.1 !! X = Some [] ∧ after_X.2 = w')
  ∧ (∀ changes snapshot w',
       scan_company X before_X.2 = (Return (changes, snapshot), w') →
       result.1.1 !! X = Some changes ∧ after_X.2 = w')
  ∧ (∀ u w', reporter report_format result.1.1 result.1.2 result.2 = (Return u, w') →
       run_scan SCRAPERS storage_get_latest_snapshot storage_save_snapshot
         now_isoformat companies_config reporter (Some batch) report_format w
       = (Return result.1.1, w')).
Proof.
  intros Hpost batch before_X after_X result.
  assert (Hresult : result = loop post after_X.1 after_X.2).
  { subst result batch. by rewrite scan_loop_app, scan_loop_cons. }
  assert (HX : result.1.1 !! X = Some (recorded X before_X.2)).
  { rewrite Hresult, scan_loop_lookup_later by done.
    subst after_X. by rewrite scan_one_changes, lookup_insert_eq. }
  split_and!.
  - done.
  - subst result. rewrite scan_loop_dom. cbn [fst].
    by rewrite dom_empty_L, (left_id_L ∅ (∪)).
  - done.
  - intros e w' Hraise. rewrite HX. subst after_X.
    unfold recorded_changes, scan_one. by rewrite Hraise.
  - intros changes snapshot w' Hret. rewrite HX. subst after_X.
    unfold recorded_changes, scan_one. by rewrite Hret.
  - intros u w' Hreport. clear Hresult HX. subst result.
    unfold run_scan. cbn [default]. change (id batch) with batch.
    destruct (loop batch (∅, ∅) w) as [acc w1].
    cbn [fst snd] in Hreport. lazy beta iota zeta. by rewrite Hreport.
Qed.

End scan.

(** Scenario D: the directory of "oscar" rejects the write, "fixo" is
    scanned all the same and both companies are keys of the result. *)
Lemma scan_with_write_failure :
  (_scan_company scenario.SCRAPERS scenario.storage_get_latest_snapshot
     scenario.storage_save_snapshot scenario.now_isoformat "oscar"
     scenario.tuesday_morning).1
  = Raise (OSError "[Errno 30] Read-only file system")
  ∧ (scan_loop scenario.SCRAPERS scenario.storage_get_latest_snapshot
       scenario.storage_save_snapshot scenario.now_isoformat ["oscar"; "fixo"]
       (∅, ∅) scenario.tuesday_morning).1.1
    = {[ "oscar" := []; "fixo" := examples.monday_to_tuesday ]}.
Proof. split; vm_compute; reflexivity. Qed.

Lemma run_scan_isolation_witness :
  ("oscar" ∉ ["fixo"])
  ∧ (scan_loop scenario.SCRAPERS scenario.storage_get_latest_snapshot
       scenario.storage_save_snapshot scenario.now_isoformat ([] ++ "oscar" :: ["fixo"])
       (∅, ∅) scenario.tuesday_morning).1.1 !! "oscar"
    = Some (recorded_changes scenario.SCRAPERS scenario.storage_get_latest_snapshot
              scenario.storage_save_snapshot scenario.now_isoformat "oscar"
              scenario.tuesday_morning).
Proof.
  assert (H : "oscar" ∉ ["fixo"]).
  { intros Hin. apply list_elem_of_singleton in Hin. discriminate Hin. }
  split; [exact H|].
  exact (proj1 (proj2 (proj2
    (run_scan_isolation scenario.SCRAPERS scenario.storage_get_latest_snapshot
       scenario.storage_save_snapshot scenario.now_isoformat []
       (λ _ _ _ w, (Return (), w)) [] ["fixo"] "oscar" scenario.tuesday_morning
       "terminal" H)))).
Defined.

(** * Further properties of the code *)

(** ** Change detector: shape of the result *)

Lemma service_changes_category old new ts c :
  c ∈ _detect_service_changes old new ts → category c = "services".
Proof.
  unfold _detect_service_changes.
  rewrite elem_of_app, !elem_of_difference_changes.
  by intros [(x & _ & _ & ->)|(x & _ & _ & ->)].
Qed.

Lemma location_changes_category old new ts c :
  c ∈ _detect_location_changes old new ts → category c = "locations".
Proof.
  unfold _detect_location_changes.
  rewrite elem_of_app, !elem_of_difference_changes.
  by intros [(x & _ & _ & ->)|(x & _ & _ & ->)].
Qed.

Lemma promotion_changes_category old new ts c :
  c ∈ _detect_promotion_changes old new ts → category c = "promotions".
Proof.
  unfold _detect_promotion_changes.
  rewrite elem_of_app, !elem_of_difference_changes.
  by intros [(x & _ & _ & ->)|(x & _ & _ & ->)].
Qed.

Lemma pricing_changes_category old new ts c :
  c ∈ _detect_pricing_changes old new ts → category c = "pricing".
Proof.
  rewrite elem_of_pricing_changes. intros (key & H).
  rewrite pricing_changes_for_key_cases in H.
  destruct (pricing old !! key), (pricing new !! key); try case_decide as Hc;
    try (by apply elem_of_nil in H); by apply list_elem_of_singleton in H as ->.
Qed.

Lemma business_changes_category old new ts c :
  c ∈ _detect_business_changes old new ts → category c = "business_model".
Proof.
  rewrite business_changes_cases. intros H. case_decide as Hc;
    [by apply list_elem_of_singleton in H as -> | by apply elem_of_nil in H].
Qed.

Lemma page_changes_category old new ts c :
  c ∈ _detect_page_changes old new ts → category c = "business_model".
Proof.
  rewrite elem_of_page_changes. intros (page & H).
  rewrite page_changes_for_page_cases in H. case_decide as Hc;
    [by apply list_elem_of_singleton in H as -> | by apply elem_of_nil in H].
Qed.

Ltac part_facts Hin :=
  first
    [ pose proof (service_changes_category _ _ _ _ Hin);
      pose proof (service_changes_type _ _ _ _ Hin)
    | pose proof (pricing_changes_category _ _ _ _ Hin);
      pose proof (pricing_changes_type _ _ _ _ Hin)
    | pose proof (location_changes_category _ _ _ _ Hin);
      pose proof (location_changes_type _ _ _ _ Hin)
    | pose proof (promotion_changes_category _ _ _ _ Hin);
      pose proof (promotion_changes_type _ _ _ _ Hin)
    | pose proof (business_changes_category _ _ _ _ Hin);
      pose proof (business_changes_type _ _ _ _ Hin)
    | pose proof (page_changes_category _ _ _ _ Hin);
      pose proof (page_changes_type _ _ _ _ Hin) ].

(** Settles every [filter P part] where [P] fixes a category or a change
    type and [part] is the result of one detector. *)
Ltac settle_filters :=
  rewrite ?filter_app;
  repeat match goal with
    | |- context [filter ?P ?part] =>
        first
          [ rewrite (filter_all P part)
              by (intros ? Hin; part_facts Hin; destruct_or?; congruence)
          | rewrite (filter_none P part)
              by (intros ? Hin Hp; part_facts Hin; destruct_or?; congruence) ]
    end;
  rewrite ?app_nil_l, ?app_nil_r.

(** X1: the changes returned by [detect_changes] come grouped by category
    in the fixed order services, pricing, locations, promotions,
    business_model; inside the last group the narrative change precedes
    the page changes. *)
Theorem detect_changes_category_order old new ts changes :
  detect_changes old new ts = Return changes →
  changes = filter (λ c, category c = "services") changes
            ++ filter (λ c, category c = "pricing") changes
            ++ filter (λ c, category c = "locations") changes
            ++ filter (λ c, category c = "promotions") changes
            ++ filter (λ c, category c = "business_model") changes
  ∧ filter (λ c, category c = "business_model") changes
    = filter (λ c, change_type c = "business_model_change") changes
      ++ filter (λ c, change_type c = "website_content_change") changes.
Proof.
  unfold detect_changes. case_bool_decide as Hid; [done|].
  intros [= <-]. settle_filters. done.
Qed.

Lemma detect_changes_witness_monday :
  detect_changes examples.fixo_monday examples.fixo_tuesday examples.detection_time
  = Return examples.monday_to_tuesday.
Proof. vm_compute. reflexivity. Qed.

Lemma detect_changes_category_order_witness :
  detect_changes examples.fixo_monday examples.fixo_tuesday examples.detection_time
    = Return examples.monday_to_tuesday
  ∧ filter (λ c, category c = "business_model") examples.monday_to_tuesday
    = filter (λ c, change_type c = "business_model_change") examples.monday_to_tuesday
      ++ filter (λ c, change_type c = "website_content_change")
           examples.monday_to_tuesday.
Proof.
  split; [exact detect_changes_witness_monday|].
  exact (proj2 (detect_changes_category_order _ _ _ _ detect_changes_witness_monday)).
Defined.

(** X2: every change returned by [detect_changes] carries the company id
    of the two snapshots and the detection time, a change type that is a
    value of [ChangeType], one of the five categories, one of the three
    severities, and at least one of [old_value] and [new_value]. *)
Theorem detect_changes_well_formed old new ts changes :
  detect_changes old new ts = Return changes →
  Forall (λ c,
    change.company_id c = snapshot.company_id new
    ∧ change.company_id c = snapshot.company_id old
    ∧ change.timestamp c = ts
    ∧ (∃ t, change_type c = value t)
    ∧ category c ∈ ["services"; "pricing"; "locations"; "promotions"; "business_model"]
    ∧ severity c ∈ ["info"; "medium"; "high"]
    ∧ (is_Some (old_value c) ∨ is_Some (new_value c))) changes.
Proof.
  intros Hdc. pose proof (detect_changes_same_company _ _ _ _ Hdc) as Hid.
  apply Forall_forall. intros c Hc.
  apply (detect_changes_emitted _ _ _ _ Hdc) in Hc. rewrite Hid.
  destruct Hc; (split_and!;
    [ reflexivity | reflexivity | reflexivity
    | eexists; reflexivity
    | simpl; repeat constructor
    | simpl; repeat constructor
    | first [left; by eexists | right; by eexists] ]).
Qed.

Lemma detect_changes_well_formed_witness :
  detect_changes examples.fixo_monday examples.fixo_tuesday examples.detection_time
    = Return examples.monday_to_tuesday
  ∧ Forall (λ c, severity c ∈ ["info"; "medium"; "high"]) examples.monday_to_tuesday.
Proof.
  split; [exact detect_changes_witness_monday|].
  eapply Forall_impl;
    [exact (detect_changes_well_formed _ _ _ _ detect_changes_witness_monday)|].
  intros c H. exact (proj1 (proj2 (proj2 (proj2 (proj2 (proj2 H)))))).
Defined.

(** *** No change is reported twice *)

Local Instance service_added_inj cid ts : Inj (=) (=) (service_added cid ts).
Proof. intros x y H. by injection H. Qed.
Local Instance service_removed_inj cid ts : Inj (=) (=) (service_removed cid ts).
Proof. intros x y H. by injection H. Qed.
Local Instance location_added_inj cid ts : Inj (=) (=) (location_added cid ts).
Proof. intros x y H. by injection H. Qed.
Local Instance location_removed_inj cid ts : Inj (=) (=) (location_removed cid ts).
Proof. intros x y H. by injection H. Qed.
Local Instance promotion_new_inj cid ts : Inj (=) (=) (promotion_new cid ts).
Proof. intros x y H. by injection H. Qed.
Local Instance promotion_expired_inj cid ts : Inj (=) (=) (promotion_expired cid ts).
Proof. intros x y H. by injection H. Qed.

Lemma NoDup_difference_changes (f g : string → Change) (l1 l2 : list string) :
  Inj (=) (=) f → Inj (=) (=) g → (∀ x y, f x ≠ g y) →
  NoDup ((f <$> elements ((list_to_set l1 : gset string) ∖ list_to_set l2))
         ++ (g <$> elements ((list_to_set l2 : gset string) ∖ list_to_set l1))).
Proof.
  intros Hf Hg Hfg. apply NoDup_app. split_and!.
  - apply (NoDup_fmap_2 f), NoDup_elements.
  - intros c (x & -> & _)%list_elem_of_fmap (y & E & _)%list_elem_of_fmap.
    by apply (Hfg x y).
  - apply (NoDup_fmap_2 g), NoDup_elements.
Qed.

Lemma pricing_changes_for_key_inj old new ts key1 key2 c :
  c ∈ pricing_changes_for_key old new ts key1 →
  c ∈ pricing_changes_for_key old new ts key2 → key1 = key2.
Proof.
  rewrite !pricing_changes_for_key_cases. intros H1 H2.
  destruct (pricing old !! key1) as [a1|], (pricing new !! key1) as [b1|];
    try case_decide as Hc1; try (by apply elem_of_nil in H1);
    apply list_elem_of_singleton in H1 as ->;
    destruct (pricing old !! key2) as [a2|], (pricing new !! key2) as [b2|];
    try case_decide as Hc2; try (by apply elem_of_nil in H2);
    apply list_elem_of_singleton in H2; unfold_changes; simplify_eq; try done.
  match goal with E : _ +:+ _ = _ +:+ _ |- _ => apply string_app_inv_r in E end.
  by simplify_eq.
Qed.

Lemma NoDup_pricing_changes old new ts : NoDup (_detect_pricing_changes old new ts).
Proof.
  unfold _detect_pricing_changes. apply NoDup_bind.
  - intros key1 key2 c _ _. apply pricing_changes_for_key_inj.
  - intros key _. rewrite pricing_changes_for_key_cases.
    destruct (pricing old !! key), (pricing new !! key); try case_decide;
      first [apply NoDup_nil_2 | apply NoDup_singleton].
  - apply NoDup_elements.
Qed.

Lemma NoDup_page_changes old new ts : NoDup (_detect_page_changes old new ts).
Proof.
  unfold _detect_page_changes. apply NoDup_bind.
  - intros page1 page2 c _ _. rewrite !page_changes_for_page_cases.
    intros H1. case_decide as Hc1; [|by apply elem_of_nil in H1].
    apply list_elem_of_singleton in H1 as ->.
    intros H2. case_decide as Hc2; [|by apply elem_of_nil in H2].
    apply list_elem_of_singleton in H2.
    unfold_changes. simplify_eq.
    repeat match goal with
           | E : _ +:+ _ = _ +:+ _ |- _ => apply string_app_inv_r in E
           end.
    by simplify_eq.
  - intros page _. rewrite page_changes_for_page_cases.
    case_decide; first [apply NoDup_nil_2 | apply NoDup_singleton].
  - apply NoDup_elements.
Qed.

Lemma NoDup_service_changes old new ts : NoDup (_detect_service_changes old new ts).
Proof.
  apply NoDup_difference_changes; [apply _..|]. intros x y. discriminate.
Qed.

Lemma NoDup_location_changes old new ts : NoDup (_detect_location_changes old new ts).
Proof.
  apply NoDup_difference_changes; [apply _..|]. intros x y. discriminate.
Qed.

Lemma NoDup_promotion_changes old new ts : NoDup (_detect_promotion_changes old new ts).
Proof.
  apply NoDup_difference_changes; [apply _..|]. intros x y. discriminate.
Qed.

Lemma NoDup_business_changes old new ts : NoDup (_detect_business_changes old new ts).
Proof.
  rewrite business_changes_cases.
  case_decide; first [apply NoDup_nil_2 | apply NoDup_singleton].
Qed.

Ltac disjoint_parts :=
  intros ? Hin Hin'; rewrite ?elem_of_app in Hin'; destruct_or?;
  part_facts Hin; part_facts Hin'; destruct_or?; congruence.

Ltac split_parts := apply NoDup_app; split_and!; [ | disjoint_parts | ].

(** X3: [detect_changes] never reports the same change twice: the list
    it returns has no duplicates. *)
Theorem detect_changes_NoDup old new ts changes :
  detect_changes old new ts = Return changes → NoDup changes.
Proof.
  unfold detect_changes. case_bool_decide as Hid; [done|]. intros [= <-].
  split_parts; [apply NoDup_service_changes|].
  split_parts; [apply NoDup_pricing_changes|].
  split_parts; [apply NoDup_location_changes|].
  split_parts; [apply NoDup_promotion_changes|].
  split_parts; [apply NoDup_business_changes|].
  apply NoDup_page_changes.
Qed.

Lemma detect_changes_NoDup_witness :
  detect_changes examples.fixo_monday examples.fixo_tuesday examples.detection_time
    = Return examples.monday_to_tuesday
  ∧ NoDup examples.monday_to_tuesday.
Proof.
  split; [exact detect_changes_witness_monday|].
  exact (detect_changes_NoDup _ _ _ _ detect_changes_witness_monday).
Defined.

(** ** Change detector: what it reads *)

Lemma list_to_set_same (l l' : list string) :
  (∀ x, x ∈ l ↔ x ∈ l') → (list_to_set l : gset string) = list_to_set l'.
Proof. intros H. apply set_eq. intros x. by rewrite !elem_of_list_to_set. Qed.

Lemma bind_ext_all {A B} (f g : A → list B) (l : list A) :
  (∀ x, f x = g x) → l ≫= f = l ≫= g.
Proof.
  intros Hfg. induction l as [|x l IH]; [done|]. by rewrite !bind_cons, Hfg, IH.
Qed.

Lemma detect_changes_same_facts_l old old' new ts :
  detector_views.same_facts old old' →
  detect_changes old new ts = detect_changes old' new ts.
Proof.
  intros (Hid & Hs & Hl & Hp & Hpr & Hh & Hv & Hr).
  unfold detect_changes. rewrite Hid. case_bool_decide; [done|]. f_equal.
  assert (_detect_service_changes old new ts = _detect_service_changes old' new ts) as ->.
  { unfold _detect_service_changes. by rewrite (list_to_set_same _ _ Hs). }
  assert (_detect_location_changes old new ts = _detect_location_changes old' new ts) as ->.
  { unfold _detect_location_changes. by rewrite (list_to_set_same _ _ Hl). }
  assert (_detect_promotion_changes old new ts = _detect_promotion_changes old' new ts)
    as ->.
  { unfold _detect_promotion_changes. by rewrite (list_to_set_same _ _ Hp). }
  assert (_detect_pricing_changes old new ts = _detect_pricing_changes old' new ts) as ->.
  { unfold _detect_pricing_changes, pricing_all_keys. rewrite Hpr.
    apply bind_ext_all. intros key. unfold pricing_changes_for_key. by rewrite Hpr. }
  assert (_detect_page_changes old new ts = _detect_page_changes old' new ts) as ->.
  { unfold _detect_page_changes, page_all_pages. rewrite Hr.
    apply bind_ext_all. intros page. unfold page_changes_for_page. by rewrite Hr. }
  assert (_detect_business_changes old new ts = _detect_business_changes old' new ts)
    as ->.
  { unfold _detect_business_changes. by rewrite Hh, Hv. }
  done.
Qed.

Lemma detect_changes_same_facts_r old new new' ts :
  detector_views.same_facts new new' →
  detect_changes old new ts = detect_changes old new' ts.
Proof.
  intros (Hid & Hs & Hl & Hp & Hpr & Hh & Hv & Hr).
  unfold detect_changes. rewrite Hid. case_bool_decide; [done|]. f_equal.
  assert (_detect_service_changes old new ts = _detect_service_changes old new' ts) as ->.
  { unfold _detect_service_changes. by rewrite (list_to_set_same _ _ Hs), Hid. }
  assert (_detect_location_changes old new ts = _detect_location_changes old new' ts) as ->.
  { unfold _detect_location_changes. by rewrite (list_to_set_same _ _ Hl), Hid. }
  assert (_detect_promotion_changes old new ts = _detect_promotion_changes old new' ts)
    as ->.
  { unfold _detect_promotion_changes. by rewrite (list_to_set_same _ _ Hp), Hid. }
  assert (_detect_pricing_changes old new ts = _detect_pricing_changes old new' ts) as ->.
  { unfold _detect_pricing_changes, pricing_all_keys. rewrite Hpr.
    apply bind_ext_all. intros key. unfold pricing_changes_for_key. by rewrite Hpr, Hid. }
  assert (_detect_page_changes old new ts = _detect_page_changes old new' ts) as ->.
  { unfold _detect_page_changes, page_all_pages. rewrite Hr.
    apply bind_ext_all. intros page. unfold page_changes_for_page. by rewrite Hr, Hid. }
  assert (_detect_business_changes old new ts = _detect_business_changes old new' ts)
    as ->.
  { unfold _detect_business_changes. by rewrite Hh, Hv, Hid. }
  done.
Qed.

(** X4: [detect_changes] reads of a snapshot only its company id, the
    elements of [services], [locations] and [promotions] (not their order
    or multiplicity), [pricing], [raw_pages] and the two narrative
    entries of [business_info]: the capture timestamp, [metadata] and
    the other entries of [business_info] never influence the result.
    Two runs on snapshots that agree on these raise the same exception,
    or return the same changes up to the order in which the sets were
    iterated. *)
Theorem detect_changes_reads_facts old old' new new' ts :
  detector_views.same_facts old old' → detector_views.same_facts new new' →
  match detect_changes old new ts, detect_changes old' new' ts with
  | Return changes, Return changes' => changes ≡ₚ changes'
  | Raise e, Raise e' => e = e'
  | _, _ => False
  end.
Proof.
  intros Ho Hn.
  rewrite (detect_changes_same_facts_l old old'), (detect_changes_same_facts_r _ new new')
    by done.
  by destruct (detect_changes old' new' ts).
Qed.

Lemma detect_changes_reads_facts_witness :
  detector_views.same_facts examples.fixo_monday detector_views.fixo_monday_again
  ∧ detector_views.same_facts examples.fixo_tuesday examples.fixo_tuesday
  ∧ match detect_changes examples.fixo_monday examples.fixo_tuesday
            examples.detection_time,
          detect_changes detector_views.fixo_monday_again examples.fixo_tuesday
            examples.detection_time with
    | Return changes, Return changes' => changes ≡ₚ changes'
    | Raise e, Raise e' => e = e'
    | _, _ => False
    end.
Proof.
  assert (H1 : detector_views.same_facts examples.fixo_monday
                 detector_views.fixo_monday_again).
  { unfold detector_views.same_facts. split_and!; try reflexivity.
    intros x. simpl. rewrite !elem_of_cons, !elem_of_nil. tauto. }
  assert (H2 : detector_views.same_facts examples.fixo_tuesday examples.fixo_tuesday).
  { unfold detector_views.same_facts. by split_and!. }
  split; [exact H1|]. split; [exact H2|].
  exact (detect_changes_reads_facts _ _ _ _ examples.detection_time H1 H2).
Defined.

(** ** Change detector: when nothing is reported *)

Lemma no_changes_iff_none_emitted old new ts changes :
  detect_changes old new ts = Return changes →
  changes = [] ↔ ∀ c, ¬ emitted old new ts c.
Proof.
  intros Hdc. pose proof (detect_changes_emitted _ _ _ _ Hdc) as Hem. split.
  - intros -> c Hc. apply Hem in Hc. by apply elem_of_nil in Hc.
  - intros Hnone. destruct changes as [|c rest]; [done|].
    exfalso. apply (Hnone c), Hem. left.
Qed.

(** X5: for two snapshots of one company, [detect_changes] returns the
    empty list exactly when they agree on everything compared: the same
    services, locations and promotions as sets, the same pricing mapping,
    and no narrative hash or page hash that is non-empty on both sides
    and different.  So any difference in these facts is reported. *)
Theorem detect_changes_empty_iff old new ts changes :
  detect_changes old new ts = Return changes →
  changes = [] ↔
    (∀ x, x ∈ services old ↔ x ∈ services new)
    ∧ (∀ x, x ∈ locations old ↔ x ∈ locations new)
    ∧ (∀ x, x ∈ promotions old ↔ x ∈ promotions new)
    ∧ pricing old = pricing new
    ∧ ¬ (about_hash old ≠ "" ∧ about_hash new ≠ "" ∧ about_hash old ≠ about_hash new)
    ∧ ∀ page, ¬ (page_hash old page ≠ "" ∧ page_hash new page ≠ ""
                 ∧ page_hash old page ≠ page_hash new page).
Proof.
  intros Hdc. rewrite (no_changes_iff_none_emitted _ _ _ _ Hdc). split.
  - intros Hnone.
    assert (Hsets : ∀ (l l' : list string)
              (added removed : string → Change),
              (∀ x, x ∈ l' → x ∉ l → emitted old new ts (added x)) →
              (∀ x, x ∈ l → x ∉ l' → emitted old new ts (removed x)) →
              ∀ x, x ∈ l ↔ x ∈ l').
    { intros l l' added removed Ha Hr x. split; intros Hx.
      - destruct (decide (x ∈ l')) as [|Hn]; [done|].
        exfalso. eapply Hnone, Hr; done.
      - destruct (decide (x ∈ l)) as [|Hn]; [done|].
        exfalso. eapply Hnone, Ha; done. }
    split_and!.
    + apply (Hsets _ _ (service_added (snapshot.company_id new) ts)
               (service_removed (snapshot.company_id new) ts));
        intros; by constructor.
    + apply (Hsets _ _ (location_added (snapshot.company_id new) ts)
               (location_removed (snapshot.company_id new) ts));
        intros; by constructor.
    + apply (Hsets _ _ (promotion_new (snapshot.company_id new) ts)
               (promotion_expired (snapshot.company_id new) ts));
        intros; by constructor.
    + apply map_eq. intros key.
      destruct (pricing old !! key) as [a|] eqn:Ho, (pricing new !! key) as [b|] eqn:Hn;
        [|exfalso..|done].
      * destruct (decide (a = b)) as [->|Hab]; [done|].
        exfalso. eapply Hnone. by apply (emitted_price_altered _ _ _ key a b).
      * eapply Hnone. by apply (emitted_price_removed _ _ _ key a).
      * eapply Hnone. by apply (emitted_price_registered _ _ _ key b).
    + intros (? & ? & ?). eapply Hnone. by apply emitted_business_model_change.
    + intros page (? & ? & ?). eapply Hnone.
      by apply (emitted_website_content_change _ _ _ page).
  - intros (Hs & Hl & Hp & Hpr & Hb & Hw) c Hc.
    destruct Hc as [x H1 H2|x H1 H2|key v H1 H2|key v H1 H2|key a b H1 H2 H3
                   |x H1 H2|x H1 H2|x H1 H2|x H1 H2|H1 H2 H3|page H1 H2 H3].
    + by apply H2, Hs.
    + by apply H2, Hs.
    + rewrite Hpr in H1. congruence.
    + rewrite Hpr in H1. congruence.
    + rewrite Hpr in H1. congruence.
    + by apply H2, Hl.
    + by apply H2, Hl.
    + by apply H2, Hp.
    + by apply H2, Hp.
    + by apply Hb.
    + by apply (Hw page).
Qed.

Lemma detect_changes_empty_iff_witness :
  detect_changes examples.fixo_monday detector_views.fixo_monday_again
    examples.detection_time = Return []
  ∧ pricing examples.fixo_monday = pricing detector_views.fixo_monday_again.
Proof.
  assert (H : detect_changes examples.fixo_monday detector_views.fixo_monday_again
                examples.detection_time = Return []) by (vm_compute; reflexivity).
  split; [exact H|].
  destruct (proj1 (detect_changes_empty_iff _ _ _ _ H) eq_refl) as (_ & _ & _ & Hp & _).
  exact Hp.
Defined.

(** ** Change types and their labels *)

(** X6: [ChangeType(v)] inverts [value]: it returns the member [t] exactly
    when [v] is the value of [t] (two members never share a value);
    [label_pt] has its own label for every member, never falling back to
    the raw value; so for every change returned by [detect_changes],
    [type_label] is the label of its change type, while for a
    [change_type] that is not a member's value [type_label] returns the
    string unchanged. *)
Theorem type_label_of_detected old new ts changes :
  detect_changes old new ts = Return changes →
  (∀ t, change_labels.ChangeType_of (value t) = Some t)
  ∧ (∀ v t, change_labels.ChangeType_of v = Some t → value t = v)
  ∧ (∀ t, change_labels.label_pt t ≠ value t
          ∧ change_labels.labels !! value t = Some (change_labels.label_pt t))
  ∧ Forall (λ c, ∃ t, change_type c = value t
                      ∧ change_labels.type_label c = change_labels.label_pt t
                      ∧ change_labels.type_label c ≠ change_type c) changes
  ∧ (∀ c, (∀ t, change_type c ≠ value t) →
          change_labels.type_label c = change_type c).
Proof.
  intros Hdc.
  assert (H1 : ∀ t, change_labels.ChangeType_of (value t) = Some t)
    by (by intros []).
  assert (H2 : ∀ v t, change_labels.ChangeType_of v = Some t → value t = v).
  { intros v t. unfold change_labels.ChangeType_of.
    destruct (list_find _ _) as [[i t']|] eqn:E; [|done].
    intros [= <-]. by apply list_find_Some in E as (_ & E & _). }
  assert (H3 : ∀ t, change_labels.label_pt t ≠ value t
                    ∧ change_labels.labels !! value t = Some (change_labels.label_pt t))
    by (by intros []).
  split_and!; [done..| |].
  - apply Forall_forall. intros c Hc.
    apply (detect_changes_emitted _ _ _ _ Hdc) in Hc.
    assert (∃ t, change_type c = value t) as [t Ht] by (destruct Hc; by eexists).
    exists t. unfold change_labels.type_label. rewrite Ht, H1.
    split_and!; [done..|]. apply H3.
  - intros c Hno. unfold change_labels.type_label.
    destruct (change_labels.ChangeType_of (change_type c)) as [t|] eqn:E; [|done].
    apply H2 in E. by destruct (Hno t).
Qed.

Lemma type_label_of_detected_witness :
  detect_changes examples.fixo_monday examples.fixo_tuesday examples.detection_time
    = Return examples.monday_to_tuesday
  ∧ change_labels.type_label <$> examples.monday_to_tuesday
    = ["Novo Serviço"; "Serviço Removido"; "Alteração de Preço"; "Nova Localização";
       "Promoção Expirada"; "Mudança no Modelo de Negócio";
       "Alteração de Conteúdo no Website"]
  ∧ Forall (λ c, ∃ t, change_type c = value t
                      ∧ change_labels.type_label c = change_labels.label_pt t
                      ∧ change_labels.type_label c ≠ change_type c)
      examples.monday_to_tuesday.
Proof.
  split; [exact detect_changes_witness_monday|]. split; [by vm_compute|].
  exact (proj1 (proj2 (proj2 (proj2
    (type_label_of_detected _ _ _ _ detect_changes_witness_monday))))).
Defined.

(** ** Storage: file names *)

Lemma string_length_cons (a : Ascii.ascii) (s : string) :
  String.length (String a s) = S (String.length s).
Proof. reflexivity. Qed.

Lemma pad_length (w n : nat) : String.length (pad w n) = w.
Proof.
  revert n. induction w as [|w IH]; intros n; [done|].
  change (pad (S w) n) with (pad w (n `div` 10) +:+ String (digit n) "").
  rewrite string_length_app, IH, string_length_cons. simpl. lia.
Qed.

Lemma strftime_length (d : datetime) : String.length (strftime_Ymd_HMS d) = 15.
Proof.
  unfold strftime_Ymd_HMS.
  rewrite !string_length_app, !pad_length, string_length_cons. reflexivity.
Qed.

(** X7: the file names [save_snapshot] builds for one company are ordered
    as the clock readings are, to the second: a name is smaller exactly
    when its reading is earlier, two readings give the same name exactly
    when they fall in the same second, every name has the length of the
    company id plus 21 characters and, for a company id that the glob
    pattern reads literally, matches the pattern the storage lists
    with. *)
Theorem snapshot_filename_order (cid : string) (a b : datetime) :
  valid a → valid b →
  (String.compare (snapshot_filename cid a) (snapshot_filename cid b) = Lt ↔ before a b)
  ∧ (snapshot_filename cid a = snapshot_filename cid b ↔ compare_seconds a b = Eq)
  ∧ String.length (snapshot_filename cid a) = String.length cid + 21
  ∧ (glob_literal cid = true → glob_match cid (snapshot_filename cid a) = true).
Proof.
  intros Ha Hb. split_and!.
  - by rewrite snapshot_filename_compare.
  - split.
    + intros E. rewrite <- (snapshot_filename_compare cid a b), E by done.
      apply string_compare_refl.
    + by apply snapshot_filename_same_second.
  - unfold snapshot_filename.
    rewrite !string_length_app, strftime_length. simpl. lia.
  - intros _. apply glob_match_snapshot_filename.
Qed.

Lemma snapshot_filename_order_witness :
  valid (examples.reading 4 120) ∧ valid (examples.reading 9 870)
  ∧ (String.compare (snapshot_filename "fixo" (examples.reading 4 120))
       (snapshot_filename "fixo" (examples.reading 9 870)) = Lt
     ↔ before (examples.reading 4 120) (examples.reading 9 870)).
Proof.
  assert (Ha : valid (examples.reading 4 120)) by (unfold valid; simpl; lia).
  assert (Hb : valid (examples.reading 9 870)) by (unfold valid; simpl; lia).
  split; [exact Ha|]. split; [exact Hb|].
  exact (proj1 (snapshot_filename_order "fixo" _ _ Ha Hb)).
Defined.

(** ** Storage: listing and reading *)

Lemma snapshot_files_stored (cid : string) (dir : gmap string CompanySnapshot) :
  Forall (λ f, is_Some (dir !! f)) (snapshot_files cid dir).
Proof. apply Forall_forall. by intros f [? _]%elem_of_snapshot_files. Qed.

Lemma omap_lookup_total {V} (d : gmap string V) (names : list string) (i : nat) :
  Forall (λ f, is_Some (d !! f)) names →
  omap (λ f, d !! f) names !! i = names !! i ≫= λ f, d !! f.
Proof.
  intros H. revert i. induction H as [|f names [v Hv] _ IH]; intros i; [done|].
  cbn [omap list_omap]. rewrite Hv. destruct i as [|i]; simpl; [by rewrite Hv|].
  apply IH.
Qed.

Lemma omap_lookup_length {V} (d : gmap string V) (names : list string) :
  Forall (λ f, is_Some (d !! f)) names →
  length (omap (λ f, d !! f) names) = length names.
Proof.
  induction 1 as [|f names [v Hv] _ IH]; [done|].
  cbn [omap list_omap]. rewrite Hv. simpl. by rewrite IH.
Qed.

Lemma get_previous_snapshot_value (cid : string) (fs : files) :
  (get_previous_snapshot cid fs).1
  = match snapshot_files cid (directory cid fs) with
    | _ :: f :: _ => directory cid fs !! f
    | _ => None
    end.
Proof.
  unfold get_previous_snapshot. rewrite directory_company_dir.
  by destruct (snapshot_files _ _) as [|? [|? ?]].
Qed.

Lemma get_previous_snapshot_state (cid : string) (fs : files) :
  (get_previous_snapshot cid fs).2 = _company_dir cid fs.
Proof.
  unfold get_previous_snapshot. by destruct (snapshot_files _ _) as [|? [|? ?]].
Qed.

Lemma omap_lookup_Forall2 {V} (d : gmap string V) (names : list string) :
  Forall (λ f, is_Some (d !! f)) names →
  Forall2 (λ v f, d !! f = Some v) (omap (λ f, d !! f) names) names.
Proof.
  induction 1 as [|f names [v Hv] _ IH]; [constructor|].
  cbn [omap list_omap]. rewrite Hv. by constructor.
Qed.

(** X8: the three queries agree with each other.  [get_all_snapshots]
    returns exactly the snapshots held by the listed files, one per
    file and in the order of the listing, which is by strictly
    decreasing file name (newest file first); [get_latest_snapshot]
    returns its first element and [get_previous_snapshot] its second,
    [None] when there is none (fewer than one, respectively two, listed
    files); and all three leave the same state, the one with the
    company's directory created. *)
Theorem queries_agree (cid : string) (fs : files) :
  let all := (get_all_snapshots cid fs).1 in
  let listing := snapshot_files cid (directory cid fs) in
  Forall2 (λ s f, directory cid fs !! f = Some s) all listing
  ∧ StronglySorted (λ a b, String.compare b a = Lt) listing
  ∧ length all = length listing
  ∧ (get_latest_snapshot cid fs).1 = all !! 0
  ∧ (get_previous_snapshot cid fs).1 = all !! 1
  ∧ ((get_previous_snapshot cid fs).1 = None ↔ length all < 2)
  ∧ ((get_latest_snapshot cid fs).1 = None ↔ all = [])
  ∧ (get_all_snapshots cid fs).2 = _company_dir cid fs
  ∧ (get_previous_snapshot cid fs).2 = _company_dir cid fs
  ∧ (get_latest_snapshot cid fs).2 = _company_dir cid fs.
Proof.
  intros all listing. subst all listing.
  pose proof (snapshot_files_stored cid (directory cid fs)) as Hstored.
  assert (Hlen : length (get_all_snapshots cid fs).1
                 = length (snapshot_files cid (directory cid fs))).
  { rewrite get_all_snapshots_value. by apply omap_lookup_length. }
  assert (Hlatest : (get_latest_snapshot cid fs).1 = (get_all_snapshots cid fs).1 !! 0).
  { rewrite get_latest_snapshot_value, get_all_snapshots_value, omap_lookup_total by done.
    by destruct (snapshot_files _ _). }
  assert (Hprev : (get_previous_snapshot cid fs).1 = (get_all_snapshots cid fs).1 !! 1).
  { rewrite get_previous_snapshot_value, get_all_snapshots_value, omap_lookup_total
      by done.
    by destruct (snapshot_files _ _) as [|? [|? ?]]. }
  split_and!; [ | |done|done|done| | |done| |].
  - rewrite get_all_snapshots_value. by apply omap_lookup_Forall2.
  - apply snapshot_files_strict.
  - rewrite Hprev, lookup_ge_None. lia.
  - rewrite Hlatest. destruct (get_all_snapshots cid fs).1; simpl; split; done.
  - apply get_previous_snapshot_state.
  - apply get_latest_snapshot_state.
Qed.

(** ** Storage: pruning under any limit *)

(** The number of listed files pruning keeps: the limit when it is not
    negative, else all but the last [-limit]. *)
Lemma slice_from_drop {A} (max : Z) (l : list A) :
  (Z.of_nat (length l) > max)%Z ∨ (0 ≤ max)%Z →
  slice_from max l
  = drop (Z.to_nat (if decide (0 ≤ max)%Z then max else Z.of_nat (length l) + max)%Z) l.
Proof. intros _. unfold slice_from. by case_decide. Qed.

Lemma directory_cleanup_any (max : Z) (c cid : string) (fs : files) (f : string) :
  let listing := snapshot_files cid (directory cid fs) in
  let kept := Z.to_nat (if decide (0 ≤ max)%Z then max
                        else Z.of_nat (length listing) + max)%Z in
  directory c (_cleanup_old_snapshots max cid fs) !! f
  = if decide (c = cid ∧ f ∈ drop kept listing) then None else directory c fs !! f.
Proof.
  intros listing kept. unfold _cleanup_old_snapshots. rewrite directory_company_dir.
  fold listing. case_decide as Hlen.
  - rewrite directory_unlink_all, slice_from_drop, directory_company_dir by (by left).
    fold kept. destruct (decide (c = cid)) as [->|Hne].
    + rewrite lookup_delete_all. repeat case_decide; try done; tauto.
    + rewrite directory_company_dir. rewrite decide_False by tauto. done.
  - rewrite directory_company_dir.
    assert (length listing ≤ kept) by (subst kept; case_decide; lia).
    rewrite drop_ge by done. rewrite decide_False; [done|].
    intros [_ H']. by apply elem_of_nil in H'.
Qed.

Lemma snapshot_files_cleanup_any (max : Z) (cid : string) (fs : files) :
  let listing := snapshot_files cid (directory cid fs) in
  let kept := Z.to_nat (if decide (0 ≤ max)%Z then max
                        else Z.of_nat (length listing) + max)%Z in
  snapshot_files cid (directory cid (_cleanup_old_snapshots max cid fs))
  = take kept listing.
Proof.
  intros listing kept. apply snapshot_files_unique.
  - apply StronglySorted_take, snapshot_files_sorted.
  - pose proof (snapshot_files_NoDup cid (directory cid fs)) as Hn.
    rewrite <- (take_drop kept) in Hn. by apply NoDup_app in Hn as (? & _ & _).
  - intros f.
    rewrite elem_of_take_drop_NoDup by apply snapshot_files_NoDup.
    rewrite directory_cleanup_any. fold listing. fold kept.
    unfold listing at 1. rewrite elem_of_snapshot_files. case_decide as H.
    + split; [tauto|]. by intros [[? ?] _].
    + split; [tauto|]. intros [Hs Hg]. split; [done|]. intros Hd. apply H. done.
Qed.

Lemma directory_save_snapshot_any (max : Z) (s : CompanySnapshot) (now : datetime)
    (fs : files) (f : string) :
  let cid := snapshot.company_id s in
  let written := <[snapshot_filename cid now := s]> (directory cid fs) in
  let listing := snapshot_files cid written in
  let kept := Z.to_nat (if decide (0 ≤ max)%Z then max
                        else Z.of_nat (length listing) + max)%Z in
  directory cid (save_snapshot max s now fs).2 !! f
  = if decide (f ∈ drop kept listing) then None else written !! f.
Proof.
  intros cid written listing kept. unfold save_snapshot. simpl. fold cid.
  rewrite directory_cleanup_any, !directory_save, !directory_company_dir.
  rewrite (decide_True (P := cid = cid)) by done. fold written. fold listing. fold kept.
  repeat case_decide; try done; tauto.
Qed.

Lemma snapshot_files_save_snapshot_any (max : Z) (s : CompanySnapshot) (now : datetime)
    (fs : files) :
  let cid := snapshot.company_id s in
  let written := <[snapshot_filename cid now := s]> (directory cid fs) in
  let listing := snapshot_files cid written in
  let kept := Z.to_nat (if decide (0 ≤ max)%Z then max
                        else Z.of_nat (length listing) + max)%Z in
  snapshot_files cid (directory cid (save_snapshot max s now fs).2) = take kept listing.
Proof.
  intros cid written listing kept. unfold save_snapshot. simpl. fold cid.
  rewrite snapshot_files_cleanup_any, !directory_save, !directory_company_dir.
  by rewrite !(decide_True (P := cid = cid)) by done.
Qed.

(** X9: after every [save_snapshot] under a limit [max ≥ 0] at most [max]
    snapshot files are listed for the company, whatever was stored before
    and whatever the clock reads; [get_all_snapshots] then returns at
    most [max] snapshots. *)
Theorem save_snapshot_bounded (max : Z) (s : CompanySnapshot) (now : datetime)
    (fs : files) :
  (0 ≤ max)%Z →
  let cid := snapshot.company_id s in
  let fs' := (save_snapshot max s now fs).2 in
  (Z.of_nat (length (snapshot_files cid (directory cid fs'))) ≤ max)%Z
  ∧ (Z.of_nat (length (get_all_snapshots cid fs').1) ≤ max)%Z.
Proof.
  intros Hmax cid fs'. subst cid fs'.
  assert (H : (Z.of_nat (length (snapshot_files (snapshot.company_id s)
                 (directory (snapshot.company_id s) (save_snapshot max s now fs).2)))
               ≤ max)%Z).
  { rewrite snapshot_files_save_snapshot_any, decide_True by done.
    rewrite length_take. lia. }
  split; [done|].
  rewrite get_all_snapshots_value, omap_lookup_length by apply snapshot_files_stored.
  done.
Qed.

Lemma save_snapshot_bounded_witness :
  (0 ≤ 2)%Z
  ∧ (Z.of_nat (length (get_all_snapshots "fixo"
        (save_snapshot 2 examples.fixo_monday (examples.reading 9 870)
           (save_all 90 [(examples.fixo_monday, examples.reading 4 120);
                         (examples.fixo_tuesday, examples.reading 5 480);
                         (examples.fixo_monday, examples.reading 6 870)] ∅)).2).1)
     ≤ 2)%Z.
Proof.
  assert (H : (0 ≤ 2)%Z) by lia.
  split; [exact H|].
  exact (proj2 (save_snapshot_bounded 2 examples.fixo_monday (examples.reading 9 870)
                  _ H)).
Defined.

(** X10: a limit that is not positive empties or shrinks the history.
    Under the limit 0 every listed file is deleted after a save
    ([files[0:]] is the whole listing), the one just written included, so
    [get_latest_snapshot] then returns [None].  Under a negative limit
    [-k] each save deletes the [k] oldest listed files after writing (all
    of them when there are fewer), because [files[-k:]] is the tail of
    the listing. *)
Theorem save_snapshot_nonpositive_limit (max : Z) (s : CompanySnapshot) (now : datetime)
    (fs : files) :
  (max ≤ 0)%Z →
  let cid := snapshot.company_id s in
  let written := <[snapshot_filename cid now := s]> (directory cid fs) in
  let listing := snapshot_files cid written in
  let fs' := (save_snapshot max s now fs).2 in
  (max = 0%Z →
     snapshot_files cid (directory cid fs') = []
     ∧ (get_latest_snapshot cid fs').1 = None
     ∧ (get_all_snapshots cid fs').1 = [])
  ∧ (max ≠ 0%Z →
       snapshot_files cid (directory cid fs')
         = take (length listing - Z.to_nat (- max)) listing
       ∧ (length listing ≤ Z.to_nat (- max) → (get_latest_snapshot cid fs').1 = None)).
Proof.
  intros Hmax cid written listing fs'.
  pose proof (snapshot_files_save_snapshot_any max s now fs) as Hfiles.
  cbv zeta in Hfiles. fold cid written listing fs' in Hfiles. fold cid fs' in Hfiles.
  split.
  - intros ->. rewrite decide_True in Hfiles by done. simpl in Hfiles.
    rewrite get_latest_snapshot_value, get_all_snapshots_value, Hfiles. done.
  - intros Hne. rewrite decide_False in Hfiles by lia.
    assert (Hfiles' : snapshot_files cid (directory cid fs')
                      = take (length listing - Z.to_nat (- max)) listing).
    { rewrite Hfiles. f_equal. lia. }
    split; [done|]. intros Hfew. rewrite get_latest_snapshot_value, Hfiles'.
    replace (length listing - Z.to_nat (- max)) with 0 by lia. done.
Qed.

Lemma save_snapshot_nonpositive_limit_witness :
  (0 ≤ 0)%Z
  ∧ (get_latest_snapshot "fixo"
       (save_snapshot 0 examples.fixo_monday (examples.reading 9 870) ∅).2).1 = None.
Proof.
  assert (H : (0 ≤ 0)%Z) by lia.
  split; [exact H|].
  exact (proj1 (proj2 (proj1 (save_snapshot_nonpositive_limit 0 examples.fixo_monday
                                (examples.reading 9 870) ∅ H) eq_refl))).
Defined.

(** ** Storage: what a save leaves alone *)

Lemma elem_of_drop_list {A} (k : nat) (l : list A) (x : A) : x ∈ drop k l → x ∈ l.
Proof. intros H. rewrite <- (take_drop k l). apply elem_of_app. by right. Qed.

(** X11: [save_snapshot] deletes and modifies nothing but the company's
    own snapshot files: a file of the company's directory whose name does
    not match [{company_id}_*.json] keeps its content under every limit,
    and so does every file of every other directory.  The company id is
    one that the glob pattern reads literally. *)
Theorem save_snapshot_other_files (max : Z) (s : CompanySnapshot) (now : datetime)
    (fs : files) :
  glob_literal (snapshot.company_id s) = true →
  let cid := snapshot.company_id s in
  let fs' := (save_snapshot max s now fs).2 in
  (∀ f, glob_match cid f = false → directory cid fs' !! f = directory cid fs !! f)
  ∧ (∀ c f, c ≠ cid → directory c fs' !! f = directory c fs !! f).
Proof.
  intros _ cid fs'. subst cid fs'. split.
  - intros f Hno. rewrite directory_save_snapshot_any. case_decide as Hin.
    + assert (Hf : f ∈ snapshot_files (snapshot.company_id s)
                     (<[snapshot_filename (snapshot.company_id s) now := s]>
                        (directory (snapshot.company_id s) fs))).
      { eapply elem_of_drop_list. exact Hin. }
      apply elem_of_snapshot_files in Hf as [_ Hf]. congruence.
    + rewrite lookup_insert_ne; [done|]. intros <-.
      rewrite glob_match_snapshot_filename in Hno. done.
  - intros c f Hne. by rewrite directory_save_snapshot_other.
Qed.

Lemma save_snapshot_other_files_witness :
  glob_literal (snapshot.company_id examples.fixo_tuesday) = true
  ∧ glob_match "fixo" "backup.json" = false
  ∧ directory "fixo"
      (save_snapshot 1 examples.fixo_tuesday (examples.reading 9 870)
         mixed_directory.disk).2 !! "backup.json"
    = Some examples.fixo_tuesday.
Proof.
  assert (H : glob_match (snapshot.company_id examples.fixo_tuesday) "backup.json"
              = false) by reflexivity.
  assert (H0 : glob_literal (snapshot.company_id examples.fixo_tuesday) = true)
    by (vm_compute; reflexivity).
  split; [exact H0|]. split; [exact H|].
  exact (eq_trans
           (proj1 (save_snapshot_other_files 1 examples.fixo_tuesday
                     (examples.reading 9 870) mixed_directory.disk H0) "backup.json" H)
           eq_refl).
Defined.



(** ** Storage: latest and previous after a run of saves *)

(** X13: for a company with no snapshot stored beforehand and a limit of
    at least two, after a run of saves at strictly increasing clock
    seconds that ends with the snapshots [earlier] then [last],
    [get_latest_snapshot] returns [last] and [get_previous_snapshot]
    returns [earlier].  The company id is one that the glob pattern reads
    literally. *)
Theorem latest_and_previous_after_saves (n : nat) (cid : string)
    (saves : list (CompanySnapshot * datetime)) (earlier last : CompanySnapshot * datetime)
    (fs : files) :
  glob_literal cid = true →
  2 ≤ n →
  Forall (λ p, snapshot.company_id p.1 = cid ∧ valid p.2) (saves ++ [earlier; last]) →
  StronglySorted (λ p q, before p.2 q.2) (saves ++ [earlier; last]) →
  snapshot_files cid (directory cid fs) = [] →
  let fs' := save_all (Z.of_nat n) (saves ++ [earlier; last]) fs in
  (get_latest_snapshot cid fs').1 = Some last.1
  ∧ (get_previous_snapshot cid fs').1 = Some earlier.1.
Proof.
  intros _ Hn Hsaves Hsorted Hempty fs'.
  destruct (save_all_listing n cid (saves ++ [earlier; last]) [] fs)
    as [Hfiles Hcontent]; [done|done|done|simpl; lia|by rewrite Hempty|done|].
  fold fs' in Hfiles, Hcontent.
  rewrite app_nil_r, reverse_app in Hfiles, Hcontent.
  change (reverse [earlier; last]) with [last; earlier] in Hfiles, Hcontent.
  destruct n as [|[|n]]; [lia..|]. cbn [app take fmap list_fmap] in Hfiles, Hcontent.
  apply Forall_cons in Hcontent as [Hlast Hcontent].
  apply Forall_cons in Hcontent as [Hearlier _].
  rewrite get_latest_snapshot_value, get_previous_snapshot_value, Hfiles. done.
Qed.

Lemma latest_and_previous_after_saves_witness :
  let saves := [(examples.fixo_monday, examples.reading 4 120)] in
  let earlier := (examples.fixo_tuesday, examples.reading 5 480) in
  let last := (examples.fixo_monday, examples.reading 9 870) in
  glob_literal "fixo" = true
  ∧ 2 ≤ 2
  ∧ Forall (λ p, snapshot.company_id p.1 = "fixo" ∧ valid p.2) (saves ++ [earlier; last])
  ∧ StronglySorted (λ p q, before p.2 q.2) (saves ++ [earlier; last])
  ∧ snapshot_files "fixo" (directory "fixo" (∅ : files)) = []
  ∧ (get_previous_snapshot "fixo"
       (save_all (Z.of_nat 2) (saves ++ [earlier; last]) ∅)).1
    = Some examples.fixo_tuesday.
Proof.
  cbv zeta.
  set (saves := [(examples.fixo_monday, examples.reading 4 120)]).
  set (earlier := (examples.fixo_tuesday, examples.reading 5 480)).
  set (last := (examples.fixo_monday, examples.reading 9 870)).
  assert (H0 : 2 ≤ 2) by lia.
  assert (H1 : Forall (λ p, snapshot.company_id p.1 = "fixo" ∧ valid p.2)
                 (saves ++ [earlier; last])).
  { repeat (apply Forall_cons; split; [split; [reflexivity|unfold valid; simpl; lia]|]).
    apply Forall_nil_2. }
  assert (H2 : StronglySorted (λ p q, before p.2 q.2) (saves ++ [earlier; last])).
  { repeat (apply SSorted_cons;
            [|repeat (apply Forall_cons; split; [reflexivity|]); apply Forall_nil_2]).
    apply SSorted_nil. }
  assert (H3 : snapshot_files "fixo" (directory "fixo" (∅ : files)) = [])
    by reflexivity.
  assert (Hlit : glob_literal "fixo" = true) by (vm_compute; reflexivity).
  split; [exact Hlit|].
  split; [exact H0|]. split; [exact H1|]. split; [exact H2|]. split; [exact H3|].
  exact (proj2 (latest_and_previous_after_saves 2 "fixo" saves earlier last ∅
                  Hlit H0 H1 H2 H3)).
Defined.

(** ** What the scan loop hands to the report *)

Section scan_steps.
Context {World : Type}.
Variable SCRAPERS : gmap string (@action World CompanySnapshot).
Variable storage_get_latest_snapshot : string → @action World (option CompanySnapshot).
Variable storage_save_snapshot : CompanySnapshot → @action World string.
Variable now_isoformat : World → string.

Abbreviation scan_company' :=
  (_scan_company SCRAPERS storage_get_latest_snapshot storage_save_snapshot now_isoformat).
Abbreviation one' :=
  (scan_one SCRAPERS storage_get_latest_snapshot storage_save_snapshot now_isoformat).
Abbreviation loop' :=
  (scan_loop SCRAPERS storage_get_latest_snapshot storage_save_snapshot now_isoformat).

(** X15: what the loop of [run_scan] hands to the report as
    [current_snapshots]: for a company that occurs once in the batch,
    the snapshot its scan returned, and no entry when the scan raised
    or the company has no scraper; a company without a scraper is
    recorded with no changes and leaves the world untouched; and only
    companies of the batch get an entry. *)
Theorem current_snapshots_of_scan (pre post : list string) (X : string) (w : World) :
  X ∉ pre → X ∉ post →
  let before_X := loop' pre (∅, ∅) w in
  let result := loop' (pre ++ X :: post) (∅, ∅) w in
  result.1.2 !! X
    = match scan_company' X before_X.2 with
      | (Return (_, snapshot), _) => snapshot
      | (Raise _, _) => None
      end
  ∧ (SCRAPERS !! X = None →
       result.1.1 !! X = Some [] ∧ result.1.2 !! X = None
       ∧ (one' before_X.1 X before_X.2).2 = before_X.2)
  ∧ dom result.1.2 ⊆ dom result.1.1.
Proof.
  intros Hpre Hpost before_X result.
  assert (Hskip : ∀ l acc w0, X ∉ l → (loop' l acc w0).1.2 !! X = acc.2 !! X).
  { induction l as [|Y l IH]; intros acc w0 Hnot; [done|].
    apply not_elem_of_cons in Hnot as [Hne Hnot].
    rewrite scan_loop_cons, IH by done. unfold scan_one.
    destruct (scan_company' Y w0) as [[[changes [snapshot|]]|e] w'];
      cbn [fst snd]; by rewrite ?lookup_insert_ne. }
  assert (Hdom : ∀ l acc w0, dom acc.2 ⊆ dom acc.1 →
                             dom (loop' l acc w0).1.2 ⊆ dom (loop' l acc w0).1.1).
  { induction l as [|Y l IH]; intros acc w0 Hacc; [done|].
    rewrite scan_loop_cons. apply IH. unfold scan_one.
    destruct (scan_company' Y w0) as [[[changes [snapshot|]]|e] w'];
      cbn [fst snd]; rewrite ?dom_insert_L; set_solver. }
  assert (HX : result.1.2 !! X
               = match scan_company' X before_X.2 with
                 | (Return (_, snapshot), _) => snapshot
                 | (Raise _, _) => None
                 end).
  { subst result. rewrite scan_loop_app, scan_loop_cons, Hskip by done.
    fold before_X. unfold scan_one.
    assert (Hnone : before_X.1.2 !! X = None).
    { subst before_X. by rewrite Hskip. }
    destruct (scan_company' X before_X.2) as [[[changes [snapshot|]]|e] w'];
      cbn [fst snd]; by rewrite ?lookup_insert_eq. }
  split_and!.
  - done.
  - intros Hno.
    assert (Hscan : scan_company' X before_X.2 = (Return ([], None), before_X.2)).
    { unfold _scan_company. by rewrite Hno. }
    rewrite HX, Hscan. split_and!; [|done|].
    + subst result. rewrite scan_loop_app, scan_loop_cons.
      rewrite scan_loop_lookup_later by done. fold before_X.
      rewrite scan_one_changes, lookup_insert_eq.
      unfold recorded_changes. by rewrite Hscan.
    + unfold scan_one. by rewrite Hscan.
  - subst result. by apply Hdom.
Qed.

End scan_steps.

Lemma current_snapshots_of_scan_witness :
  ("oscar" ∉ ([] : list string)) ∧ ("oscar" ∉ ["fixo"])
  ∧ (scan_loop scenario.SCRAPERS scenario.storage_get_latest_snapshot
       scenario.storage_save_snapshot scenario.now_isoformat ([] ++ "oscar" :: ["fixo"])
       (∅, ∅) scenario.tuesday_morning).1.2 !! "oscar" = None.
Proof.
  assert (H1 : "oscar" ∉ ([] : list string)) by apply not_elem_of_nil.
  assert (H2 : "oscar" ∉ ["fixo"]).
  { intros Hin. apply list_elem_of_singleton in Hin. discriminate Hin. }
  split; [exact H1|]. split; [exact H2|].
  exact (eq_trans
           (proj1 (current_snapshots_of_scan scenario.SCRAPERS
                     scenario.storage_get_latest_snapshot scenario.storage_save_snapshot
                     scenario.now_isoformat [] ["fixo"] "oscar" scenario.tuesday_morning
                     H1 H2))
           eq_refl).
Defined.

(** ** Two scans in a row, on the storage of the package *)

Lemma detect_changes_unchanged (s : CompanySnapshot) (ts : string) :
  detect_changes s s ts = Return [].
Proof.
  destruct (detect_changes s s ts) as [changes|e] eqn:E.
  - f_equal. apply (no_changes_iff_none_emitted _ _ _ _ E). intros c Hc.
    destruct Hc as [x H1 H2|x H1 H2|key v H1 H2|key v H1 H2|key a b H1 H2 H3
                   |x H1 H2|x H1 H2|x H1 H2|x H1 H2|H1 H2 H3|page H1 H2 H3];
      congruence.
  - unfold detect_changes in E.
    rewrite bool_decide_eq_false_2 in E by (intros H; by apply H). done.
Qed.

Lemma latest_after_later_save (n : nat) (s : CompanySnapshot) (now : datetime)
    (fs : files) :
  0 < n →
  (∀ f, f ∈ snapshot_files (snapshot.company_id s) (directory (snapshot.company_id s) fs) →
        String.compare f (snapshot_filename (snapshot.company_id s) now) = Lt) →
  (get_latest_snapshot (snapshot.company_id s)
     (save_snapshot (Z.of_nat n) s now fs).2).1 = Some s.
Proof.
  intros Hn Hlt. rewrite get_latest_snapshot_value, snapshot_files_save_snapshot.
  rewrite snapshot_files_insert_greatest
    by (apply glob_match_snapshot_filename || done).
  destruct n as [|n]; [lia|]. cbn [take].
  rewrite directory_save_snapshot.
  rewrite snapshot_files_insert_greatest
    by (apply glob_match_snapshot_filename || done).
  rewrite decide_False; [by rewrite lookup_insert_eq|].
  cbn [drop]. intros Hin%elem_of_drop_list. apply Hlt in Hin.
  by rewrite string_compare_refl in Hin.
Qed.



(** ** Reports: grouping by category and severity counts *)

Import report_generator.

Lemma setdefault_append_keys acc c :
  (setdefault_append acc c).*1
  = if decide (category c ∈ acc.*1) then acc.*1 else acc.*1 ++ [category c].
Proof.
  unfold setdefault_append. case_decide as Hc.
  - rewrite <- list_fmap_compose. apply list_fmap_ext. intros i [k l] _. simpl.
    by case_decide.
  - by rewrite fmap_app.
Qed.

Lemma by_category_snoc changes c :
  by_category (changes ++ [c]) = setdefault_append (by_category changes) c.
Proof. unfold by_category. by rewrite foldl_app. Qed.

Lemma by_category_keys_NoDup changes : NoDup (by_category changes).*1.
Proof.
  induction changes as [|c changes IH] using rev_ind; [constructor|].
  rewrite by_category_snoc, setdefault_append_keys. case_decide as Hc; [done|].
  apply NoDup_app. split_and!; [done| |apply NoDup_singleton].
  intros k Hk Hk'. apply list_elem_of_singleton in Hk' as ->. done.
Qed.

Lemma filter_snoc_category k changes (c : Change) :
  filter (λ c, category c = k) (changes ++ [c])
  = filter (λ c, category c = k) changes ++ (if decide (category c = k) then [c] else []).
Proof.
  by rewrite filter_app.
Qed.

Lemma by_category_items changes k l :
  (k, l) ∈ by_category changes
  ↔ l = filter (λ c, category c = k) changes ∧ l ≠ [].
Proof.
  revert k l. induction changes as [|c changes IH] using rev_ind; intros k l.
  { split; [by intros ?%elem_of_nil|]. by intros [-> ?]. }
  rewrite by_category_snoc, filter_snoc_category. unfold setdefault_append.
  case_decide as Hc.
  - rewrite list_elem_of_fmap. split.
    + intros ([k' l'] & Heq & Hin). apply IH in Hin as [-> Hne]. simpl in Heq.
      case_decide as Hk; simplify_eq.
      * rewrite decide_True by done. split; [done|].
        intros Hnil. by apply app_eq_nil in Hnil as [_ ?].
      * rewrite decide_False by done. by rewrite app_nil_r.
    + intros [-> Hne]. apply list_elem_of_fmap in Hc as ([k' l'] & Hk' & Hin).
      simpl in Hk'. subst k'. case_decide as Hk.
      * subst k. exists (category c, l'). simpl. rewrite decide_True by done.
        split; [|done]. f_equal. f_equal. by apply IH in Hin as [-> _].
      * rewrite app_nil_r in *. exists (k, filter (λ c, category c = k) changes).
        simpl. rewrite decide_False by done. split; [done|]. by apply IH.
  - rewrite elem_of_app, list_elem_of_singleton, IH. split.
    + intros [[-> Hne]|Heq].
      * case_decide as Hk; [|by rewrite app_nil_r].
        subst k. destruct Hc. apply list_elem_of_fmap.
        exists (category c, filter (λ c0, category c0 = category c) changes).
        split; [done|]. by apply IH.
      * simplify_eq. rewrite decide_True by done.
        destruct (filter (λ c0, category c0 = category c) changes) as [|c' f] eqn:Hf;
          [done|].
        destruct Hc. apply list_elem_of_fmap. exists (category c, c' :: f).
        split; [done|]. apply IH. by rewrite Hf.
    + intros [-> Hne]. case_decide as Hk.
      * subst k.
        destruct (filter (λ c0, category c0 = category c) changes) as [|c' f] eqn:Hf;
          [by right|].
        destruct Hc. apply list_elem_of_fmap. exists (category c, c' :: f).
        split; [done|]. apply IH. by rewrite Hf.
      * rewrite app_nil_r in *. by left.
Qed.

Lemma append_to_absent_key (items : list (string * list Change)) (c : Change) :
  category c ∉ items.*1 →
  (λ item : string * list Change,
     if decide (item.1 = category c) then (item.1, item.2 ++ [c]) else item) <$> items
  = items.
Proof.
  induction items as [|[k l] items IH]; [done|]. rewrite !fmap_cons. cbn [fst snd].
  intros Hk. apply not_elem_of_cons in Hk as [Hk Hks].
  rewrite decide_False by done. f_equal. by apply IH.
Qed.

Lemma append_to_present_key (items : list (string * list Change)) (c : Change) :
  NoDup items.*1 → category c ∈ items.*1 →
  concat ((λ item : string * list Change,
             if decide (item.1 = category c) then (item.1, item.2 ++ [c]) else item)
          <$> items).*2
  ≡ₚ concat items.*2 ++ [c].
Proof.
  induction items as [|[k l] items IH]; [by intros _ ?%elem_of_nil|].
  rewrite !fmap_cons. cbn [fst snd]. intros [Hk Hnd]%NoDup_cons Hin.
  case_decide as Hkc.
  - subst k. rewrite append_to_absent_key by done. cbn [fst snd concat].
    rewrite <- !app_assoc. f_equiv. apply Permutation_app_comm.
  - cbn [fst snd concat]. rewrite <- app_assoc. f_equiv. apply IH; [done|].
    by apply elem_of_cons in Hin as [?|?].
Qed.

Lemma by_category_concat changes : concat (by_category changes).*2 ≡ₚ changes.
Proof.
  induction changes as [|c changes IH] using rev_ind; [done|].
  rewrite by_category_snoc. unfold setdefault_append. case_decide as Hc.
  - rewrite append_to_present_key by (done || apply by_category_keys_NoDup).
    by rewrite IH.
  - rewrite fmap_app, concat_app. by apply Permutation_app.
Qed.

(** X17. Grouping by category, as the terminal and Markdown reports do it,
    loses and invents nothing: the categories listed are distinct, an
    item [(k, l)] is listed exactly when [l] is the non-empty list of the
    changes of category [k] in their original order, and the groups put
    together are a permutation of the changes. *)
Theorem by_category_groups changes :
  NoDup (by_category changes).*1
  ∧ (∀ k l, (k, l) ∈ by_category changes
            ↔ l = filter (λ c, category c = k) changes ∧ l ≠ [])
  ∧ concat (by_category changes).*2 ≡ₚ changes.
Proof.
  split; [apply by_category_keys_NoDup|].
  split; [apply by_category_items|apply by_category_concat].
Qed.

Lemma by_category_key changes k :
  k ∈ (by_category changes).*1 ↔ ∃ c, c ∈ changes ∧ category c = k.
Proof.
  rewrite list_elem_of_fmap. split.
  - intros ([k' l] & -> & Hin). apply by_category_items in Hin as [-> Hne]. simpl.
    destruct (filter (λ c, category c = k') changes) as [|c f] eqn:Hf; [done|].
    assert (Hc : c ∈ filter (λ c, category c = k') changes) by (rewrite Hf; by left).
    apply list_elem_of_filter in Hc as [Hk Hc]. by exists c.
  - intros (c & Hc & Hk). exists (k, filter (λ c, category c = k) changes).
    split; [done|]. apply by_category_items. split; [done|].
    intros Hnil. assert (Hin : c ∈ filter (λ c, category c = k) changes)
      by by apply list_elem_of_filter.
    rewrite Hnil in Hin. by apply elem_of_nil in Hin.
Qed.

Lemma foldl_setdefault_block items k g block :
  k ∉ items.*1 → Forall (λ c, category c = k) block →
  foldl setdefault_append (items ++ [(k, g)]) block = items ++ [(k, g ++ block)].
Proof.
  intros Hk. revert g. induction block as [|c block IH]; intros g Hall.
  { by rewrite app_nil_r. }
  apply Forall_cons in Hall as [Hc Hall]. cbn [foldl].
  unfold setdefault_append at 2. rewrite decide_True.
  - rewrite fmap_app, append_to_absent_key by by rewrite Hc.
    rewrite fmap_cons, fmap_nil. cbn [fst snd]. rewrite decide_True by done.
    rewrite IH by done. by rewrite <- app_assoc.
  - rewrite fmap_app, elem_of_app. right. rewrite Hc. by left.
Qed.

Lemma by_category_app_block changes k block :
  Forall (λ c, category c ≠ k) changes → Forall (λ c, category c = k) block →
  by_category (changes ++ block)
  = by_category changes ++ (if decide (block = []) then [] else [(k, block)]).
Proof.
  intros Hother Hblock. case_decide as Hnil.
  { subst block. by rewrite !app_nil_r. }
  destruct block as [|c block]; [done|]. apply Forall_cons in Hblock as [Hc Hblock].
  assert (Hk : k ∉ (by_category changes).*1).
  { rewrite by_category_key. intros (c' & Hin & Hk).
    by apply (proj1 (Forall_forall _ _) Hother c' Hin). }
  unfold by_category at 1. rewrite foldl_app. cbn [foldl]. fold (by_category changes).
  unfold setdefault_append at 2. rewrite decide_False by by rewrite Hc.
  rewrite Hc. by apply foldl_setdefault_block.
Qed.

Lemma by_category_blocks (blocks : list (string * list Change)) :
  NoDup blocks.*1 →
  Forall (λ b, Forall (λ c, category c = b.1) b.2) blocks →
  by_category (concat blocks.*2) = filter (λ b, b.2 ≠ []) blocks.
Proof.
  induction blocks as [|[k block] blocks IH] using rev_ind; [done|].
  rewrite !fmap_app, concat_app, filter_app. cbn [fmap list_fmap fst snd concat].
  rewrite app_nil_r. intros Hnd Hall.
  apply NoDup_app in Hnd as (Hnd & Hk & _). apply Forall_app in Hall as [Hall Hb].
  rewrite Forall_singleton in Hb. cbn [fst snd] in Hb.
  assert (Hother : Forall (λ c, category c ≠ k) (concat blocks.*2)).
  { apply Forall_forall. intros c Hc Hck.
    apply list_elem_of_In, in_concat in Hc as (l & Hl & Hc).
    apply list_elem_of_In, list_elem_of_fmap in Hl as ([k' l'] & -> & Hin).
    apply list_elem_of_In in Hc. cbn [snd] in Hc.
    pose proof (proj1 (Forall_forall _ _) Hall _ Hin) as Hcat. cbn [fst snd] in Hcat.
    pose proof (proj1 (Forall_forall _ _) Hcat _ Hc) as Hk'. cbn in Hk'.
    apply (Hk k'); [|apply list_elem_of_singleton; congruence].
    apply list_elem_of_fmap. by exists (k', l'). }
  rewrite (by_category_app_block _ k) by done. rewrite IH by done.
  f_equal. rewrite filter_cons, filter_nil. cbn [snd].
  destruct (decide (block = [])), (decide (block ≠ [])); done.
Qed.

Lemma concat_nonempty_blocks (blocks : list (string * list Change)) :
  concat (filter (λ b, b.2 ≠ []) blocks).*2 = concat blocks.*2.
Proof.
  induction blocks as [|[k block] blocks IH]; [done|].
  rewrite filter_cons. cbn [snd]. case_decide as Hb.
  - rewrite !fmap_cons. cbn [concat snd]. by rewrite IH.
  - assert (block = []) as -> by (by destruct (decide (block = [])) as [?|?]).
    rewrite fmap_cons. cbn [concat snd]. by rewrite IH.
Qed.

Lemma detected_blocks old new ts changes :
  detect_changes old new ts = Return changes →
  ∃ blocks,
    blocks.*1 = ["services"; "pricing"; "locations"; "promotions"; "business_model"]
    ∧ Forall (λ b, Forall (λ c, category c = b.1) b.2) blocks
    ∧ changes = concat blocks.*2.
Proof.
  unfold detect_changes. case_bool_decide as Hid; [done|]. intros [= <-].
  exists [("services", _detect_service_changes old new ts);
          ("pricing", _detect_pricing_changes old new ts);
          ("locations", _detect_location_changes old new ts);
          ("promotions", _detect_promotion_changes old new ts);
          ("business_model",
           _detect_business_changes old new ts ++ _detect_page_changes old new ts)].
  split; [done|]. split.
  - repeat first [apply Forall_nil_2 | apply Forall_cons_2]; cbn [fst snd];
      apply Forall_forall; intros c Hc.
    + by eapply service_changes_category.
    + by eapply pricing_changes_category.
    + by eapply location_changes_category.
    + by eapply promotion_changes_category.
    + apply elem_of_app in Hc as [Hc|Hc];
        [by eapply business_changes_category|by eapply page_changes_category].
  - cbn [fmap list_fmap snd concat]. by rewrite app_nil_r.
Qed.

Lemma filter_fmap_fst (P : string * list Change → Prop) (Q : string → Prop)
    `{∀ b, Decision (P b)} `{∀ k, Decision (Q k)} (blocks : list (string * list Change)) :
  (∀ b, b ∈ blocks → (P b ↔ Q b.1)) →
  (filter P blocks).*1 = filter Q blocks.*1.
Proof.
  induction blocks as [|b blocks IH]; [done|]. intros Hpq.
  rewrite fmap_cons, !filter_cons.
  assert (Hb : P b ↔ Q b.1) by (apply Hpq; by left).
  assert (Htl : (filter P blocks).*1 = filter Q blocks.*1)
    by (apply IH; intros b' Hb'; apply Hpq; by right).
  destruct (decide (P b)) as [Hp|Hp], (decide (Q b.1)) as [Hq|Hq];
    [by rewrite fmap_cons, Htl|by destruct Hq; apply Hb
    |by destruct Hp; apply Hb|done].
Qed.

Lemma block_nonempty_iff (blocks : list (string * list Change)) b :
  NoDup blocks.*1 →
  Forall (λ b, Forall (λ c, category c = b.1) b.2) blocks →
  b ∈ blocks →
  b.2 ≠ [] ↔ b.1 ∈ category <$> concat blocks.*2.
Proof.
  intros Hnd Hall Hb. rewrite list_elem_of_fmap. split.
  - destruct b as [k [|c block]]; [done|]. intros _. exists c. cbn [fst snd].
    pose proof (proj1 (Forall_forall _ _) Hall _ Hb) as Hcat. cbn [fst snd] in Hcat.
    apply Forall_cons in Hcat as [Hc _]. split; [done|].
    apply list_elem_of_In, in_concat. exists (c :: block). split; [|by left].
    apply list_elem_of_In, list_elem_of_fmap. by exists (k, c :: block).
  - intros (c & Hk & Hc).
    apply list_elem_of_In, in_concat in Hc as (l & Hl & Hc).
    apply list_elem_of_In, list_elem_of_fmap in Hl as ([k' l'] & -> & Hin).
    apply list_elem_of_In in Hc. cbn [snd] in Hc.
    pose proof (proj1 (Forall_forall _ _) Hall _ Hin) as Hcat. cbn [fst snd] in Hcat.
    pose proof (proj1 (Forall_forall _ _) Hcat _ Hc) as Hk'. cbn in Hk'.
    destruct b as [k l]. cbn [fst snd] in *. assert (k' = k) as -> by congruence.
    assert (l' = l) as ->.
    { clear -Hnd Hin Hb. induction blocks as [|[k0 l0] blocks IH];
        [by apply elem_of_nil in Hb|].
      rewrite fmap_cons in Hnd. apply NoDup_cons in Hnd as [Hk0 Hnd]. cbn [fst] in Hk0.
      apply elem_of_cons in Hin as [Hin|Hin], Hb as [Hb|Hb]; simplify_eq.
      - done.
      - destruct Hk0. apply list_elem_of_fmap. by exists (k0, l).
      - destruct Hk0. apply list_elem_of_fmap. by exists (k0, l').
      - by apply IH. }
    intros ->. by apply elem_of_nil in Hc.
Qed.

(** X18. The changes the detector returns are shown by the reports in
    the detector's own order: grouping them by category and reading the
    groups one after the other gives back exactly the list returned, the
    groups come in the order services, pricing, locations, promotions,
    business model with the empty ones left out, and every group has a
    Portuguese heading in [CATEGORY_LABELS]. *)
Theorem by_category_of_detected old new ts changes :
  detect_changes old new ts = Return changes →
  concat (by_category changes).*2 = changes
  ∧ (by_category changes).*1
    = filter (λ k, k ∈ category <$> changes)
        ["services"; "pricing"; "locations"; "promotions"; "business_model"]
  ∧ Forall (λ k, is_Some (CATEGORY_LABELS !! k)) (by_category changes).*1.
Proof.
  intros (blocks & Hkeys & Hall & ->)%detected_blocks.
  assert (Hnd : NoDup blocks.*1).
  { rewrite Hkeys. by apply (bool_decide_unpack _); vm_compute. }
  rewrite by_category_blocks by done.
  assert (Hk : (filter (λ b, b.2 ≠ []) blocks).*1
               = filter (λ k, k ∈ category <$> concat blocks.*2) blocks.*1).
  { apply filter_fmap_fst. intros b Hb. by apply block_nonempty_iff. }
  split; [apply concat_nonempty_blocks|]. split.
  - by rewrite Hk, Hkeys.
  - rewrite Hk, Hkeys. apply Forall_forall. intros k [_ Hin]%list_elem_of_filter.
    repeat (apply elem_of_cons in Hin as [->|Hin]; [by eexists|]).
    by apply elem_of_nil in Hin.
Qed.

Lemma by_category_of_detected_witness :
  detect_changes examples.fixo_monday examples.fixo_tuesday examples.detection_time
    = Return examples.monday_to_tuesday
  ∧ concat (by_category examples.monday_to_tuesday).*2 = examples.monday_to_tuesday.
Proof.
  split; [exact detect_changes_witness_monday|].
  exact (proj1 (by_category_of_detected _ _ _ _ detect_changes_witness_monday)).
Defined.

Lemma severity_count_cons level c changes :
  severity_count level (c :: changes)
  = (if decide (severity c = level) then 1 else 0) + severity_count level changes.
Proof.
  unfold severity_count. rewrite filter_cons. by case_decide.
Qed.

Lemma severity_counts_add_up changes :
  Forall (λ c, severity c ∈ ["info"; "medium"; "high"]) changes →
  severity_count "high" changes + severity_count "medium" changes
  + severity_count "info" changes = length changes.
Proof.
  induction 1 as [|c changes Hc _ IH]; [done|].
  rewrite !severity_count_cons. cbn [length]. rewrite <- IH.
  repeat (apply elem_of_cons in Hc as [->|Hc];
          [repeat case_decide; try done; lia|]).
  by apply elem_of_nil in Hc.
Qed.

Lemma detected_severity old new ts changes c :
  detect_changes old new ts = Return changes → c ∈ changes →
  severity c ∈ ["info"; "medium"; "high"].
Proof.
  intros Hdc Hc. apply (detect_changes_emitted _ _ _ _ Hdc) in Hc.
  destruct Hc; simpl; repeat constructor.
Qed.

(** X19. In the summary of a report the three severity counts of a
    company account for every change the detector returned: the numbers
    of high, medium and info changes add up to the number of changes. *)
Theorem severity_counts_of_detected old new ts changes :
  detect_changes old new ts = Return changes →
  severity_count "high" changes + severity_count "medium" changes
  + severity_count "info" changes = length changes.
Proof.
  intros Hdc. apply severity_counts_add_up, Forall_forall. intros c Hc.
  by eapply detected_severity.
Qed.

Lemma severity_counts_of_detected_witness :
  detect_changes examples.fixo_monday examples.fixo_tuesday examples.detection_time
    = Return examples.monday_to_tuesday
  ∧ severity_count "high" examples.monday_to_tuesday
    + severity_count "medium" examples.monday_to_tuesday
    + severity_count "info" examples.monday_to_tuesday
    = length examples.monday_to_tuesday.
Proof.
  split; [exact detect_changes_witness_monday|].
  exact (severity_counts_of_detected _ _ _ _ detect_changes_witness_monday).
Defined.

(** ** Scrapers: fetching a page with retries *)

Import base_scraper.

Section fetch.

Variable responses : nat → string → result string.
Variable delay : Z.
Variable max_retries : Z.

Local Abbreviation fetch_attempts :=
  (fetch_attempts (network.session_get responses) network.time_sleep delay max_retries).
Local Abbreviation fetch_page :=
  (fetch_page (network.session_get responses) network.time_sleep delay max_retries).

Lemma requests_app log log' :
  network.requests (log ++ log') = network.requests log + network.requests log'.
Proof.
  unfold network.requests. induction log as [|[url|seconds] log IH]; simpl; [done| |done].
  by rewrite IH.
Qed.

Lemma slept_app log log' :
  network.slept (log ++ log') = (network.slept log + network.slept log')%Z.
Proof.
  unfold network.slept. induction log as [|[url|seconds] log IH]; simpl; [done|done|].
  rewrite IH. lia.
Qed.

Lemma requests_failures url attempts :
  network.requests (network.failures url attempts) = length attempts.
Proof.
  induction attempts as [|a attempts IH]; [done|].
  unfold network.failures in *. rewrite bind_cons, requests_app, IH. done.
Qed.

Lemma slept_failures url (n : nat) :
  network.slept (network.failures url (seqZ 1 (Z.of_nat n))) = (2 ^ (Z.of_nat n + 1) - 2)%Z.
Proof.
  induction n as [|n IH]; [done|].
  rewrite seqZ_S. unfold network.failures in *. rewrite bind_app, slept_app, IH.
  cbn [mbind list_bind app network.slept foldr].
  replace (Z.of_nat (S n) + 1)%Z with (Z.succ (1 + Z.of_nat n)) by lia.
  rewrite Z.pow_succ_r by lia. replace (Z.of_nat n + 1)%Z with (1 + Z.of_nat n)%Z by lia.
  lia.
Qed.

Lemma sleep_backoff (attempt : Z) (log : network.World) :
  sleep network.time_sleep (2 ^ attempt) log
  = (Return (), network.time_sleep (2 ^ attempt) log).
Proof.
  unfold sleep. rewrite bool_decide_eq_false_2; [done|].
  pose proof (Z.pow_nonneg 2 attempt). lia.
Qed.

Lemma fetch_attempts_cons url attempt attempts log :
  fetch_attempts url (attempt :: attempts) log
  = match responses (network.requests log) url with
    | Return text =>
        if bool_decide (delay < 0)%Z
        then (Raise (ValueError "sleep length must be non-negative"),
              log ++ [network.Requested url])
        else (Return (Some text),
              network.time_sleep delay (log ++ [network.Requested url]))
    | Raise (RequestException _) =>
        fetch_attempts url attempts
          (if bool_decide (attempt < max_retries)%Z
           then network.time_sleep (2 ^ attempt) (log ++ [network.Requested url])
           else log ++ [network.Requested url])
    | Raise e => (Raise e, log ++ [network.Requested url])
    end.
Proof.
  cbn [base_scraper.fetch_attempts]. unfold network.session_get at 1.
  destruct (responses (network.requests log) url) as [text|[msg|msg|msg]]; [|done|done|].
  - unfold sleep. by case_bool_decide.
  - case_bool_decide; [|done]. by rewrite sleep_backoff.
Qed.

(** Attempts that all fail, none of them the last one allowed. *)
Lemma fetch_attempts_failures url (k : nat) : ∀ (a : Z) rest log,
  (∀ i, (i < k)%nat → ∃ msg, responses (network.requests log + i) url
                             = Raise (RequestException msg)) →
  (a + Z.of_nat k ≤ max_retries)%Z →
  fetch_attempts url (seqZ a (Z.of_nat k) ++ rest) log
  = fetch_attempts url rest (log ++ network.failures url (seqZ a (Z.of_nat k))).
Proof.
  induction k as [|k IH]; intros a rest log Hfail Hlast.
  { by rewrite app_nil_r. }
  rewrite seqZ_cons by lia. replace (Z.pred (Z.of_nat (S k))) with (Z.of_nat k) by lia.
  cbn [app]. rewrite fetch_attempts_cons.
  destruct (Hfail 0%nat) as [msg Hmsg]; [lia|]. rewrite Nat.add_0_r in Hmsg.
  rewrite Hmsg. rewrite bool_decide_eq_true_2 by lia.
  rewrite IH.
  - unfold network.failures, network.time_sleep. rewrite bind_cons.
    by rewrite <- !app_assoc.
  - intros i Hi. destruct (Hfail (S i)) as [msg' Hmsg']; [lia|]. exists msg'.
    rewrite <- Hmsg'. f_equal. unfold network.time_sleep.
    rewrite !requests_app. cbn. lia.
  - lia.
Qed.

(** X20. [fetch_page] returns the text of the first request that
    succeeds: when the first [k] requests raise a [RequestException] and
    the next one answers, with [k < max_retries], it makes exactly
    [k + 1] requests, sleeping [2 ** attempt] seconds after each failed
    attempt (2, 4, ...); then, for a [delay] that is not negative, it
    sleeps [delay] seconds and returns that text.  With a negative
    [delay] the [time.sleep(self.delay)] after the answer raises
    [ValueError], which is not caught: the text is not returned. *)
Theorem fetch_page_retries (k : nat) (url text : string) (log : network.World) :
  (Z.of_nat k < max_retries)%Z →
  (∀ i, (i < k)%nat → ∃ msg, responses (network.requests log + i) url
                             = Raise (RequestException msg)) →
  responses (network.requests log + k) url = Return text →
  fetch_page url log
  = if bool_decide (delay < 0)%Z
    then (Raise (ValueError "sleep length must be non-negative"),
          log ++ network.failures url (seqZ 1 (Z.of_nat k)) ++ [network.Requested url])
    else (Return (Some text),
          log ++ network.failures url (seqZ 1 (Z.of_nat k))
              ++ [network.Requested url; network.Slept delay]).
Proof.
  intros Hk Hfail Hok. unfold base_scraper.fetch_page.
  replace max_retries with (Z.of_nat k + (max_retries - Z.of_nat k))%Z at 2 by lia.
  rewrite seqZ_app by lia. rewrite fetch_attempts_failures by (done || lia).
  rewrite seqZ_cons by lia. rewrite fetch_attempts_cons.
  rewrite requests_app, requests_failures, length_seqZ, Nat2Z.id, Hok.
  unfold network.time_sleep. case_bool_decide; by rewrite <- !app_assoc.
Qed.

(** X21. [fetch_page] gives up after [max_retries] failed requests: when
    they all raise a [RequestException] it returns [None], having made
    exactly [max_retries] requests and slept 2, 4, ... seconds between
    them, [2 ** max_retries - 2] seconds in all; it sleeps neither after
    the last failure nor for [delay]. *)
Theorem fetch_page_gives_up (url : string) (log : network.World) :
  (1 ≤ max_retries)%Z →
  (∀ i, (Z.of_nat i < max_retries)%Z →
        ∃ msg, responses (network.requests log + i) url = Raise (RequestException msg)) →
  fetch_page url log
  = (Return None,
     log ++ network.failures url (seqZ 1 (max_retries - 1)) ++ [network.Requested url])
  ∧ network.requests (fetch_page url log).2
    = network.requests log + Z.to_nat max_retries
  ∧ network.slept (fetch_page url log).2
    = (network.slept log + (2 ^ max_retries - 2))%Z.
Proof.
  intros Hpos Hfail.
  assert (Hrun : fetch_page url log
                 = (Return None,
                    log ++ network.failures url (seqZ 1 (max_retries - 1))
                        ++ [network.Requested url])).
  { unfold base_scraper.fetch_page.
    replace max_retries with (Z.of_nat (Z.to_nat (max_retries - 1)) + 1)%Z at 2 by lia.
    rewrite seqZ_app by lia. rewrite fetch_attempts_failures; [| |lia].
    - rewrite Z2Nat.id by lia.
      rewrite seqZ_cons by lia. rewrite fetch_attempts_cons.
      destruct (Hfail (Z.to_nat (max_retries - 1))) as [msg Hmsg]; [lia|].
      rewrite requests_app, requests_failures, length_seqZ, Hmsg.
      rewrite bool_decide_eq_false_2 by lia. rewrite seqZ_nil by lia.
      cbn [base_scraper.fetch_attempts]. by rewrite <- app_assoc.
    - intros i Hi. apply Hfail. lia. }
  rewrite Hrun. split; [done|]. cbn [snd]. split.
  - rewrite !requests_app, requests_failures, length_seqZ. cbn. lia.
  - rewrite !slept_app.
    replace (max_retries - 1)%Z with (Z.of_nat (Z.to_nat (max_retries - 1))) by lia.
    rewrite slept_failures. rewrite Z2Nat.id by lia. cbn.
    replace (max_retries - 1 + 1)%Z with max_retries by lia. lia.
Qed.

Lemma fetch_attempts_bounded url attempts : ∀ log,
  (∀ msg, (fetch_attempts url attempts log).1 ≠ Raise (RequestException msg))
  ∧ log `prefix_of` (fetch_attempts url attempts log).2
  ∧ network.requests (fetch_attempts url attempts log).2
    ≤ network.requests log + length attempts
  ∧ (∀ text, (fetch_attempts url attempts log).1 = Return (Some text) →
       ∃ i, i < length attempts
            ∧ responses (network.requests log + i) url = Return text
            ∧ ∀ j, j < i → ∃ msg, responses (network.requests log + j) url
                                  = Raise (RequestException msg)).
Proof.
  induction attempts as [|attempt attempts IH]; intros log.
  { cbn [base_scraper.fetch_attempts fst snd length].
    split_and!; [done|done|lia|done]. }
  rewrite !fetch_attempts_cons. cbn [length].
  destruct (responses (network.requests log) url) as [text|[msg|msg|msg]] eqn:Hr.
  - case_bool_decide as Hdelay; cbn [fst snd]; unfold network.time_sleep; split_and!.
    + done.
    + by apply prefix_app_r.
    + rewrite !requests_app. cbn. lia.
    + done.
    + done.
    + rewrite <- app_assoc. by apply prefix_app_r.
    + rewrite !requests_app. cbn. lia.
    + intros text' [= <-]. exists 0. rewrite Nat.add_0_r.
      split_and!; [lia|done|intros j Hj; lia].
  - cbn [fst snd]. split_and!; [done|by apply prefix_app_r|rewrite requests_app; cbn; lia
                               |done].
  - cbn [fst snd]. split_and!; [done|by apply prefix_app_r|rewrite requests_app; cbn; lia
                               |done].
  - set (log' := if bool_decide (attempt < max_retries)%Z
                 then network.time_sleep (2 ^ attempt) (log ++ [network.Requested url])
                 else log ++ [network.Requested url]).
    assert (Hpre : log `prefix_of` log').
    { unfold log', network.time_sleep. case_bool_decide as Hc;
        [rewrite <- app_assoc|]; by apply prefix_app_r. }
    assert (Hreq : network.requests log' = S (network.requests log)).
    { unfold log', network.time_sleep. case_bool_decide as Hc;
        rewrite !requests_app; cbn; lia. }
    destruct (IH log') as (Hex & Hgrow & Hbound & Htext). split_and!.
    + done.
    + by etrans.
    + lia.
    + intros text Hres. destruct (Htext text Hres) as (i & Hi & Hok & Hbefore).
      exists (S i). split_and!.
      * lia.
      * rewrite <- Hok. f_equal. lia.
      * intros [|j] Hj; [rewrite Nat.add_0_r; by eexists|].
        destruct (Hbefore j) as [msg' Hj']; [lia|]. exists msg'.
        rewrite <- Hj'. f_equal. lia.
Qed.

(** X22. Whatever the site answers, [fetch_page] never raises a
    [RequestException], makes at most [max_retries] requests (none when
    [max_retries] is not positive), and returns a text only if it is the
    answer of its first request that did not raise a [RequestException];
    another exception raised by a request propagates. *)
Theorem fetch_page_bounded (url : string) (log : network.World) :
  (∀ msg, (fetch_page url log).1 ≠ Raise (RequestException msg))
  ∧ network.requests (fetch_page url log).2
    ≤ network.requests log + Z.to_nat max_retries
  ∧ (∀ text, (fetch_page url log).1 = Return (Some text) →
       ∃ i, (Z.of_nat i < max_retries)%Z
            ∧ responses (network.requests log + i) url = Return text
            ∧ ∀ j, j < i → ∃ msg, responses (network.requests log + j) url
                                  = Raise (RequestException msg))
  ∧ (∀ e, responses (network.requests log) url = Raise e →
          (∀ msg, e ≠ RequestException msg) → (1 ≤ max_retries)%Z →
          (fetch_page url log).1 = Raise e).
Proof.
  unfold base_scraper.fetch_page.
  destruct (fetch_attempts_bounded url (seqZ 1 max_retries) log)
    as (Hex & _ & Hbound & Htext).
  rewrite length_seqZ in Hbound, Htext. split_and!; [done|done| |].
  - intros text Hres. destruct (Htext text Hres) as (i & Hi & Hok & Hbefore).
    exists i. split_and!; [lia|done|done].
  - intros e He Hne Hpos. rewrite seqZ_cons by lia.
    rewrite fetch_attempts_cons, He.
    destruct e as [msg|msg|msg]; [done|done|by destruct (Hne msg)].
Qed.

End fetch.

Lemma fetch_page_retries_witness :
  (Z.of_nat 2 < 3)%Z
  ∧ (∀ i, (i < 2)%nat → ∃ msg, network.flaky (network.requests [] + i) "https://fixo.pt"
                               = Raise (RequestException msg))
  ∧ network.flaky (network.requests [] + 2) "https://fixo.pt" = Return "<html></html>"
  ∧ base_scraper.fetch_page (network.session_get network.flaky) network.time_sleep 2 3
      "https://fixo.pt" []
    = (Return (Some "<html></html>"),
       [network.Requested "https://fixo.pt"; network.Slept 2;
        network.Requested "https://fixo.pt"; network.Slept 4;
        network.Requested "https://fixo.pt"; network.Slept 2]).
Proof.
  assert (H1 : (Z.of_nat 2 < 3)%Z) by lia.
  assert (H2 : ∀ i, (i < 2)%nat →
                    ∃ msg, network.flaky (network.requests [] + i) "https://fixo.pt"
                           = Raise (RequestException msg)).
  { intros i Hi. exists "503". unfold network.flaky.
    by rewrite bool_decide_eq_true_2 by (cbn; lia). }
  assert (H3 : network.flaky (network.requests [] + 2) "https://fixo.pt"
               = Return "<html></html>") by reflexivity.
  split; [exact H1|]. split; [exact H2|]. split; [exact H3|].
  exact (eq_trans
           (fetch_page_retries network.flaky 2 3 2 "https://fixo.pt" "<html></html>" []
              H1 H2 H3)
           eq_refl).
Defined.

Lemma fetch_page_gives_up_witness :
  (1 ≤ 3)%Z
  ∧ (∀ i, (Z.of_nat i < 3)%Z →
          ∃ msg, network.down (network.requests [] + i) "https://fixo.pt"
                 = Raise (RequestException msg))
  ∧ network.slept
      (base_scraper.fetch_page (network.session_get network.down) network.time_sleep 2 3
         "https://fixo.pt" []).2
    = (network.slept [] + (2 ^ 3 - 2))%Z.
Proof.
  assert (H1 : (1 ≤ 3)%Z) by lia.
  assert (H2 : ∀ i, (Z.of_nat i < 3)%Z →
                    ∃ msg, network.down (network.requests [] + i) "https://fixo.pt"
                           = Raise (RequestException msg)).
  { intros i _. by exists "timeout". }
  split; [exact H1|]. split; [exact H2|].
  exact (proj2 (proj2 (fetch_page_gives_up network.down 2 3 "https://fixo.pt" [] H1 H2))).
Defined.

(** ** Scrapers: the snapshot assembled from the pages of fixo.pt *)

Import fixo_scraper.

Lemma dict_fromkeys_acc (l : list string) : ∀ acc,
  NoDup acc →
  NoDup (foldl (λ keys k, if decide (k ∈ keys) then keys else keys ++ [k]) acc l)
  ∧ ∀ x, x ∈ foldl (λ keys k, if decide (k ∈ keys) then keys else keys ++ [k]) acc l
         ↔ x ∈ acc ∨ x ∈ l.
Proof.
  induction l as [|k l IH]; intros acc Hnd; cbn [foldl].
  { split; [done|]. intros x. rewrite elem_of_nil. tauto. }
  case_decide as Hk.
  - destruct (IH acc Hnd) as [Hnd' Hin]. split; [done|]. intros x.
    rewrite Hin, elem_of_cons. split; [tauto|]. intros [?|[->|?]]; tauto.
  - destruct (IH (acc ++ [k])) as [Hnd' Hin].
    { apply NoDup_app. split_and!; [done| |apply NoDup_singleton].
      by intros x Hx ->%list_elem_of_singleton. }
    split; [done|]. intros x.
    rewrite Hin, elem_of_app, list_elem_of_singleton, elem_of_cons. tauto.
Qed.

Lemma dict_fromkeys_NoDup l : NoDup (dict_fromkeys l).
Proof. apply dict_fromkeys_acc. constructor. Qed.

Lemma elem_of_dict_fromkeys l x : x ∈ dict_fromkeys l ↔ x ∈ l.
Proof.
  unfold dict_fromkeys. rewrite (proj2 (dict_fromkeys_acc l [] (NoDup_nil_2))).
  rewrite elem_of_nil. tauto.
Qed.

Section fixo.

Context {World Soup : Type}.
Variable fetch_page : string → World → result (option string) * World.
Variable now_isoformat : World → string.
Variable content_hash : string → string.
Variable parse_html : string → Soup.
Variable extract_services : Soup → list string.
Variable extract_pricing : Soup → gmap string string.
Variable extract_locations : Soup → list string.
Variable extract_promotions : Soup → list string.
Variable _extract_business_info : Soup → gmap string string.

Local Abbreviation fetch_pages := (fetch_pages fetch_page content_hash parse_html).
Local Abbreviation record_page := (@record_page Soup content_hash parse_html).
Local Abbreviation scrape :=
  (scrape fetch_page now_isoformat content_hash parse_html extract_services
     extract_pricing extract_locations extract_promotions _extract_business_info).

Lemma fetch_pages_down urls pages w :
  (∀ url w, (fetch_page url w).1 = Return None
            ∨ (fetch_page url w).1 = Return (Some "")) →
  ∃ w', fetch_pages urls pages w = (Return pages, w').
Proof.
  intros Hdown. revert w. induction urls as [|[name url] urls IH]; intros w.
  { by exists w. }
  cbn [fixo_scraper.fetch_pages].
  destruct (fetch_page url w) as [r w1] eqn:Hf.
  destruct (Hdown url w) as [Hr|Hr]; rewrite Hf in Hr; cbn [fst] in Hr; subst r;
    cbn [fixo_scraper.record_page]; apply IH.
Qed.

(** X23. When no page of the site can be fetched ([fetch_page] returns
    [None] or an empty text for every url) [scrape] does not fail: it
    returns a snapshot of fixo with no service, price, location,
    promotion, business information or page.  Compared with a stored
    snapshot of fixo, the detector then reports exactly the removal of
    every stored service, price, location and promotion. *)
Theorem scrape_site_down (w : World) (old : CompanySnapshot) (ts : string) :
  (∀ url w, (fetch_page url w).1 = Return None
            ∨ (fetch_page url w).1 = Return (Some "")) →
  snapshot.company_id old = "fixo" →
  ∃ s w' changes,
    scrape w = (Return s, w')
    ∧ services s = [] ∧ pricing s = ∅ ∧ locations s = [] ∧ promotions s = []
    ∧ business_info s = ∅ ∧ raw_pages s = ∅
    ∧ detect_changes old s ts = Return changes
    ∧ ∀ c, c ∈ changes
        ↔ (∃ x, x ∈ services old ∧ c = service_removed "fixo" ts x)
          ∨ (∃ key v, pricing old !! key = Some v ∧ c = price_removed "fixo" ts key v)
          ∨ (∃ x, x ∈ locations old ∧ c = location_removed "fixo" ts x)
          ∨ (∃ x, x ∈ promotions old ∧ c = promotion_expired "fixo" ts x).
Proof.
  intros Hdown Hold.
  destruct (fetch_pages_down URLS (∅, ∅) w Hdown) as [w' Hpages].
  set (s := {| snapshot.company_id := COMPANY_ID;
               snapshot.timestamp := now_isoformat w';
               services := []; pricing := ∅; locations := []; promotions := [];
               business_info := ∅; raw_pages := ∅; metadata := ∅ |}).
  assert (Hs : scrape w = (Return s, w')).
  { unfold fixo_scraper.scrape. rewrite Hpages. by rewrite !lookup_empty. }
  destruct (detect_changes old s ts) as [changes|e] eqn:Hdc.
  2:{ unfold detect_changes in Hdc. rewrite bool_decide_eq_false_2 in Hdc; [done|].
      intros Hne. by apply Hne. }
  exists s, w', changes. split_and!; try done.
  intros c. rewrite (detect_changes_emitted _ _ _ _ Hdc). split.
  - intros Hc. destruct Hc as [x Hx|x Hx|key v ? Hk|key v Hk|key a b ? Hk|x Hx|x Hx
                              |x Hx|x Hx|? Hb|page ? Hp].
    + by apply elem_of_nil in Hx.
    + left. by exists x.
    + change (pricing s) with (∅ : gmap string string) in Hk.
      by rewrite lookup_empty in Hk.
    + right. left. by exists key, v.
    + change (pricing s) with (∅ : gmap string string) in Hk.
      by rewrite lookup_empty in Hk.
    + by apply elem_of_nil in Hx.
    + right. right. left. by exists x.
    + by apply elem_of_nil in Hx.
    + right. right. right. by exists x.
    + by destruct Hb.
    + by destruct Hp.
  - intros [(x & Hx & ->)|[(key & v & Hk & ->)|[(x & Hx & ->)|(x & Hx & ->)]]].
    + apply (emitted_service_removed old s ts x); [done|]. by intros ?%elem_of_nil.
    + by apply (emitted_price_removed old s ts key v).
    + apply (emitted_location_removed old s ts x); [done|]. by intros ?%elem_of_nil.
    + apply (emitted_promotion_expired old s ts x); [done|]. by intros ?%elem_of_nil.
Qed.

(** What the loop leaves in [raw_pages] and [parsed_pages] for a page
    name, on a site whose answer for a url does not change. *)
Lemma fetch_pages_stateless (site : string → option string) urls :
  (∀ url w, (fetch_page url w).1 = Return (site url)) →
  ∀ pages w, ∃ w',
    fetch_pages urls pages w
    = (Return (foldl (λ pages item, record_page item.1 (site item.2) pages) pages urls),
       w').
Proof.
  intros Hsite. induction urls as [|[name url] urls IH]; intros pages w.
  { by exists w. }
  cbn [fixo_scraper.fetch_pages foldl fst snd].
  destruct (fetch_page url w) as [r w1] eqn:Hf.
  pose proof (Hsite url w) as Hr. rewrite Hf in Hr. cbn [fst] in Hr. subst r.
  apply IH.
Qed.

Lemma record_pages_lookup (site : string → option string) urls name :
  NoDup urls.*1 →
  ∀ pages : gmap string string * gmap string Soup,
  let text := url ← (list_to_map urls : gmap string string) !! name;
              html ← site url;
              if truthy html then Some html else None in
  let pages' := foldl (λ pages item, record_page item.1 (site item.2) pages) pages urls in
  pages'.1 !! name = from_option (Some ∘ content_hash) (pages.1 !! name) text
  ∧ pages'.2 !! name = from_option (Some ∘ parse_html) (pages.2 !! name) text.
Proof.
  induction urls as [|[n url] urls IH]; intros Hnd pages; [done|].
  rewrite fmap_cons in Hnd. apply NoDup_cons in Hnd as [Hn Hnd]. cbn [fst] in Hn.
  cbv zeta in *. cbn [foldl fst snd]. rewrite list_to_map_cons.
  destruct (IH Hnd (record_page n (site url) pages)) as [-> ->]. clear IH.
  destruct (decide (name = n)) as [->|Hne].
  - rewrite lookup_insert_eq. cbn [mbind option_bind].
    rewrite (not_elem_of_list_to_map_1 _ n Hn). cbn [mbind option_bind from_option].
    unfold fixo_scraper.record_page.
    destruct (site url) as [html|]; [|done]. cbn [mbind option_bind].
    destruct (truthy html); [|done]. cbn [fst snd from_option].
    by rewrite !lookup_insert_eq.
  - rewrite lookup_insert_ne by done.
    assert (Hsame : (record_page n (site url) pages).1 !! name = pages.1 !! name
                    ∧ (record_page n (site url) pages).2 !! name = pages.2 !! name).
    { unfold fixo_scraper.record_page. destruct (site url) as [html|]; [|done].
      destruct (truthy html); [|done]. cbn [fst snd].
      by rewrite !lookup_insert_ne by done. }
    destruct Hsame as [-> ->]. done.
Qed.

(** X24. On a site whose answer for a url does not change during the
    scrape, the snapshot [scrape] returns records a page exactly when
    its fetch returned a text that is not empty, under the digest of
    that text; its services are free of duplicates when the home page
    was fetched (they are deduplicated only then); prices, locations,
    promotions and business information are empty when the page they are
    read from (pricing, locations, home, about) was not fetched. *)
Theorem scrape_pages (site : string → option string) (w : World) :
  (∀ url w, (fetch_page url w).1 = Return (site url)) →
  ∃ s w',
    scrape w = (Return s, w')
    ∧ snapshot.company_id s = "fixo"
    ∧ snapshot.timestamp s = now_isoformat w'
    ∧ (∀ name, raw_pages s !! name
               = url ← (list_to_map URLS : gmap string string) !! name;
                 html ← site url;
                 if truthy html then Some (content_hash html) else None)
    ∧ (is_Some (raw_pages s !! "home") → NoDup (services s))
    ∧ (raw_pages s !! "home" = None →
       promotions s = []
       ∧ services s = from_option
                        (extract_services ∘ parse_html) []
                        (html ← site "https://fixo.pt/servicos";
                         if truthy html then Some html else None))
    ∧ (raw_pages s !! "pricing" = None → pricing s = ∅)
    ∧ (raw_pages s !! "locations" = None → locations s = [])
    ∧ (raw_pages s !! "about" = None → business_info s = ∅).
Proof.
  intros Hsite.
  destruct (fetch_pages_stateless site URLS Hsite (∅, ∅) w) as [w' Hpages].
  set (pages := foldl (λ pages item, record_page item.1 (site item.2) pages)
                  (∅, ∅) URLS) in Hpages.
  assert (Hnd : NoDup URLS.*1) by (by apply (bool_decide_unpack _); vm_compute).
  assert (Hlook : ∀ name,
             let text := url ← (list_to_map URLS : gmap string string) !! name;
                         html ← site url;
                         if truthy html then Some html else None in
             pages.1 !! name = content_hash <$> text
             ∧ pages.2 !! name = parse_html <$> text).
  { intros name.
    destruct (record_pages_lookup site URLS name Hnd (∅, ∅)) as [H1 H2].
    cbv zeta in *. fold pages in H1, H2. rewrite H1, H2. cbn [fst snd].
    rewrite !lookup_empty.
    by destruct (_ ≫= _). }
  unfold fixo_scraper.scrape. rewrite Hpages. destruct pages as [raw parsed].
  cbn [fst snd] in Hlook. eexists _, w'. split; [reflexivity|].
  cbn [snapshot.company_id snapshot.timestamp services pricing locations promotions
       business_info raw_pages].
  split; [done|]. split; [done|].
  assert (Hparsed : ∀ name, raw !! name = None → parsed !! name = None).
  { intros name Hraw. destruct (Hlook name) as [H1 H2]. rewrite H1 in Hraw.
    rewrite H2. apply fmap_None in Hraw. by rewrite Hraw. }
  split_and!.
  - intros name. destruct (Hlook name) as [-> _].
    destruct (list_to_map URLS !! name) as [url|]; [|done]. cbn.
    destruct (site url) as [html|]; [|done]. cbn. by destruct (truthy html).
  - intros [h Hh]. destruct (Hlook "home") as [Hraw ->]. rewrite Hh in Hraw.
    destruct (_ ≫= _) as [html|] eqn:Hhome; [|done]. cbn.
    apply dict_fromkeys_NoDup.
  - intros Hnone. rewrite (Hparsed _ Hnone). split; [done|].
    destruct (Hlook "services") as [_ ->].
    assert ((list_to_map URLS : gmap string string) !! "services"
            = Some "https://fixo.pt/servicos") as -> by (by vm_compute).
    cbn [mbind option_bind].
    destruct (site "https://fixo.pt/servicos") as [html|]; [|done].
    cbn [mbind option_bind]. by destruct (truthy html).
  - intros Hnone. by rewrite (Hparsed _ Hnone).
  - intros Hnone. by rewrite (Hparsed _ Hnone).
  - intros Hnone. by rewrite (Hparsed _ Hnone).
Qed.

End fixo.

Lemma scrape_site_down_witness :
  (∀ url w, (sites.fetch_page_down url w).1 = Return None
            ∨ (sites.fetch_page_down url w).1 = Return (Some ""))
  ∧ snapshot.company_id examples.fixo_monday = "fixo"
  ∧ ∃ s w' changes,
      scrape sites.fetch_page_down (λ _, "2025-03-11T07:05:01") id id sites.one_service
        sites.no_entries sites.no_items sites.no_items sites.no_entries []
      = (Return s, w')
      ∧ services s = []
      ∧ raw_pages s = ∅
      ∧ detect_changes examples.fixo_monday s examples.detection_time = Return changes.
Proof.
  assert (H1 : ∀ url w, (sites.fetch_page_down url w).1 = Return None
                        ∨ (sites.fetch_page_down url w).1 = Return (Some ""))
    by (intros url w; left; reflexivity).
  assert (H2 : snapshot.company_id examples.fixo_monday = "fixo") by reflexivity.
  split; [exact H1|]. split; [exact H2|].
  destruct (scrape_site_down sites.fetch_page_down (λ _, "2025-03-11T07:05:01") id id
              sites.one_service sites.no_entries sites.no_items sites.no_items
              sites.no_entries [] examples.fixo_monday examples.detection_time H1 H2)
    as (s & w' & changes & Hs & Hsv & Hp & Hl & Hpr & Hb & Hr & Hdc & _).
  exists s, w', changes. split; [exact Hs|]. split; [exact Hsv|]. split; [exact Hr|].
  exact Hdc.
Defined.

Lemma scrape_pages_witness :
  (∀ url w, (sites.fetch_page_home_only url w).1 = Return (sites.home_only url))
  ∧ ∃ s w',
      scrape sites.fetch_page_home_only (λ _, "2025-03-11T07:05:01") id id
        sites.one_service sites.no_entries sites.no_items sites.no_items
        sites.no_entries tt
      = (Return s, w')
      ∧ snapshot.company_id s = "fixo"
      ∧ services s = ["Canalizador"].
Proof.
  assert (H1 : ∀ url w, (sites.fetch_page_home_only url w).1
                        = Return (sites.home_only url)) by reflexivity.
  split; [exact H1|].
  destruct (scrape_pages sites.fetch_page_home_only (λ _, "2025-03-11T07:05:01") id id
              sites.one_service sites.no_entries sites.no_items sites.no_items
              sites.no_entries sites.home_only tt H1)
    as (s & w' & Hs & Hid & _).
  exists s, w'. split; [exact Hs|]. split; [exact Hid|].
  vm_compute in Hs. injection Hs as <- _. reflexivity.
Defined.

(** ** Agent: the status of the monitored companies *)

Import agent_status.

Lemma get_company_status_on_disk (cid : string) (fs : files) :
  get_company_status storage_get_latest_snapshot cid fs
  = (Return (status_of cid <$> (get_latest_snapshot cid fs).1), _company_dir cid fs).
Proof.
  unfold get_company_status, bind, agent_status.storage_get_latest_snapshot.
  rewrite <- get_latest_snapshot_state.
  destruct (get_latest_snapshot cid fs) as [[s|] fs']; done.
Qed.

Lemma get_latest_snapshot_same_directory (cid : string) (fs fs' : files) :
  directory cid fs' = directory cid fs →
  (get_latest_snapshot cid fs').1 = (get_latest_snapshot cid fs).1.
Proof. intros Hdir. by rewrite !get_latest_snapshot_value, Hdir. Qed.

Lemma status_loop_on_disk (ids : list string) : ∀ status (fs : files),
  ∃ status' fs',
    status_loop storage_get_latest_snapshot ids status fs = (Return status', fs')
    ∧ (∀ c, status' !! c
            = if decide (c ∈ ids)
              then Some (status_of c <$> (get_latest_snapshot c fs).1)
              else status !! c)
    ∧ (∀ c, directory c fs' = directory c fs)
    ∧ (∀ c, is_Some (fs' !! c) ↔ is_Some (fs !! c) ∨ c ∈ ids).
Proof.
  induction ids as [|cid ids IH]; intros status fs.
  { exists status, fs. split_and!; [done|done|done|].
    intros c. rewrite elem_of_nil. tauto. }
  cbn [agent_status.status_loop]. unfold bind at 1.
  rewrite get_company_status_on_disk.
  destruct (IH (<[cid := status_of cid <$> (get_latest_snapshot cid fs).1]> status)
              (_company_dir cid fs)) as (status' & fs' & Hrun & Hst & Hdir & Hdom).
  exists status', fs'. split_and!; [done| | |].
  - intros c. rewrite Hst. destruct (decide (c ∈ ids)) as [Hin|Hnin].
    + rewrite decide_True by (by right).
      by rewrite (get_latest_snapshot_same_directory c fs)
        by apply directory_company_dir.
    + destruct (decide (c = cid)) as [->|Hne].
      * rewrite decide_True by (by left). by rewrite lookup_insert_eq.
      * rewrite decide_False by (by intros [?|?]%elem_of_cons).
        by rewrite lookup_insert_ne.
  - intros c. by rewrite Hdir, directory_company_dir.
  - intros c. rewrite Hdom, elem_of_cons. unfold _company_dir.
    destruct (fs !! cid) as [d|] eqn:Hcid.
    + split; [tauto|]. intros [?|[->|?]]; [tauto| |tauto]. left. by rewrite Hcid.
    + destruct (decide (c = cid)) as [->|Hne].
      * rewrite lookup_insert_eq. split; [tauto|]. intros _. left. by eexists.
      * rewrite lookup_insert_ne by done. tauto.
Qed.

